(** * HearNow, Windows runner: the system-audio capture pipeline

    A shallow embedding of [windows/runner/audio_capture.cpp] and
    [audio_capture.h]: the sample-format predicates, the conversion chain
    (interleaved samples to mono float, linear resampling, 16-bit PCM
    encoding), the bounded byte queue shared with the caller, and the
    start/stop life cycle of the capture session.

    Numbers follow the C++ types.  [float] and [double] are IEEE-754
    binary32 and binary64, computed with the operations of the Standard
    Library's [SpecFloat] (round to nearest, ties to even).  Integers are
    [Z]; bytes are [Z] in [0, 256).  [std::vector] and [std::deque] are
    lists, written by index with stdpp's insert. *)

From Stdlib Require Import ZArith Bool Lia SpecFloat.
From stdpp Require Import base list.
From stdpp Require Import strings.

Local Open Scope Z_scope.

(** ** IEEE-754 arithmetic of the two C++ floating-point types *)

Module IEEE.

(** [float]: binary32, 24 bits of precision, exponents below 128. *)
Definition float := spec_float.
(** [double]: binary64, 53 bits of precision, exponents below 1024. *)
Definition double := spec_float.

Definition f32_add : float -> float -> float := SFadd 24 128.
Definition f32_mul : float -> float -> float := SFmul 24 128.
Definition f32_div : float -> float -> float := SFdiv 24 128.
Definition f32_ltb : float -> float -> bool := SFltb.

Definition f64_add : double -> double -> double := SFadd 53 1024.
Definition f64_sub : double -> double -> double := SFsub 53 1024.
Definition f64_mul : double -> double -> double := SFmul 53 1024.
Definition f64_div : double -> double -> double := SFdiv 53 1024.
Definition f64_ltb : double -> double -> bool := SFltb.

(** [static_cast<float>(n)] and [static_cast<double>(n)] of an integer. *)
Definition f32_of_Z (n : Z) : float := binary_normalize 24 128 n 0 false.
Definition f64_of_Z (n : Z) : double := binary_normalize 53 1024 n 0 false.

(** The implicit promotion of a [float] to [double] (exact), and
    [static_cast<float>(d)] of a [double] (rounds). *)
Definition f64_of_f32 (x : float) : double :=
  match x with
  | S754_finite s m e => binary_normalize 53 1024 (cond_Zopp s (Zpos m)) e s
  | _ => x
  end.
Definition f32_of_f64 (x : double) : float :=
  match x with
  | S754_finite s m e => binary_normalize 24 128 (cond_Zopp s (Zpos m)) e s
  | _ => x
  end.

(** A finite value [m * 2^e] cut to an integer: towards zero, and towards
    minus infinity.  [Z.shiftl] by a negative amount shifts right. *)
Definition truncZ (x : spec_float) : Z :=
  match x with
  | S754_finite s m e => cond_Zopp s (Z.shiftl (Zpos m) e)
  | _ => 0
  end.
Definition floorZ (x : spec_float) : Z :=
  match x with
  | S754_finite s m e => Z.shiftl (cond_Zopp s (Zpos m)) e
  | _ => 0
  end.

(** [std::floor] on a [double]: zeros, infinities and NaN are returned
    as they are; the floor of a finite double is a double. *)
Definition f64_floor (x : double) : double :=
  match x with
  | S754_finite s _ _ => binary_normalize 53 1024 (floorZ x) 0 s
  | _ => x
  end.

(** [std::max(a, b)] is [(a < b) ? b : a]. *)
Definition f64_max (a b : double) : double := if f64_ltb a b then b else a.

(** [static_cast<size_t>(d)]: the integer part, in the 64 bits of
    [size_t] on the x64 target. *)
Definition size_t_of_f64 (x : double) : Z := truncZ x mod 2 ^ 64.

(** [static_cast<int16_t>(f)].  The value is cut towards zero.  Where
    C++ leaves the conversion open (NaN, or a value outside the range of
    [int]), the model returns what the conversion instruction of the
    targets gives: the x64 [cvttss2si] answers [0x80000000].  The
    narrowing to 16 bits keeps the low half, read as two's complement. *)
Definition wrap16 (n : Z) : Z := (n + 32768) mod 65536 - 32768.
Definition int32_of_f32 (x : float) : Z :=
  match x with
  | S754_finite _ _ _ =>
      let n := truncZ x in
      if (-2147483648 <=? n) && (n <=? 2147483647) then n else -2147483648
  | S754_zero _ => 0
  | _ => -2147483648
  end.
Definition int16_of_f32 (x : float) : Z := wrap16 (int32_of_f32 x).

(** The bit pattern of a binary32 value, as stored in the four bytes the
    capture buffer holds for one sample. *)
Definition f32_of_bits (w : Z) : float :=
  let s := Z.testbit w 31 in
  let ex := Z.land (Z.shiftr w 23) 255 in
  let mant := Z.land w 8388607 in
  if ex =? 255 then (if mant =? 0 then S754_infinity s else S754_nan)
  else if ex =? 0 then
    match mant with
    | Zpos p => S754_finite s p (-149)
    | _ => S754_zero s
    end
  else
    match mant + 8388608 with
    | Zpos p => S754_finite s p (ex - 150)
    | _ => S754_nan
    end.

(** Literals of the source. *)
Definition f32_zero : float := S754_zero false.
Definition f32_one : float := S754_finite false 8388608 (-23).
Definition f32_minus_one : float := S754_finite true 8388608 (-23).
Definition f32_32767 : float := S754_finite false 16776704 (-9).
Definition f32_32768 : float := S754_finite false 8388608 (-8).
Definition f32_minus_32768 : float := S754_finite true 8388608 (-8).
Definition f64_one : double := S754_finite false 4503599627370496 (-52).

End IEEE.
Export IEEE.

(** ** Sample formats: [WAVEFORMATEX] and its extensible variant *)

Module Format.

Record GUID := mkGUID {
    Data1 : Z;
    Data2 : Z;
    Data3 : Z;
    Data4 : list Z
  }.

Definition guid_eqb (a b : GUID) : bool :=
  (Data1 a =? Data1 b) && (Data2 a =? Data2 b) && (Data3 a =? Data3 b)
  && bool_decide (Data4 a = Data4 b).

(** The descriptor the endpoint reports.  [SubFormat] is the field of
    [WAVEFORMATEXTENSIBLE] that the predicates read through the
    [reinterpret_cast] when the tag is [WAVE_FORMAT_EXTENSIBLE]. *)
Record WAVEFORMATEX := mkWAVEFORMATEX {
    wFormatTag : Z;
    nChannels : Z;
    nSamplesPerSec : Z;
    nAvgBytesPerSec : Z;
    nBlockAlign : Z;
    wBitsPerSample : Z;
    cbSize : Z;
    SubFormat : GUID
  }.

(** Constants of the Windows SDK headers [mmreg.h] and [ksmedia.h]. *)
Definition WAVE_FORMAT_PCM : Z := 1.
Definition WAVE_FORMAT_IEEE_FLOAT : Z := 3.
Definition WAVE_FORMAT_EXTENSIBLE : Z := 0xFFFE.
Definition KSDATAFORMAT_SUBTYPE_PCM : GUID :=
  mkGUID 0x00000001 0x0000 0x0010 [0x80; 0x00; 0x00; 0xaa; 0x00; 0x38; 0x9b; 0x71].
Definition KSDATAFORMAT_SUBTYPE_IEEE_FLOAT : GUID :=
  mkGUID 0x00000003 0x0000 0x0010 [0x80; 0x00; 0x00; 0xaa; 0x00; 0x38; 0x9b; 0x71].

(** A pointer to a descriptor is [None] when null. *)
Definition IsFloatFormat (fmt : option WAVEFORMATEX) : bool :=
  match fmt with
  | None => false
  | Some f =>
      if (wFormatTag f =? WAVE_FORMAT_IEEE_FLOAT) && (wBitsPerSample f =? 32) then true
      else if wFormatTag f =? WAVE_FORMAT_EXTENSIBLE then
        guid_eqb (SubFormat f) KSDATAFORMAT_SUBTYPE_IEEE_FLOAT && (wBitsPerSample f =? 32)
      else false
  end.

Definition IsPcm16Format (fmt : option WAVEFORMATEX) : bool :=
  match fmt with
  | None => false
  | Some f =>
      if (wFormatTag f =? WAVE_FORMAT_PCM) && (wBitsPerSample f =? 16) then true
      else if wFormatTag f =? WAVE_FORMAT_EXTENSIBLE then
        guid_eqb (SubFormat f) KSDATAFORMAT_SUBTYPE_PCM && (wBitsPerSample f =? 16)
      else false
  end.

End Format.
Export Format.

(** ** The conversion chain *)

Module Convert.

Definition ClampFloat (v : float) : float :=
  if f32_ltb v f32_minus_one then f32_minus_one
  else if f32_ltb f32_one v then f32_one
  else v.

Definition FloatToPcm16 (v : float) : Z :=
  let v := ClampFloat v in
  let scaled := f32_mul v f32_32767 in
  if f32_ltb scaled f32_minus_32768 then -32768
  else if f32_ltb f32_32767 scaled then 32767
  else int16_of_f32 scaled.

(** Memory behind [const uint8_t* input], read as the source reads it
    after its [reinterpret_cast]: element [k] of a [float] array is the
    four bytes from offset [4k], element [k] of an [int16_t] array is the
    two bytes from offset [2k], least significant byte first.  A byte
    beyond the end of the packet reads as 0; the source reads past its
    buffer there, which can only happen for a descriptor whose
    [nBlockAlign] is smaller than its channel count times the sample
    size, and the statements about the values of samples are made for
    descriptors and packets that exclude it. *)
Definition byte_at (input : list Z) (k : Z) : Z :=
  default 0 (input !! Z.to_nat k).
Definition float_at (input : list Z) (k : Z) : float :=
  f32_of_bits
    (Z.lor (byte_at input (4 * k))
       (Z.lor (Z.shiftl (byte_at input (4 * k + 1)) 8)
          (Z.lor (Z.shiftl (byte_at input (4 * k + 2)) 16)
             (Z.shiftl (byte_at input (4 * k + 3)) 24)))).
Definition int16_at (input : list Z) (k : Z) : Z :=
  wrap16 (Z.lor (byte_at input (2 * k)) (Z.shiftl (byte_at input (2 * k + 1)) 8)).

(** The index [i * channels + ch] is computed in [uint32_t]. *)
Definition sample_index (i channels ch : Z) : Z := (i * channels + ch) mod 2 ^ 32.

(** The two inner loops over the channels of frame [i].  The [int32_t]
    sum of at most 65535 16-bit samples does not leave its range. *)
Definition sum_float (input : list Z) (i channels : Z) : float :=
  foldl (fun sum ch => f32_add sum (float_at input (sample_index i channels (Z.of_nat ch))))
    f32_zero (seq 0 (Z.to_nat channels)).
Definition sum_int16 (input : list Z) (i channels : Z) : Z :=
  foldl (fun sum ch => sum + int16_at input (sample_index i channels (Z.of_nat ch)))
    0 (seq 0 (Z.to_nat channels)).

(** [ToMonoFloat]: the returned flag and the final content of [outMono]
    (cleared on entry, so the content on entry does not matter). *)
Definition ToMonoFloat (fmt : option WAVEFORMATEX) (input : option (list Z))
    (frames : Z) : bool * list float :=
  match fmt, input with
  | Some f, Some inp =>
      if frames =? 0 then (false, [])
      else
        let channels := nChannels f in
        if channels =? 0 then (false, [])
        else
          let outMono := replicate (Z.to_nat frames) f32_zero in
          if IsFloatFormat fmt then
            (true,
             foldl (fun out i =>
                      <[i := f32_div (sum_float inp (Z.of_nat i) channels) (f32_of_Z channels)]> out)
               outMono (seq 0 (Z.to_nat frames)))
          else if IsPcm16Format fmt then
            (true,
             foldl (fun out i =>
                      <[i := f32_div
                               (f32_div (f32_of_Z (sum_int16 inp (Z.of_nat i) channels))
                                  (f32_of_Z channels))
                               f32_32768]> out)
               outMono (seq 0 (Z.to_nat frames)))
          else
            (true, replicate (length outMono) f32_zero)
  | _, _ => (false, [])
  end.

(** [inMono[i]]; the source reads only indices below the size. *)
Definition at_index (inMono : list float) (i : Z) : float :=
  default f32_zero (inMono !! Z.to_nat i).

Definition size (v : list float) : Z := Z.of_nat (length v).

(** The number of output samples of the resampler, as the source
    computes it in [double]. *)
Definition outCount (inSize inRate outRate : Z) : Z :=
  let ratio := f64_div (f64_of_Z outRate) (f64_of_Z inRate) in
  size_t_of_f64 (f64_max f64_one (f64_floor (f64_mul (f64_of_Z inSize) ratio))).

(** One pass of the interpolation loop: the value stored at [outMono[j]]. *)
Definition interpolate (inMono : list float) (inRate outRate j : Z) : float :=
  let pos := f64_div (f64_mul (f64_of_Z j) (f64_of_Z inRate)) (f64_of_Z outRate) in
  let i0 := size_t_of_f64 (f64_floor pos) in
  let i1 := if (i0 + 1) mod 2 ^ 64 <? size inMono then (i0 + 1) mod 2 ^ 64 else i0 in
  let frac := f64_sub pos (f64_of_Z i0) in
  let s0 := at_index inMono i0 in
  let s1 := at_index inMono i1 in
  f32_of_f64
    (f64_add (f64_mul (f64_sub f64_one frac) (f64_of_f32 s0))
       (f64_mul frac (f64_of_f32 s1))).

(** [ResampleLinear]: the final content of [outMono]. *)
Definition ResampleLinear (inMono : list float) (inRate outRate : Z) : list float :=
  if bool_decide (inMono = []) || (inRate =? 0) || (outRate =? 0) then []
  else if inRate =? outRate then inMono
  else
    let n := Z.to_nat (outCount (size inMono) inRate outRate) in
    foldl (fun out j => <[j := interpolate inMono inRate outRate (Z.of_nat j)]> out)
      (replicate n f32_zero) (seq 0 n).

(** [MonoFloatToPcm16Bytes]: the final content of [outBytes]. *)
Definition MonoFloatToPcm16Bytes (inMono : list float) : list Z :=
  foldl (fun out i =>
           let s := FloatToPcm16 (at_index inMono (Z.of_nat i)) in
           <[(i * 2 + 1)%nat := Z.land (Z.shiftr s 8) 0xFF]>
             (<[(i * 2 + 0)%nat := Z.land s 0xFF]> out))
    (replicate (length inMono * 2) 0) (seq 0 (length inMono)).

End Convert.
Export Convert.

(** ** The byte queue [audio_bytes_] *)

Module Buffer.

(** [for (const auto b : outPcm16) audio_bytes_.push_back(b);] *)
Definition push_all (audio_bytes outPcm16 : list Z) : list Z :=
  foldl (fun q b => q ++ [b]) audio_bytes outPcm16.

(** [while (audio_bytes_.size() > 64000) audio_bytes_.pop_front();] *)
Fixpoint cap_buffer (audio_bytes : list Z) : list Z :=
  match audio_bytes with
  | [] => []
  | _ :: rest =>
      if 64000 <? Z.of_nat (length audio_bytes) then cap_buffer rest else audio_bytes
  end.

(** The block of [CaptureThreadProc] that runs under [frames_mutex_]
    once a packet has been converted. *)
Definition append_pcm (audio_bytes outPcm16 : list Z) : list Z :=
  if bool_decide (outPcm16 = []) then audio_bytes
  else cap_buffer (push_all audio_bytes outPcm16).

(** The copy loop of [GetSystemAudioFrame]: [to_copy] times, push the
    front byte to [out] and pop it.  The source never runs it on an empty
    queue. *)
Fixpoint pop_loop (to_copy : nat) (out audio_bytes : list Z) : list Z * list Z :=
  match to_copy with
  | O => (out, audio_bytes)
  | S k =>
      match audio_bytes with
      | [] => (out, audio_bytes)
      | b :: rest => pop_loop k (out ++ [b]) rest
      end
  end.

(** [GetSystemAudioFrame]: the returned vector and the queue left. *)
Definition GetSystemAudioFrame (requested_bytes : Z) (audio_bytes : list Z)
    : list Z * list Z :=
  if requested_bytes =? 0 then ([], audio_bytes)
  else
    let available := Z.of_nat (length audio_bytes) in
    if available =? 0 then ([], audio_bytes)
    else
      let to_copy := Z.min requested_bytes available in
      pop_loop (Z.to_nat to_copy) [] audio_bytes.

Definition AUDCLNT_BUFFERFLAGS_SILENT : Z := 0x2.

(** What [CaptureThreadProc] does with one packet that [GetBuffer]
    delivered: [buffer] is the device memory, [frames_read] and [flags]
    are as reported; the result is the queue afterwards. *)
Definition on_packet (capture_format : option WAVEFORMATEX) (buffer : list Z)
    (frames_read flags : Z) (audio_bytes : list Z) : list Z :=
  match capture_format with
  | None => audio_bytes
  | Some f =>
      let bytes_available := frames_read * nBlockAlign f in
      if 0 <? bytes_available then
        let raw :=
          if Z.land flags AUDCLNT_BUFFERFLAGS_SILENT =? 0
          then resize (Z.to_nat bytes_available) 0 buffer
          else replicate (Z.to_nat bytes_available) 0 in
        let '(ok, mono) := ToMonoFloat capture_format (Some raw) frames_read in
        let outPcm16 :=
          if ok then MonoFloatToPcm16Bytes (ResampleLinear mono (nSamplesPerSec f) 16000)
          else [] in
        append_pcm audio_bytes outPcm16
      else audio_bytes
  end.

(** The ways the queue changes: the capture thread appends converted
    bytes (given as such, or as the packet they are converted from), a
    caller pulls a frame. *)
Inductive access :=
  | Append (outPcm16 : list Z)
  | Packet (capture_format : option WAVEFORMATEX) (buffer : list Z) (frames_read flags : Z)
  | Pull (requested_bytes : Z).

Definition access_step (audio_bytes : list Z) (a : access) : list Z :=
  match a with
  | Append outPcm16 => append_pcm audio_bytes outPcm16
  | Packet capture_format buffer frames_read flags =>
      on_packet capture_format buffer frames_read flags audio_bytes
  | Pull requested_bytes => (GetSystemAudioFrame requested_bytes audio_bytes).2
  end.

End Buffer.
Export Buffer.

(** ** The capture session *)

Module Session.

(** What the session does to the world outside the object, in order. *)
Inductive event :=
  | EvInitializeWASAPI (ok : bool)
  | EvSetCapturing (b : bool)
  | EvThreadStart (t : nat)
  | EvClientStart (ok : bool)
  | EvClientStop
  | EvThreadJoin (t : nat)
  | EvThreadDelete (t : nat).

Global Instance event_eq_dec : EqDecision event.
Proof. solve_decision. Defined.

(** The answers of the audio device to the calls of one
    [StartSystemAudio]. *)
Record Device := mkDevice {
    create_enumerator_ok : bool;
    default_endpoint_ok : bool;
    activate_ok : bool;
    get_mix_format_ok : bool;
    mix_format : option WAVEFORMATEX;
    initialize_ok : bool;
    create_event_ok : bool;
    set_event_handle_ok : bool;
    get_service_ok : bool;
    start_ok : bool
  }.

(** The fields of the class.  A COM pointer or handle is [true] when it
    is not null; [capture_thread_] holds the identifier of the
    [std::thread] it points to. *)
Record AudioCapture := mkAudioCapture {
    is_capturing_ : bool;
    is_initialized_ : bool;
    device_enumerator_ : bool;
    loopback_device_ : bool;
    audio_client_ : bool;
    capture_client_ : bool;
    capture_format_ : option WAVEFORMATEX;
    audio_event_ : bool;
    capture_thread_ : option nat;
    audio_bytes_ : list Z
  }.

(** The object, the capture threads that were started and have not been
    joined, the identifier of the next thread, and the events so far. *)
Record World := mkWorld {
    obj : AudioCapture;
    running : list nat;
    next_thread : nat;
    events : list event
  }.

(** The constructor leaves every pointer null and both flags false. *)
Definition new_AudioCapture : AudioCapture :=
  mkAudioCapture false false false false false false None false None [].
Definition new_World : World := mkWorld new_AudioCapture [] 0 [].

(** A computation on the world that may never return. *)
Definition M (A : Type) : Type := World -> option (A * World).
Definition ret {A} (a : A) : M A := fun w => Some (a, w).
Definition bind {A B} (c : M A) (k : A -> M B) : M B :=
  fun w => match c w with Some (a, w') => k a w' | None => None end.

Declare Scope session_scope.
Delimit Scope session_scope with session.
Notation "x <- c ;; k" := (bind c (fun x => k))
  (at level 100, c at next level, right associativity) : session_scope.
Notation "c ;; k" := (bind c (fun _ => k))
  (at level 100, right associativity) : session_scope.
Local Open Scope session_scope.

Definition this : M AudioCapture := fun w => Some (obj w, w).
Definition update (f : AudioCapture -> AudioCapture) : M unit :=
  fun w => Some (tt, mkWorld (f (obj w)) (running w) (next_thread w) (events w)).
Definition emit (e : event) : M unit :=
  fun w => Some (tt, mkWorld (obj w) (running w) (next_thread w) (events w ++ [e])).

Definition set_is_capturing (b : bool) (a : AudioCapture) : AudioCapture :=
  mkAudioCapture b (is_initialized_ a) (device_enumerator_ a) (loopback_device_ a)
    (audio_client_ a) (capture_client_ a) (capture_format_ a) (audio_event_ a)
    (capture_thread_ a) (audio_bytes_ a).
Definition set_is_initialized (b : bool) (a : AudioCapture) : AudioCapture :=
  mkAudioCapture (is_capturing_ a) b (device_enumerator_ a) (loopback_device_ a)
    (audio_client_ a) (capture_client_ a) (capture_format_ a) (audio_event_ a)
    (capture_thread_ a) (audio_bytes_ a).
Definition set_device_enumerator (b : bool) (a : AudioCapture) : AudioCapture :=
  mkAudioCapture (is_capturing_ a) (is_initialized_ a) b (loopback_device_ a)
    (audio_client_ a) (capture_client_ a) (capture_format_ a) (audio_event_ a)
    (capture_thread_ a) (audio_bytes_ a).
Definition set_loopback_device (b : bool) (a : AudioCapture) : AudioCapture :=
  mkAudioCapture (is_capturing_ a) (is_initialized_ a) (device_enumerator_ a) b
    (audio_client_ a) (capture_client_ a) (capture_format_ a) (audio_event_ a)
    (capture_thread_ a) (audio_bytes_ a).
Definition set_audio_client (b : bool) (a : AudioCapture) : AudioCapture :=
  mkAudioCapture (is_capturing_ a) (is_initialized_ a) (device_enumerator_ a)
    (loopback_device_ a) b (capture_client_ a) (capture_format_ a) (audio_event_ a)
    (capture_thread_ a) (audio_bytes_ a).
Definition set_capture_client (b : bool) (a : AudioCapture) : AudioCapture :=
  mkAudioCapture (is_capturing_ a) (is_initialized_ a) (device_enumerator_ a)
    (loopback_device_ a) (audio_client_ a) b (capture_format_ a) (audio_event_ a)
    (capture_thread_ a) (audio_bytes_ a).
Definition set_capture_format (f : option WAVEFORMATEX) (a : AudioCapture) : AudioCapture :=
  mkAudioCapture (is_capturing_ a) (is_initialized_ a) (device_enumerator_ a)
    (loopback_device_ a) (audio_client_ a) (capture_client_ a) f (audio_event_ a)
    (capture_thread_ a) (audio_bytes_ a).
Definition set_audio_event (b : bool) (a : AudioCapture) : AudioCapture :=
  mkAudioCapture (is_capturing_ a) (is_initialized_ a) (device_enumerator_ a)
    (loopback_device_ a) (audio_client_ a) (capture_client_ a) (capture_format_ a) b
    (capture_thread_ a) (audio_bytes_ a).
Definition set_capture_thread (t : option nat) (a : AudioCapture) : AudioCapture :=
  mkAudioCapture (is_capturing_ a) (is_initialized_ a) (device_enumerator_ a)
    (loopback_device_ a) (audio_client_ a) (capture_client_ a) (capture_format_ a)
    (audio_event_ a) t (audio_bytes_ a).

(** [new std::thread(&AudioCapture::CaptureThreadProc, this)]: a fresh
    thread starts running the capture loop. *)
Definition thread_start : M nat :=
  fun w =>
    let t := next_thread w in
    Some (t, mkWorld (obj w) (running w ++ [t]) (S t) (events w ++ [EvThreadStart t])).

(** [t->join()]: the caller waits until thread [t] has left
    [while (is_capturing_)].  While the flag is set the loop does not end
    and the caller, who alone could clear it, never returns.  That the
    thread leaves its loop once the flag is cleared is taken for granted
    here: the loop of [CaptureThreadProc] is not part of the model, and
    the statements on the session are about the order of the events and
    the state they leave, not about how long a join takes. *)
Definition thread_join (t : nat) : M unit :=
  fun w =>
    if is_capturing_ (obj w) then None
    else Some (tt, mkWorld (obj w) (filter (fun u => u <> t) (running w))
                     (next_thread w) (events w ++ [EvThreadJoin t])).

Definition when (b : bool) (c : M unit) : M unit := if b then c else ret tt.

(** [InitializeWASAPI], one device call after the other; the first
    failure returns [false] and leaves what was acquired so far. *)
Definition InitializeWASAPI (dev : Device) : M bool :=
  update (set_device_enumerator (create_enumerator_ok dev)) ;;
  if negb (create_enumerator_ok dev) then ret false else
  (* FindLoopbackDevice *)
  update (set_loopback_device (default_endpoint_ok dev)) ;;
  if negb (default_endpoint_ok dev) then ret false else
  update (set_audio_client (activate_ok dev)) ;;
  if negb (activate_ok dev) then ret false else
  update (set_capture_format None) ;;
  update (set_capture_format (if get_mix_format_ok dev then mix_format dev else None)) ;;
  a <- this ;;
  if negb (get_mix_format_ok dev) || bool_decide (capture_format_ a = None) then ret false else
  if negb (initialize_ok dev) then ret false else
  when (negb (audio_event_ a)) (update (set_audio_event (create_event_ok dev))) ;;
  if negb (set_event_handle_ok dev) then ret false else
  update (set_capture_client (get_service_ok dev)) ;;
  if negb (get_service_ok dev) then ret false else
  ret true.

Definition ensure_initialized (dev : Device) : M bool :=
  a <- this ;;
  if negb (is_initialized_ a) then
    ok <- InitializeWASAPI dev ;;
    emit (EvInitializeWASAPI ok) ;;
    if negb ok then ret false
    else update (set_is_initialized true) ;; ret true
  else ret true.

Definition set_capturing (b : bool) : M unit :=
  update (set_is_capturing b) ;; emit (EvSetCapturing b).

(** [if (capture_thread_) { join; delete; capture_thread_ = nullptr; }] *)
Definition join_capture_thread : M unit :=
  a <- this ;;
  match capture_thread_ a with
  | Some t =>
      thread_join t ;;
      emit (EvThreadDelete t) ;;
      update (set_capture_thread None)
  | None => ret tt
  end.

Definition StartSystemAudio (dev : Device) : M bool :=
  ok <- ensure_initialized dev ;;
  if negb ok then ret false else
  a <- this ;;
  if negb (audio_event_ a) then ret false else
  set_capturing true ;;
  t <- thread_start ;;
  update (set_capture_thread (Some t)) ;;
  emit (EvClientStart (start_ok dev)) ;;
  if negb (start_ok dev) then
    set_capturing false ;;
    join_capture_thread ;;
    ret false
  else ret true.

Definition StopSystemAudio : M unit :=
  a <- this ;;
  if is_capturing_ a then
    set_capturing false ;;
    when (audio_client_ a) (emit EvClientStop) ;;
    join_capture_thread
  else ret tt.

(** A device on which every call succeeds. *)
Definition device_ok (fmt : WAVEFORMATEX) : Device :=
  mkDevice true true true true (Some fmt) true true true true true.

(** Event [e1] occurs in the list, and [e2] occurs after its first
    occurrence. *)
Fixpoint occurs_before (e1 e2 : event) (l : list event) : bool :=
  match l with
  | [] => false
  | e :: l' => if bool_decide (e = e1) then bool_decide (e2 ∈ l') else occurs_before e1 e2 l'
  end.

End Session.
Export Session.

(** ** Concrete inputs and the orders the specification states *)

Module Scenarios.

Definition stereo_float_48k : WAVEFORMATEX :=
  mkWAVEFORMATEX WAVE_FORMAT_IEEE_FLOAT 2 48000 384000 8 32 0 KSDATAFORMAT_SUBTYPE_IEEE_FLOAT.

(** The events a call added to the world. *)
Definition new_events (w w' : World) : list event := drop (length (events w)) (events w').

(** The order the specification gives for [stop()]. *)
Definition stop_joins_before_client_stop (w : World) : Prop :=
  forall w' t,
    StopSystemAudio w = Some (tt, w') ->
    capture_thread_ (obj w) = Some t ->
    occurs_before (EvThreadJoin t) EvClientStop (new_events w w') = true.

Definition capturing_world : World :=
  mkWorld
    (mkAudioCapture true true true true true true (Some stereo_float_48k) true (Some 0%nat) [])
    [0%nat] 1
    [EvInitializeWASAPI true; EvSetCapturing true; EvThreadStart 0; EvClientStart true].

Definition device_start_fails (fmt : WAVEFORMATEX) : Device :=
  mkDevice true true true true (Some fmt) true true true true false.

(** Two calls of [StartSystemAudio] that both succeed. *)
Definition started_twice_world : World :=
  mkWorld
    (mkAudioCapture true true true true true true (Some stereo_float_48k) true (Some 1%nat) [])
    [0%nat; 1%nat] 2
    [EvInitializeWASAPI true; EvSetCapturing true; EvThreadStart 0; EvClientStart true;
     EvSetCapturing true; EvThreadStart 1; EvClientStart true].

(** The bytes [b, b + 1, ...] modulo 256, [k] of them. *)
Fixpoint ramp_from (k : nat) (b : Z) : list Z :=
  match k with
  | O => []
  | S k' => b mod 256 :: ramp_from k' (b + 1)
  end.
Definition ramp (n : Z) : list Z := ramp_from (Z.to_nat n) 0.

Definition extensible_unknown : WAVEFORMATEX :=
  mkWAVEFORMATEX WAVE_FORMAT_EXTENSIBLE 2 48000 288000 6 24 22
    (mkGUID 0x00000092 0x0000 0x0010 [0x80; 0x00; 0x00; 0xaa; 0x00; 0x38; 0x9b; 0x71]).

(** The exact count the specification gives for the resampler. *)
Definition spec_outCount (inSize inRate outRate : Z) : Z :=
  Z.max 1 (inSize * outRate / inRate).

(** The two bytes of one 16-bit sample, least significant first. *)
Definition pcm16_bytes (s : Z) : list Z := [Z.land s 0xFF; Z.land (Z.shiftr s 8) 0xFF].

Definition f32_1_5 : float := S754_finite false 12582912 (-23).
Definition f32_half : float := S754_finite false 8388608 (-24).

(** A stereo 16-bit PCM endpoint. *)
Definition stereo_pcm16_44k : WAVEFORMATEX :=
  mkWAVEFORMATEX WAVE_FORMAT_PCM 2 44100 176400 4 16 0 KSDATAFORMAT_SUBTYPE_PCM.

(** The calls a client makes on one session, in order. *)
Inductive call :=
  | CallStart (dev : Device)
  | CallStop.

Definition do_call (c : call) : M unit :=
  match c with
  | CallStart dev => bind (StartSystemAudio dev) (fun _ => ret tt)
  | CallStop => StopSystemAudio
  end.

Fixpoint do_calls (cs : list call) : M unit :=
  match cs with
  | [] => ret tt
  | c :: cs' => bind (do_call c) (fun _ => do_calls cs')
  end.

(** How often [InitializeWASAPI] has succeeded. *)
Definition successful_inits (evs : list event) : nat :=
  length (filter (fun e => e = EvInitializeWASAPI true) evs).

(** Across any sequence of calls [InitializeWASAPI] succeeds at most once:
    as soon as it has, [is_initialized_] is set and it is not called
    again. *)
Definition initialized_once (w : World) : Prop :=
  successful_inits (events w) = if is_initialized_ (obj w) then 1%nat else 0%nat.

(** Sample rates of render endpoints, for which the two counts are
    compared below. *)
Definition device_rates : list Z := [44100; 48000; 96000].

(** The count of the source and the count of the specification agree on
    the [k] input sizes from [n] on. *)
Fixpoint counts_agree (k : nat) (n inRate outRate : Z) : bool :=
  match k with
  | O => true
  | S k' =>
      (outCount n inRate outRate =? spec_outCount n inRate outRate)
      && counts_agree k' (n + 1) inRate outRate
  end.

End Scenarios.
Export Scenarios.

(** ** The rest of the class and its caller *)

Module Runner.

Local Open Scope session_scope.

(** The bytes [CaptureThreadProc] converts one delivered packet to: what
    [on_packet] hands to the append, empty when the packet is dropped. *)
Definition packet_pcm16 (capture_format : option WAVEFORMATEX) (buffer : list Z)
    (frames_read flags : Z) : list Z :=
  match capture_format with
  | None => []
  | Some f =>
      let bytes_available := frames_read * nBlockAlign f in
      if 0 <? bytes_available then
        let raw :=
          if Z.land flags AUDCLNT_BUFFERFLAGS_SILENT =? 0
          then resize (Z.to_nat bytes_available) 0 buffer
          else replicate (Z.to_nat bytes_available) 0 in
        let '(ok, mono) := ToMonoFloat capture_format (Some raw) frames_read in
        if ok then MonoFloatToPcm16Bytes (ResampleLinear mono (nSamplesPerSec f) 16000)
        else []
      else []
  end.

(** What one access puts into the queue, and what a run of accesses
    takes out of it, in order. *)
Definition stored (a : access) : list Z :=
  match a with
  | Append outPcm16 => outPcm16
  | Packet capture_format buffer frames_read flags =>
      packet_pcm16 capture_format buffer frames_read flags
  | Pull _ => []
  end.

Fixpoint pulled (audio_bytes : list Z) (run : list access) : list Z :=
  match run with
  | [] => []
  | a :: run' =>
      match a with
      | Pull requested_bytes => (GetSystemAudioFrame requested_bytes audio_bytes).1
      | _ => []
      end ++ pulled (access_step audio_bytes a) run'
  end.

Definition set_audio_bytes (q : list Z) (a : AudioCapture) : AudioCapture :=
  mkAudioCapture (is_capturing_ a) (is_initialized_ a) (device_enumerator_ a)
    (loopback_device_ a) (audio_client_ a) (capture_client_ a) (capture_format_ a)
    (audio_event_ a) (capture_thread_ a) q.

(** [AudioCapture::GetSystemAudioFrame] as a member: the queue of the
    object is read and left shorter. *)
Definition pull_frame (requested_bytes : Z) : M (list Z) :=
  a <- this ;;
  update (set_audio_bytes (GetSystemAudioFrame requested_bytes (audio_bytes_ a)).2) ;;
  ret (GetSystemAudioFrame requested_bytes (audio_bytes_ a)).1.

(** [CleanupWASAPI]: stop, then release and null what is held.
    [is_initialized_] is left as it is. *)
Definition CleanupWASAPI : M unit :=
  StopSystemAudio ;;
  update (set_capture_client false) ;;
  update (set_audio_client false) ;;
  update (set_audio_event false) ;;
  update (set_capture_format None) ;;
  update (set_loopback_device false) ;;
  update (set_device_enumerator false).

(** [AudioCapture::~AudioCapture]. *)
Definition destroy_AudioCapture : M unit :=
  StopSystemAudio ;;
  CleanupWASAPI.

(** The values of the method channel, as far as the handler tells them
    apart: [flutter::EncodableValue] is a variant; its alternatives other
    than these are [EncOther]. *)
Inductive EncodableValue :=
  | EncNull
  | EncBool (b : bool)
  | EncInt32 (n : Z)
  | EncString (s : string)
  | EncBytes (l : list Z)
  | EncMap (m : EncodableMap)
  | EncOther
with EncodableMap :=
  | MapEnd
  | MapEntry (key value : EncodableValue) (rest : EncodableMap).

(** What the handler answers through [MethodResult]. *)
Inductive MethodResult :=
  | Success (v : EncodableValue)
  | NotImplemented.

(** [args.find(EncodableValue("length"))]: the entry of the map whose key
    is the string "length". *)
Fixpoint find_length (m : EncodableMap) : option EncodableValue :=
  match m with
  | MapEnd => None
  | MapEntry (EncString s) v m' => if String.eqb s "length" then Some v else find_length m'
  | MapEntry _ _ m' => find_length m'
  end.

(** [static_cast<size_t>] of an [int32_t]: the value modulo [2^64]. *)
Definition size_t_of_int32 (n : Z) : Z := n mod 2 ^ 64.

(** The number of bytes the handler asks for. *)
Definition requested_length (arguments : option EncodableValue) : Z :=
  let requested :=
    match arguments with
    | Some (EncInt32 n) => size_t_of_int32 n
    | Some (EncMap m) =>
        match find_length m with
        | Some (EncInt32 n) => size_t_of_int32 n
        | _ => 0
        end
    | _ => 0
    end in
  if requested =? 0 then 1280 else requested.

(** The method call handler of [FlutterWindow::OnCreate].  The state is
    [g_audio_capture]: [None] while the pointer is null; [dev] gives the
    answers of the audio device during the call. *)
Definition handle_method_call (dev : Device) (method_name : string)
    (arguments : option EncodableValue) (g_audio_capture : option World)
    : option (MethodResult * option World) :=
  if String.eqb method_name "startSystemAudio" then
    let w := match g_audio_capture with Some w => w | None => new_World end in
    match StartSystemAudio dev w with
    | Some (success, w') => Some (Success (EncBool success), Some w')
    | None => None
    end
  else if String.eqb method_name "stopSystemAudio" then
    match g_audio_capture with
    | Some w =>
        match StopSystemAudio w with
        | Some (_, w') => Some (Success EncNull, Some w')
        | None => None
        end
    | None => Some (Success EncNull, None)
    end
  else if String.eqb method_name "getSystemAudioFrame" then
    match g_audio_capture with
    | Some w =>
        match pull_frame (requested_length arguments) w with
        | Some (frame, w') => Some (Success (EncBytes frame), Some w')
        | None => None
        end
    | None => Some (Success (EncBytes []), None)
    end
  else Some (NotImplemented, g_audio_capture).

End Runner.
Export Runner.

Module RunnerState.

(** What holds of the session between calls: an initialised session holds
    its COM objects and the format; a capturing session is initialised,
    has its event and its thread, and the thread runs; a session that is
    not capturing has no thread pointer; thread identifiers are not
    reused. *)
Definition session_ok (w : World) : Prop :=
  (is_initialized_ (obj w) = true ->
   device_enumerator_ (obj w) = true /\ loopback_device_ (obj w) = true /\
   audio_client_ (obj w) = true /\ capture_client_ (obj w) = true /\
   capture_format_ (obj w) <> None) /\
  (is_capturing_ (obj w) = true ->
   is_initialized_ (obj w) = true /\ audio_event_ (obj w) = true /\
   exists t, capture_thread_ (obj w) = Some t /\ t ∈ running w) /\
  (is_capturing_ (obj w) = false -> capture_thread_ (obj w) = None) /\
  (forall t, t ∈ running w -> (t < next_thread w)%nat).

(** The only thread that runs is the one [capture_thread_] points to. *)
Definition no_stray_thread (w : World) : Prop :=
  running w = match capture_thread_ (obj w) with Some t => [t] | None => [] end.

(** The same for [g_audio_capture], which may be null. *)
Definition object_ok (g : option World) : Prop :=
  match g with Some w => session_ok w | None => True end.

End RunnerState.
Export RunnerState.

Module RunnerCalls.

(** No two calls of [StartSystemAudio] follow each other without a
    [StopSystemAudio] between them. *)
Fixpoint starts_separated (cs : list call) : bool :=
  match cs with
  | [] => true
  | c :: cs' =>
      match c, cs' with
      | CallStart _, CallStart _ :: _ => false
      | _, _ => starts_separated cs'
      end
  end.

(** Every call of the device succeeds and the mix format is there. *)
Definition device_works (dev : Device) : bool :=
  create_enumerator_ok dev && default_endpoint_ok dev && activate_ok dev &&
  get_mix_format_ok dev && bool_decide (mix_format dev <> None) &&
  initialize_ok dev && create_event_ok dev && set_event_handle_ok dev &&
  get_service_ok dev && start_ok dev.

(** A device whose [CreateEvent] gives no handle while every other call
    succeeds. *)
Definition device_without_event (fmt : WAVEFORMATEX) : Device :=
  mkDevice true true true true (Some fmt) true false true true true.

(** The session that device leaves behind: initialised, no event. *)
Definition initialized_without_event : World :=
  mkWorld
    (mkAudioCapture false true true true true true (Some stereo_float_48k) false None [])
    [] 0 [EvInitializeWASAPI true].

(** A mono 16-bit PCM endpoint that runs at the rate of the output. *)
Definition mono_pcm16_16k : WAVEFORMATEX :=
  mkWAVEFORMATEX WAVE_FORMAT_PCM 1 16000 32000 2 16 0 KSDATAFORMAT_SUBTYPE_PCM.

(** A mono 32-bit float endpoint at the same rate. *)
Definition mono_float_16k : WAVEFORMATEX :=
  mkWAVEFORMATEX WAVE_FORMAT_IEEE_FLOAT 1 16000 64000 4 32 0 KSDATAFORMAT_SUBTYPE_IEEE_FLOAT.

(** One message on the method channel, with the answers of the device
    while it is handled. *)
Record message := mkMessage {
    msg_device : Device;
    msg_method : string;
    msg_arguments : option EncodableValue
  }.

(** The handler on a sequence of messages: the answers in order and the
    final [g_audio_capture]; [None] when a call never returns. *)
Fixpoint handle_messages (ms : list message) (g_audio_capture : option World)
    : option (list MethodResult * option World) :=
  match ms with
  | [] => Some ([], g_audio_capture)
  | m :: ms' =>
      match handle_method_call (msg_device m) (msg_method m) (msg_arguments m)
              g_audio_capture with
      | Some (r, g') =>
          match handle_messages ms' g' with
          | Some (rs, g'') => Some (r :: rs, g'')
          | None => None
          end
      | None => None
      end
  end.

End RunnerCalls.
Export RunnerCalls.

(** ** Magnitudes of the doubles of the resampler *)

Module Magnitude.

(** A double that is a zero, or finite with exponent at most [T] and
    magnitude below [2^(53 + T)]: far from overflow for the [T] met in
    the resampler. *)
Definition f64_below (T : Z) (x : double) : Prop :=
  match x with
  | S754_zero _ => True
  | S754_finite _ m e => e <= T /\ Zpos m < 2 ^ (53 + T - e)
  | _ => False
  end.

(** A zero of either sign. *)
Definition is_zero (x : spec_float) : Prop :=
  match x with
  | S754_zero _ => True
  | _ => False
  end.

End Magnitude.
Export Magnitude.

(** * Properties *)

(** ** The model on the scenarios of the specification *)

(** The literals are the values the conversions from integers give, and
    the bit patterns the compiler emits for them. *)
Example literals_f32 :
  f32_of_Z 1 = f32_one /\ f32_of_Z (-1) = f32_minus_one /\
  f32_of_Z 32767 = f32_32767 /\ f32_of_Z 32768 = f32_32768 /\
  f32_of_Z (-32768) = f32_minus_32768 /\ f64_of_Z 1 = f64_one /\
  f32_of_bits 0x3F800000 = f32_one /\ f32_of_bits 0xBF800000 = f32_minus_one /\
  f32_of_bits 0x46FFFE00 = f32_32767 /\ f32_of_bits 0xC7000000 = f32_minus_32768 /\
  f32_of_bits 0x3FC00000 = f32_1_5 /\ f32_of_bits 0x3F000000 = f32_half.
Proof. repeat split; reflexivity. Qed.

(** One stereo float frame (1.0, -1.0) averages to 0.0; a second frame
    (1.0, 0.0) to 0.5. *)
Example normalize_float_frames :
  ToMonoFloat (Some stereo_float_48k)
    (Some [0; 0; 0x80; 0x3F; 0; 0; 0x80; 0xBF; 0; 0; 0x80; 0x3F; 0; 0; 0; 0]) 2
  = (true, [f32_zero; f32_half]).
Proof. reflexivity. Qed.

(** One stereo 16-bit frame (16384, 16384) averages to 0.5. *)
Example normalize_pcm16_frame :
  ToMonoFloat (Some stereo_pcm16_44k) (Some [0x00; 0x40; 0x00; 0x40]) 1
  = (true, [f32_half]).
Proof. reflexivity. Qed.

(** Mono input 0.0, 1.0 from rate 2 to rate 4: four samples, the last two
    held at the end of the input. *)
Example resample_doubling :
  ResampleLinear [f32_zero; f32_one] 2 4 = [f32_zero; f32_half; f32_one; f32_one].
Proof. vm_compute. reflexivity. Qed.

(** A silent packet of 3 frames at 48 kHz becomes one 16-bit sample of
    silence at 16 kHz, behind what the queue held. *)
Example silent_packet :
  on_packet (Some stereo_float_48k) [] 3 AUDCLNT_BUFFERFLAGS_SILENT [7; 9] = [7; 9; 0; 0].
Proof. vm_compute. reflexivity. Qed.

(** ** The byte queue: capacity and order *)

Section BufferFacts.
Implicit Types q out bs : list Z.

Lemma push_all_app q out : push_all q out = q ++ out.
Proof.
  unfold push_all. revert q.
  induction out as [|b out IH]; intros q; cbn [foldl].
  - by rewrite app_nil_r.
  - rewrite IH. by rewrite <- app_assoc.
Qed.

Lemma cap_buffer_drop q :
  cap_buffer q = drop (Z.to_nat (Z.of_nat (length q) - 64000)) q.
Proof.
  induction q as [|b q IH]; [by rewrite drop_nil|].
  cbn [cap_buffer]. rewrite length_cons, Nat2Z.inj_succ.
  destruct (Z.ltb_spec 64000 (Z.succ (Z.of_nat (length q)))) as [Hlt|Hle].
  - rewrite IH.
    replace (Z.to_nat (Z.succ (Z.of_nat (length q)) - 64000))
      with (S (Z.to_nat (Z.of_nat (length q) - 64000))) by lia.
    reflexivity.
  - replace (Z.to_nat (Z.succ (Z.of_nat (length q)) - 64000)) with 0%nat by lia.
    reflexivity.
Qed.

Lemma cap_buffer_length q : Z.of_nat (length (cap_buffer q)) <= 64000.
Proof. rewrite cap_buffer_drop, length_drop. lia. Qed.

Lemma cap_buffer_id q : Z.of_nat (length q) <= 64000 -> cap_buffer q = q.
Proof.
  intros H. rewrite cap_buffer_drop.
  replace (Z.to_nat (Z.of_nat (length q) - 64000)) with 0%nat by lia.
  reflexivity.
Qed.

Lemma append_pcm_length q out :
  Z.of_nat (length q) <= 64000 -> Z.of_nat (length (append_pcm q out)) <= 64000.
Proof.
  intros H. unfold append_pcm. case_bool_decide; [done|apply cap_buffer_length].
Qed.

Lemma pop_loop_take_drop n out q :
  pop_loop n out q = (out ++ take n q, drop n q).
Proof.
  revert out q. induction n as [|n IH]; intros out q; cbn [pop_loop].
  - by rewrite take_0, drop_0, app_nil_r.
  - destruct q as [|b q]; [by rewrite take_nil, drop_nil, app_nil_r|].
    rewrite IH. cbn [take drop]. by rewrite <- app_assoc.
Qed.

Lemma GetSystemAudioFrame_take_drop req q :
  GetSystemAudioFrame req q =
    (take (Z.to_nat (Z.min req (Z.of_nat (length q)))) q,
     drop (Z.to_nat (Z.min req (Z.of_nat (length q)))) q).
Proof.
  unfold GetSystemAudioFrame.
  destruct (Z.eqb_spec req 0) as [->|Hreq].
  - replace (Z.to_nat (Z.min 0 (Z.of_nat (length q)))) with 0%nat by lia.
    by rewrite take_0, drop_0.
  - destruct (Z.eqb_spec (Z.of_nat (length q)) 0) as [Hq|Hq].
    + destruct q; [|cbn [length] in Hq; lia]. by rewrite take_nil, drop_nil.
    + by rewrite pop_loop_take_drop.
Qed.

Lemma GetSystemAudioFrame_rest_length req q :
  (length (GetSystemAudioFrame req q).2 <= length q)%nat.
Proof. rewrite GetSystemAudioFrame_take_drop. cbn [snd]. rewrite length_drop. lia. Qed.

Lemma on_packet_length fmt buffer frames flags q :
  Z.of_nat (length q) <= 64000 ->
  Z.of_nat (length (on_packet fmt buffer frames flags q)) <= 64000.
Proof.
  intros H. unfold on_packet. destruct fmt as [f|]; [|done].
  destruct (0 <? frames * nBlockAlign f); [|done].
  destruct (ToMonoFloat _ _ _) as [ok mono]. by apply append_pcm_length.
Qed.

Lemma access_step_bounded q a :
  Z.of_nat (length q) <= 64000 -> Z.of_nat (length (access_step q a)) <= 64000.
Proof.
  intros H. destruct a as [out|fmt buffer frames flags|req]; cbn [access_step].
  - by apply append_pcm_length.
  - by apply on_packet_length.
  - pose proof (GetSystemAudioFrame_rest_length req q). lia.
Qed.

Lemma run_bounded (run : list access) q :
  Z.of_nat (length q) <= 64000 ->
  Z.of_nat (length (foldl access_step q run)) <= 64000.
Proof.
  revert q. induction run as [|a run IH]; intros q H; cbn [foldl]; [done|].
  apply IH. by apply access_step_bounded.
Qed.
End BufferFacts.

(** C1: the queue never holds more than 64000 bytes after an append has
    completed, whatever appends and pulls came before; an append that
    stores bytes removes bytes from the front until at most 64000 are
    left, so the queue is then the longest suffix of the old content
    followed by the new bytes that fits; 70000 bytes appended to the empty
    queue leave exactly 64000, the last 64000 of them. *)
Theorem output_buffer_capacity :
  (forall run : list access, Z.of_nat (length (foldl access_step [] run)) <= 64000) /\
  (forall audio_bytes outPcm16 : list Z,
     outPcm16 <> [] ->
     Z.of_nat (length (append_pcm audio_bytes outPcm16)) <= 64000 /\
     append_pcm audio_bytes outPcm16 =
       drop (Z.to_nat (Z.of_nat (length (audio_bytes ++ outPcm16)) - 64000))
         (audio_bytes ++ outPcm16)) /\
  (forall outPcm16 : list Z,
     Z.of_nat (length outPcm16) = 70000 ->
     Z.of_nat (length (append_pcm [] outPcm16)) = 64000 /\
     append_pcm [] outPcm16 = drop (Z.to_nat 6000) outPcm16).
Proof.
  split; [|split].
  - intros run. by apply run_bounded.
  - intros q out Hne. unfold append_pcm. rewrite bool_decide_eq_false_2 by done.
    split; [apply cap_buffer_length|].
    by rewrite cap_buffer_drop, push_all_app.
  - intros out Hlen.
    assert (Hne : out <> []) by (intros ->; cbn [length] in Hlen; lia).
    unfold append_pcm. rewrite bool_decide_eq_false_2 by done.
    rewrite cap_buffer_drop, push_all_app, app_nil_l, Hlen.
    replace (70000 - 64000) with 6000 by lia.
    split; [|done]. rewrite length_drop. lia.
Qed.

Lemma output_buffer_capacity_witness :
  Z.of_nat (length (append_pcm [] (ramp 70000))) = 64000 /\
  append_pcm [] (ramp 70000) = drop (Z.to_nat 6000) (ramp 70000).
Proof.
  apply (proj2 (proj2 output_buffer_capacity) (ramp 70000)).
  vm_compute. reflexivity.
Defined.

(** C2: [GetSystemAudioFrame] returns the first
    [min requested_bytes available] bytes of the queue and removes exactly
    those; the result is empty, and the queue untouched, when
    [requested_bytes] is 0 or the queue is empty; bytes appended earlier
    leave before bytes appended later. *)
Theorem GetSystemAudioFrame_fifo (requested_bytes : Z) (audio_bytes : list Z) :
  0 <= requested_bytes ->
  let k := Z.to_nat (Z.min requested_bytes (Z.of_nat (length audio_bytes))) in
  let r := GetSystemAudioFrame requested_bytes audio_bytes in
  r.1 = take k audio_bytes /\
  r.2 = drop k audio_bytes /\
  r.1 ++ r.2 = audio_bytes /\
  Z.of_nat (length r.1) = Z.min requested_bytes (Z.of_nat (length audio_bytes)) /\
  (requested_bytes = 0 \/ audio_bytes = [] -> r = ([], audio_bytes)) /\
  (forall older newer : list Z,
     audio_bytes = push_all older newer ->
     requested_bytes <= Z.of_nat (length older) ->
     r.1 = take (Z.to_nat requested_bytes) older /\
     r.2 = drop (Z.to_nat requested_bytes) older ++ newer).
Proof.
  intros Hreq k r. subst r. rewrite GetSystemAudioFrame_take_drop. fold k. cbn [fst snd].
  split; [done|]. split; [done|]. split; [apply take_drop|].
  split; [rewrite length_take; subst k; lia|].
  split.
  - intros [->| ->].
    + subst k. replace (Z.to_nat (Z.min 0 (Z.of_nat (length audio_bytes)))) with 0%nat by lia.
      by rewrite take_0, drop_0.
    + by rewrite take_nil, drop_nil.
  - intros older newer -> Hle. subst k. rewrite push_all_app.
    replace (Z.to_nat (Z.min requested_bytes (Z.of_nat (length (older ++ newer)))))
      with (Z.to_nat requested_bytes) by (rewrite length_app; lia).
    rewrite take_app_le, drop_app_le by lia. done.
Qed.

Lemma GetSystemAudioFrame_fifo_witness :
  (GetSystemAudioFrame 3 [10; 20; 30; 40; 50]).1 = [10; 20; 30] /\
  (GetSystemAudioFrame 3 [10; 20; 30; 40; 50]).2 = [40; 50].
Proof.
  pose proof (GetSystemAudioFrame_fifo 3 [10; 20; 30; 40; 50] ltac:(lia)) as H.
  cbv zeta in H. destruct H as (H1 & H2 & _). split; [exact H1|exact H2].
Defined.

(** ** The session: start, stop and the capture thread *)

(** Unfolds a session call down to the fields of the world. *)
Ltac run_session :=
  unfold StartSystemAudio, StopSystemAudio, ensure_initialized, InitializeWASAPI,
    join_capture_thread, set_capturing, thread_join, thread_start, when, emit, update,
    this, bind, ret in *;
  cbn [obj running next_thread events is_capturing_ is_initialized_ device_enumerator_
       loopback_device_ audio_client_ capture_client_ capture_format_ audio_event_
       capture_thread_ audio_bytes_ set_is_capturing set_is_initialized
       set_device_enumerator set_loopback_device set_audio_client set_capture_client
       set_capture_format set_audio_event set_capture_thread negb] in *.

Lemma capturing_world_reached :
  StartSystemAudio (device_ok stereo_float_48k) new_World = Some (true, capturing_world).
Proof. reflexivity. Qed.

Lemma StopSystemAudio_idle (w : World) :
  is_capturing_ (obj w) = false -> StopSystemAudio w = Some (tt, w).
Proof. intros H. run_session. by rewrite H. Qed.

Lemma StopSystemAudio_returns (w : World) :
  exists w', StopSystemAudio w = Some (tt, w') /\ is_capturing_ (obj w') = false.
Proof.
  destruct w as [[cap ini de ld ac cc cf ae [t|] ab] run nt evs]; run_session;
    destruct cap, ac; cbn; eauto.
Qed.

Lemma StopSystemAudio_capturing (w : World) (t : nat) :
  is_capturing_ (obj w) = true ->
  audio_client_ (obj w) = true ->
  capture_thread_ (obj w) = Some t ->
  StopSystemAudio w =
    Some (tt, mkWorld (set_capture_thread None (set_is_capturing false (obj w)))
                (filter (fun u => u <> t) (running w)) (next_thread w)
                (events w ++ [EvSetCapturing false; EvClientStop; EvThreadJoin t;
                              EvThreadDelete t])).
Proof.
  destruct w as [[cap ini de ld ac cc cf ae th ab] run nt evs]. cbn.
  intros -> -> ->. run_session. cbn. by rewrite <- !app_assoc.
Qed.

(** C3, as the code has it: [StopSystemAudio] returns at once and changes
    nothing when the session is not capturing (so on a session that was
    never started), and a second call after a first changes nothing; when
    the session is capturing it clears [is_capturing_], then stops the
    audio client, and only then joins and deletes the capture thread: the
    stream is stopped before the join, not after it. *)
Theorem StopSystemAudio_stops_stream_then_joins (w : World) :
  StopSystemAudio new_World = Some (tt, new_World) /\
  (is_capturing_ (obj w) = false -> StopSystemAudio w = Some (tt, w)) /\
  (exists w', StopSystemAudio w = Some (tt, w') /\
              is_capturing_ (obj w') = false /\
              StopSystemAudio w' = Some (tt, w')) /\
  (forall t,
     is_capturing_ (obj w) = true ->
     audio_client_ (obj w) = true ->
     capture_thread_ (obj w) = Some t ->
     exists w', StopSystemAudio w = Some (tt, w') /\
       new_events w w' = [EvSetCapturing false; EvClientStop; EvThreadJoin t; EvThreadDelete t] /\
       occurs_before (EvSetCapturing false) EvClientStop (new_events w w') = true /\
       occurs_before EvClientStop (EvThreadJoin t) (new_events w w') = true /\
       is_capturing_ (obj w') = false /\
       capture_thread_ (obj w') = None /\
       running w' = filter (fun u => u <> t) (running w)).
Proof.
  split; [reflexivity|]. split; [apply StopSystemAudio_idle|]. split.
  - destruct (StopSystemAudio_returns w) as (w' & Hw' & Hcap).
    exists w'. split; [done|]. split; [done|]. by apply StopSystemAudio_idle.
  - intros t Hcap Hac Hth. eexists. split; [by apply StopSystemAudio_capturing|].
    assert (Hnew : forall l, drop (length (events w)) (events w ++ l) = l).
    { intros l. by rewrite drop_app_length. }
    unfold new_events. cbn [events]. rewrite Hnew.
    split; [done|]. split; [|split; [|done]].
    + cbn [occurs_before]. rewrite bool_decide_eq_true_2 by done.
      apply bool_decide_eq_true_2. constructor.
    + cbn [occurs_before]. rewrite bool_decide_eq_false_2 by done.
      rewrite bool_decide_eq_true_2 by done.
      apply bool_decide_eq_true_2. constructor.
Qed.

Lemma StopSystemAudio_stops_stream_then_joins_witness :
  exists w', StopSystemAudio capturing_world = Some (tt, w') /\
    new_events capturing_world w' =
      [EvSetCapturing false; EvClientStop; EvThreadJoin 0; EvThreadDelete 0] /\
    running w' = [].
Proof.
  destruct (proj2 (proj2 (proj2 (StopSystemAudio_stops_stream_then_joins capturing_world)))
              0%nat)
    as (w' & H1 & H2 & _ & _ & _ & _ & H3); [reflexivity..|].
  exists w'. split; [exact H1|]. split; [exact H2|]. rewrite H3. reflexivity.
Defined.

(** The order of the specification fails on a session that was started
    on a device where every call succeeds: the join comes after the stop
    of the stream. *)
Lemma stop_joins_after_client_stop :
  ~ stop_joins_before_client_stop capturing_world.
Proof.
  intros H. specialize (H _ 0%nat eq_refl eq_refl). vm_compute in H. discriminate.
Qed.

Lemma ensure_initialized_true (dev : Device) (w w1 : World) :
  ensure_initialized dev w = Some (true, w1) ->
  is_initialized_ (obj w1) = true /\
  is_capturing_ (obj w1) = is_capturing_ (obj w) /\
  capture_thread_ (obj w1) = capture_thread_ (obj w) /\
  running w1 = running w /\
  next_thread w1 = next_thread w.
Proof.
  destruct w as [[cap ini de ld ac cc cf ae th ab] run nt evs].
  destruct dev as [d1 d2 d3 d4 mf d5 d6 d7 d8 d9].
  run_session. cbn.
  destruct ini; [intros [= <-]; done|].
  destruct d1, d2, d3, d4, mf, d5, ae, d7, d8; cbn; intros [= <-]; done.
Qed.

Lemma ensure_initialized_again (dev : Device) (w : World) :
  is_initialized_ (obj w) = true -> ensure_initialized dev w = Some (true, w).
Proof. intros H. run_session. by rewrite H. Qed.

Lemma StartSystemAudio_after_init (dev : Device) (w w1 : World) :
  ensure_initialized dev w = Some (true, w1) ->
  audio_event_ (obj w1) = true ->
  StartSystemAudio dev w =
    let t := next_thread w1 in
    if start_ok dev then
      Some (true,
            mkWorld (set_capture_thread (Some t) (set_is_capturing true (obj w1)))
              (running w1 ++ [t]) (S t)
              (events w1 ++ [EvSetCapturing true; EvThreadStart t; EvClientStart true]))
    else
      Some (false,
            mkWorld (set_capture_thread None (set_is_capturing false (obj w1)))
              (filter (fun u => u <> t) (running w1 ++ [t])) (S t)
              (events w1 ++ [EvSetCapturing true; EvThreadStart t; EvClientStart false;
                             EvSetCapturing false; EvThreadJoin t; EvThreadDelete t])).
Proof.
  intros Hinit Hev. unfold StartSystemAudio at 1, bind at 1. rewrite Hinit.
  destruct w1 as [[cap ini de ld ac cc cf ae th ab] run nt evs]. cbn in Hev. subst ae.
  run_session. cbn. destruct (start_ok dev); cbn; by rewrite <- !app_assoc.
Qed.

Lemma successful_inits_app (evs evs' : list event) :
  successful_inits (evs ++ evs') = (successful_inits evs + successful_inits evs')%nat.
Proof. unfold successful_inits. by rewrite filter_app, length_app. Qed.

Lemma ensure_initialized_cases (dev : Device) (w : World) :
  exists b w1,
    ensure_initialized dev w = Some (b, w1) /\
    running w1 = running w /\
    next_thread w1 = next_thread w /\
    events w1 = events w ++ (if is_initialized_ (obj w) then [] else [EvInitializeWASAPI b]) /\
    is_initialized_ (obj w1) = is_initialized_ (obj w) || b /\
    (is_initialized_ (obj w) = true -> b = true /\ w1 = w).
Proof.
  destruct w as [[cap ini de ld ac cc cf ae th ab] run nt evs].
  destruct dev as [d1 d2 d3 d4 mf d5 d6 d7 d8 d9].
  destruct ini.
  - exists true. eexists. split; [reflexivity|]. cbn. by rewrite app_nil_r.
  - run_session. cbn.
    destruct d1, d2, d3, d4, mf, d5, ae, d7, d8; cbn;
      eexists; eexists; (split; [reflexivity|]); cbn; done.
Qed.

Lemma StartSystemAudio_cases (dev : Device) (w : World) :
  exists b w1 ok w',
    ensure_initialized dev w = Some (b, w1) /\
    StartSystemAudio dev w = Some (ok, w') /\
    is_initialized_ (obj w') = is_initialized_ (obj w1) /\
    successful_inits (events w') = successful_inits (events w1) /\
    (ok = true ->
     b = true /\ start_ok dev = true /\
     running w' = running w1 ++ [next_thread w1] /\
     is_capturing_ (obj w') = true /\
     capture_thread_ (obj w') = Some (next_thread w1) /\
     new_events w1 w' =
       [EvSetCapturing true; EvThreadStart (next_thread w1); EvClientStart true]).
Proof.
  destruct (ensure_initialized_cases dev w) as (b & w1 & Hens & _).
  exists b, w1.
  destruct b; [destruct (audio_event_ (obj w1)) eqn:Hev|].
  - pose proof (StartSystemAudio_after_init dev w w1 Hens Hev) as Hstart.
    cbv zeta in Hstart. destruct (start_ok dev) eqn:Hok.
    + eexists. eexists. split; [done|]. split; [exact Hstart|].
      unfold new_events. cbn [obj events running next_thread].
      rewrite successful_inits_app, drop_app_length.
      split; [by destruct (obj w1)|]. split; [vm_compute successful_inits at 2; lia|]. intros _.
      repeat split; by destruct (obj w1).
    + eexists. eexists. split; [done|]. split; [exact Hstart|].
      cbn [obj events]. rewrite successful_inits_app.
      split; [by destruct (obj w1)|]. split; [vm_compute successful_inits at 2; lia|]. done.
  - exists false, w1. split; [done|]. split.
    + unfold StartSystemAudio, bind at 1. rewrite Hens. cbn [negb].
      unfold bind, this. by rewrite Hev.
    + done.
  - exists false, w1. split; [done|]. split.
    + unfold StartSystemAudio, bind at 1. by rewrite Hens.
    + done.
Qed.

Lemma StopSystemAudio_cases (w : World) :
  exists w',
    StopSystemAudio w = Some (tt, w') /\
    is_initialized_ (obj w') = is_initialized_ (obj w) /\
    successful_inits (events w') = successful_inits (events w).
Proof.
  destruct w as [[cap ini de ld ac cc cf ae [t|] ab] run nt evs]; run_session;
    destruct cap, ac; cbn; eexists; (split; [reflexivity|]); cbn [obj events is_initialized_];
    rewrite <- ?app_assoc, ?successful_inits_app; (split; [done|]);
    try (vm_compute successful_inits at 2; lia); done.
Qed.

Lemma StartSystemAudio_initialized_once (dev : Device) (w : World) :
  initialized_once w ->
  exists ok w', StartSystemAudio dev w = Some (ok, w') /\ initialized_once w'.
Proof.
  unfold initialized_once. intros Hinv.
  destruct (StartSystemAudio_cases dev w) as (b & w1 & ok & w' & Hens & Hstart & Hini & Hcnt & _).
  destruct (ensure_initialized_cases dev w)
    as (b' & w1' & Hens' & _ & _ & Hev & Hini1 & _).
  rewrite Hens in Hens'. injection Hens' as <- <-.
  exists ok, w'. split; [done|]. rewrite Hcnt, Hini, Hini1, Hev.
  rewrite successful_inits_app, Hinv.
  by destruct (is_initialized_ (obj w)), b.
Qed.

Lemma do_calls_initialized_once (cs : list call) (w : World) :
  initialized_once w ->
  exists w', do_calls cs w = Some (tt, w') /\ initialized_once w'.
Proof.
  revert w. induction cs as [|c cs IH]; intros w Hinv; [by exists w|].
  cbn [do_calls]. unfold bind at 1. destruct c as [dev|]; cbn [do_call].
  - destruct (StartSystemAudio_initialized_once dev w Hinv) as (ok & w1 & Hs & Hinv1).
    unfold bind at 1. rewrite Hs. cbn. by apply IH.
  - destruct (StopSystemAudio_cases w) as (w1 & Hs & Hini & Hcnt).
    rewrite Hs. apply IH. unfold initialized_once in *. by rewrite Hcnt, Hini.
Qed.

(** C4: when initialisation is done (by this call or an earlier one), the
    event handle exists and [audio_client_->Start()] fails,
    [StartSystemAudio] returns [false] after it has set and cleared
    [is_capturing_], joined and deleted the thread it had started; the
    session is not capturing, [capture_thread_] is null, the thread is no
    longer running, and a later call on a device that starts succeeds. *)
Theorem StartSystemAudio_rollback (dev : Device) (w w1 : World) :
  ensure_initialized dev w = Some (true, w1) ->
  audio_event_ (obj w1) = true ->
  start_ok dev = false ->
  exists w',
    StartSystemAudio dev w = Some (false, w') /\
    new_events w1 w' =
      [EvSetCapturing true; EvThreadStart (next_thread w1); EvClientStart false;
       EvSetCapturing false; EvThreadJoin (next_thread w1);
       EvThreadDelete (next_thread w1)] /\
    is_capturing_ (obj w') = false /\
    capture_thread_ (obj w') = None /\
    (next_thread w1 ∉ running w') /\
    running w' = filter (fun u => u <> next_thread w1) (running w1) /\
    (forall dev', start_ok dev' = true ->
       exists w'', StartSystemAudio dev' w' = Some (true, w'') /\
         is_capturing_ (obj w'') = true /\
         capture_thread_ (obj w'') = Some (next_thread w') /\
         running w'' = running w' ++ [next_thread w']).
Proof.
  intros Hinit Hev Hstart.
  destruct (ensure_initialized_true _ _ _ Hinit) as (Hini & _).
  rewrite (StartSystemAudio_after_init _ _ _ Hinit Hev). cbv zeta. rewrite Hstart.
  eexists. split; [reflexivity|].
  unfold new_events. cbn [events obj running next_thread].
  rewrite drop_app_length. split; [done|].
  split; [by destruct (obj w1)|]. split; [by destruct (obj w1)|].
  rewrite filter_app, filter_cons_False, filter_nil, app_nil_r by (intros ?; done).
  split; [rewrite list_elem_of_filter; intros [? _]; done|]. split; [done|].
  intros dev' Hdev'.
  match goal with |- context [StartSystemAudio dev' ?w] => set (w' := w) end.
  assert (Hinit' : ensure_initialized dev' w' = Some (true, w')).
  { apply ensure_initialized_again. subst w'. cbn. by destruct (obj w1). }
  rewrite (StartSystemAudio_after_init _ _ _ Hinit'); [|subst w'; cbn; by destruct (obj w1)].
  cbv zeta. rewrite Hdev'. eexists. split; [reflexivity|]. cbn. done.
Qed.

Lemma StartSystemAudio_rollback_witness :
  exists w',
    StartSystemAudio (device_start_fails stereo_float_48k) new_World = Some (false, w') /\
    is_capturing_ (obj w') = false /\
    capture_thread_ (obj w') = None /\
    running w' = [].
Proof.
  destruct (StartSystemAudio_rollback (device_start_fails stereo_float_48k) new_World
              (mkWorld (mkAudioCapture false true true true true true (Some stereo_float_48k)
                          true None [])
                 [] 0 [EvInitializeWASAPI true]))
    as (w' & H1 & _ & H2 & H3 & _ & H4 & _); [reflexivity..|].
  exists w'. split; [exact H1|]. split; [exact H2|]. split; [exact H3|]. exact H4.
Defined.

Lemma StartSystemAudio_success (dev : Device) (w w' : World) :
  StartSystemAudio dev w = Some (true, w') ->
  running w' = running w ++ [next_thread w] /\
  is_capturing_ (obj w') = true /\
  is_initialized_ (obj w') = true /\
  capture_thread_ (obj w') = Some (next_thread w).
Proof.
  intros Hstart.
  destruct (StartSystemAudio_cases dev w)
    as (b & w1 & ok & w'' & Hens & Hstart' & Hini & _ & Hok).
  rewrite Hstart in Hstart'. injection Hstart' as <- <-.
  destruct (Hok eq_refl) as (-> & _ & Hrun & Hcap & Hth & _).
  destruct (ensure_initialized_true _ _ _ Hens) as (Hini1 & _ & _ & Hrun1 & Hnext1).
  rewrite Hrun, Hth, Hrun1, Hnext1, Hini, Hini1. done.
Qed.

(** C9, on the code: across any sequence of calls [InitializeWASAPI]
    succeeds at most once, and every successful [StartSystemAudio] sets
    [is_capturing_] and starts exactly one thread; but a call on a session
    that is already capturing starts a further thread and overwrites
    [capture_thread_], so after two successful calls two capture threads
    run, and [StopSystemAudio] joins only the second. *)
Theorem StartSystemAudio_twice_runs_two_threads :
  (forall cs : list call,
     exists w, do_calls cs new_World = Some (tt, w) /\ initialized_once w) /\
  (forall dev w w',
     StartSystemAudio dev w = Some (true, w') ->
     running w' = running w ++ [next_thread w] /\ is_capturing_ (obj w') = true) /\
  StartSystemAudio (device_ok stereo_float_48k) new_World = Some (true, capturing_world) /\
  StartSystemAudio (device_ok stereo_float_48k) capturing_world
    = Some (true, started_twice_world) /\
  running capturing_world = [0%nat] /\
  is_capturing_ (obj started_twice_world) = true /\
  running started_twice_world = [0%nat; 1%nat] /\
  capture_thread_ (obj started_twice_world) = Some 1%nat /\
  (exists w3, StopSystemAudio started_twice_world = Some (tt, w3) /\ running w3 = [0%nat]).
Proof.
  split; [intros cs; by apply do_calls_initialized_once|].
  split.
  { intros dev w w' H. destruct (StartSystemAudio_success dev w w' H) as (? & ? & _). done. }
  split; [reflexivity|]. split; [reflexivity|].
  split; [reflexivity|]. split; [reflexivity|]. split; [reflexivity|]. split; [reflexivity|].
  eexists. split; [vm_compute; reflexivity|reflexivity].
Qed.

(** ** The conversion chain: lengths *)

Section IndexedWrites.
Context {A : Type}.
Implicit Types (out : list A) (f : nat -> A).

Lemma foldl_insert_length f (idx : list nat) out :
  length (foldl (fun out i => <[i := f i]> out) out idx) = length out.
Proof.
  revert out. induction idx as [|i idx IH]; intros out; cbn [foldl]; [done|].
  by rewrite IH, length_insert.
Qed.

Lemma foldl_insert_prefix f (k : nat) out :
  (k <= length out)%nat ->
  foldl (fun out i => <[i := f i]> out) out (seq 0 k) = (f <$> seq 0 k) ++ drop k out.
Proof.
  induction k as [|k IH]; intros Hk; [by rewrite drop_0|].
  rewrite seq_S, foldl_app, fmap_app. cbn [foldl fmap list_fmap Nat.add].
  rewrite IH by lia.
  destruct (lookup_lt_is_Some_2 out k ltac:(lia)) as [x Hx].
  rewrite (drop_S _ _ _ Hx).
  rewrite insert_app_r_alt by (rewrite length_fmap, length_seq; lia).
  rewrite length_fmap, length_seq, Nat.sub_diag. cbn [insert list_insert].
  by rewrite <- app_assoc.
Qed.

Lemma foldl_insert_all f (n : nat) (d : A) :
  foldl (fun out i => <[i := f i]> out) (replicate n d) (seq 0 n) = f <$> seq 0 n.
Proof.
  rewrite foldl_insert_prefix by (rewrite length_replicate; lia).
  rewrite drop_ge by (rewrite length_replicate; lia). by rewrite app_nil_r.
Qed.
End IndexedWrites.

(** C5: for a descriptor with at least one channel and a non-null input,
    the sequence [ToMonoFloat] leaves in [outMono] has exactly [frames]
    elements; when the format is neither 32-bit float nor 16-bit integer
    PCM (an extensible descriptor with another sub-format included) the
    sequence is [frames] zeros; the call reports success for every packet
    that has a frame, whatever the format. *)
Theorem ToMonoFloat_length (f : WAVEFORMATEX) (input : list Z) (frames : Z) :
  1 <= nChannels f ->
  0 <= frames ->
  let r := ToMonoFloat (Some f) (Some input) frames in
  Z.of_nat (length r.2) = frames /\
  (1 <= frames -> r.1 = true) /\
  (IsFloatFormat (Some f) = false -> IsPcm16Format (Some f) = false ->
   r.2 = replicate (Z.to_nat frames) f32_zero).
Proof.
  intros Hch Hfr r. subst r. unfold ToMonoFloat.
  destruct (Z.eqb_spec frames 0) as [->|Hnz]; [split; [done|]; split; [lia|done]|].
  destruct (Z.eqb_spec (nChannels f) 0) as [Hz|_]; [lia|].
  destruct (IsFloatFormat (Some f)) eqn:Hfloat; [|destruct (IsPcm16Format (Some f)) eqn:Hpcm].
  - cbn [fst snd]. rewrite foldl_insert_length, length_replicate. split; [lia|done].
  - cbn [fst snd]. rewrite foldl_insert_length, length_replicate. split; [lia|done].
  - cbn [fst snd]. rewrite !length_replicate. split; [lia|done].
Qed.

Lemma ToMonoFloat_length_witness :
  ToMonoFloat (Some extensible_unknown) (Some [1; 2; 3; 4; 5; 6; 7; 8; 9; 10; 11; 12]) 2
  = (true, [f32_zero; f32_zero]).
Proof.
  pose proof (ToMonoFloat_length extensible_unknown [1; 2; 3; 4; 5; 6; 7; 8; 9; 10; 11; 12] 2
                ltac:(cbn; lia) ltac:(lia)) as H.
  cbv zeta in H. destruct H as (_ & H1 & H2).
  specialize (H1 ltac:(lia)). specialize (H2 eq_refl eq_refl).
  destruct (ToMonoFloat _ _ _) as [ok out]. cbn [fst snd] in *. by rewrite H1, H2.
Defined.

(** C8, as the code has it: for every sequence and every rate other than
    0, resampling from the rate to itself returns the sequence unchanged;
    at rate 0 the output is empty, whatever the sequence. *)
Theorem ResampleLinear_equal_rates (inMono : list float) (rate : Z) :
  (rate <> 0 -> ResampleLinear inMono rate rate = inMono) /\
  (rate = 0 -> ResampleLinear inMono rate rate = []) /\
  ResampleLinear inMono rate rate = (if rate =? 0 then [] else inMono).
Proof.
  assert (Hne : rate <> 0 -> ResampleLinear inMono rate rate = inMono).
  { intros Hr. unfold ResampleLinear.
    rewrite (proj2 (Z.eqb_neq rate 0)) by done. rewrite orb_false_r, Z.eqb_refl.
    case_bool_decide; cbn; by subst. }
  assert (Hz : rate = 0 -> ResampleLinear inMono rate rate = []).
  { intros ->. unfold ResampleLinear. cbn [Z.eqb]. by rewrite orb_true_r. }
  split; [done|]. split; [done|].
  destruct (Z.eqb_spec rate 0) as [Hr|Hr]; [by apply Hz|by apply Hne].
Qed.

Lemma ResampleLinear_equal_rates_witness :
  ResampleLinear [f32_zero; f32_one] 16000 16000 = [f32_zero; f32_one] /\
  ResampleLinear [f32_zero; f32_one] 0 0 = [].
Proof.
  split.
  - apply (proj1 (ResampleLinear_equal_rates [f32_zero; f32_one] 16000)). lia.
  - apply (proj1 (proj2 (ResampleLinear_equal_rates [f32_zero; f32_one] 0))). reflexivity.
Defined.

(** At rate 0 on both sides a non-empty sequence is not returned: the
    output is empty. *)
Lemma ResampleLinear_zero_rate_not_identity :
  ResampleLinear [f32_one] 0 0 = [] /\
  ~ (forall (s : list float) (r : Z), 0 <= r < 2 ^ 32 -> ResampleLinear s r r = s).
Proof.
  split; [reflexivity|].
  intros H. specialize (H [f32_one] 0 ltac:(lia)). discriminate.
Qed.

(** C6, as the code has it: empty input or a rate of 0 on either side
    gives an empty output; otherwise the output has as many samples as
    the input when the rates are equal (which is the exact count of the
    specification there), and [outCount] samples when they differ: the
    maximum of 1.0 and the floor of size times (outRate / inRate), quotient
    and product rounded to double precision. *)
Theorem ResampleLinear_length (inMono : list float) (inRate outRate : Z) :
  (inMono = [] \/ inRate = 0 \/ outRate = 0 -> ResampleLinear inMono inRate outRate = []) /\
  (inMono <> [] -> inRate <> 0 -> outRate <> 0 ->
   Z.of_nat (length (ResampleLinear inMono inRate outRate)) =
     if inRate =? outRate then spec_outCount (size inMono) inRate outRate
     else
       size_t_of_f64
         (f64_max f64_one
            (f64_floor
               (f64_mul (f64_of_Z (size inMono))
                  (f64_div (f64_of_Z outRate) (f64_of_Z inRate)))))).
Proof.
  unfold ResampleLinear. split.
  - intros [->|[->| ->]]; [done| |].
    + by rewrite orb_true_r.
    + rewrite Z.eqb_refl. by rewrite orb_true_r.
  - intros Hne Hin Hout.
    rewrite bool_decide_eq_false_2 by done.
    rewrite (proj2 (Z.eqb_neq inRate 0)), (proj2 (Z.eqb_neq outRate 0)) by done.
    cbn [orb]. destruct (Z.eqb_spec inRate outRate) as [<-|Hdiff].
    + unfold spec_outCount, size. rewrite Z.div_mul by done.
      destruct inMono; [done|]. cbn [length]. lia.
    + rewrite foldl_insert_length, length_replicate.
      apply Z2Nat.id. unfold outCount, size_t_of_f64. apply Z.mod_pos_bound. lia.
Qed.

Lemma ResampleLinear_length_witness :
  Z.of_nat (length (ResampleLinear [f32_zero; f32_one] 2 4)) = 4 /\
  ResampleLinear [] 2 4 = [].
Proof.
  destruct (ResampleLinear_length [f32_zero; f32_one] 2 4) as [_ H].
  destruct (ResampleLinear_length [] 2 4) as [H0 _].
  split; [exact (H ltac:(done) ltac:(lia) ltac:(lia))|].
  apply H0. by left.
Defined.

(** 98 samples resampled from rate 49 to rate 1: the exact count is 2, the
    code produces 1 sample, because 98 times the double nearest to 1/49
    rounds to a double below 2.  The same happens with the target rate of
    the capture thread, 16000, from the rate 49 * 16000. *)
Lemma ResampleLinear_length_counterexample :
  spec_outCount (size (replicate 98 f32_one)) 49 1 = 2 /\
  Z.of_nat (length (ResampleLinear (replicate 98 f32_one) 49 1)) = 1 /\
  Z.of_nat (length (ResampleLinear (replicate 98 f32_one) 49 1))
    <> spec_outCount (size (replicate 98 f32_one)) 49 1 /\
  Z.of_nat (length (ResampleLinear (replicate 98 f32_one) 784000 16000))
    <> spec_outCount (size (replicate 98 f32_one)) 784000 16000.
Proof.
  split; [reflexivity|]. split; [vm_compute; reflexivity|].
  split; vm_compute; discriminate.
Qed.

Lemma counts_agree_spec (k : nat) (n inRate outRate : Z) :
  counts_agree k n inRate outRate = true ->
  forall m, n <= m < n + Z.of_nat k -> outCount m inRate outRate = spec_outCount m inRate outRate.
Proof.
  revert n. induction k as [|k IH]; intros n H m Hm; [lia|].
  cbn [counts_agree] in H. apply andb_prop in H as [H1 H2]. apply Z.eqb_eq in H1.
  destruct (Z.eq_dec m n) as [->|Hne]; [done|].
  apply (IH (n + 1)); [done|lia].
Qed.

(** For the usual endpoint rates and packets of up to 960 frames the
    count computed in double precision is the exact one. *)
Lemma outCount_exact_device_rates (inRate n : Z) :
  inRate ∈ device_rates -> 1 <= n <= 960 ->
  outCount n inRate 16000 = spec_outCount n inRate 16000.
Proof.
  intros Hr Hn.
  assert (H : forallb (fun r => counts_agree 960 1 r 16000) device_rates = true).
  { vm_compute. reflexivity. }
  rewrite forallb_forall in H. apply list_elem_of_In in Hr. specialize (H _ Hr).
  apply (counts_agree_spec _ _ _ _ H). lia.
Qed.

(** ** The encoder: rounding in binary32 and the range of the result *)

Section Rounding.

Lemma digits2_pos_size (p : positive) : digits2_pos p = Pos.size p.
Proof. induction p as [p IH|p IH|]; cbn; by rewrite ?IH. Qed.

Lemma digits2_pos_bounds (p : positive) :
  2 ^ (Zpos (digits2_pos p) - 1) <= Zpos p < 2 ^ Zpos (digits2_pos p).
Proof.
  rewrite digits2_pos_size. split.
  - pose proof (Pos.size_le p) as H.
    apply Pos2Z.pos_le_pos in H. rewrite Pos2Z.inj_pow in H.
    replace (Zpos (Pos.size p)) with (Z.succ (Zpos (Pos.size p) - 1)) in H by lia.
    rewrite Z.pow_succ_r in H by lia. lia.
  - pose proof (Pos.size_gt p) as H.
    apply Pos2Z.pos_lt_pos in H. by rewrite Pos2Z.inj_pow in H.
Qed.

Lemma shr_1_m (mrs : shr_record) :
  0 <= shr_m mrs -> shr_m (shr_1 mrs) = shr_m mrs / 2.
Proof.
  destruct mrs as [m r s]. cbn [shr_m]. intros Hm.
  destruct m as [|p|p]; [done| |lia].
  destruct p as [p|p|]; cbn [shr_1 shr_m].
  - rewrite Pos2Z.inj_xI. apply Z.div_unique with 1; lia.
  - rewrite Pos2Z.inj_xO. apply Z.div_unique with 0; lia.
  - done.
Qed.

Lemma iter_pos_shr_m (p : positive) (mrs : shr_record) :
  0 <= shr_m mrs ->
  shr_m (SpecFloat.iter_pos shr_1 p mrs) = shr_m mrs / 2 ^ Zpos p.
Proof.
  revert mrs. induction p as [p IH|p IH|]; intros mrs Hm; cbn [SpecFloat.iter_pos].
  - assert (H1 : 0 <= shr_m (shr_1 mrs)) by (rewrite shr_1_m by done; apply Z.div_pos; lia).
    assert (H2 : 0 <= shr_m (SpecFloat.iter_pos shr_1 p (shr_1 mrs)))
      by (rewrite IH by done; apply Z.div_pos; lia).
    rewrite !IH, shr_1_m by done. rewrite !Z.div_div by lia.
    f_equal. replace (Zpos p~1) with (1 + Zpos p + Zpos p) by lia.
    rewrite !Z.pow_add_r by lia. lia.
  - assert (H2 : 0 <= shr_m (SpecFloat.iter_pos shr_1 p mrs))
      by (rewrite IH by done; apply Z.div_pos; lia).
    rewrite !IH by done. rewrite !Z.div_div by lia.
    f_equal. replace (Zpos p~0) with (Zpos p + Zpos p) by lia.
    rewrite !Z.pow_add_r by lia. lia.
  - by rewrite shr_1_m.
Qed.

(** A right shift by [n] places, when [n] is positive: the mantissa is
    divided, the exponent grows by as much. *)
Lemma shr_spec (mrs : shr_record) (e n : Z) :
  0 <= shr_m mrs ->
  shr_m (shr mrs e n).1 = shr_m mrs / 2 ^ Z.max 0 n /\
  (shr mrs e n).2 = e + Z.max 0 n.
Proof.
  intros Hm. destruct n as [|p|p]; cbn [shr fst snd].
  - rewrite Z.max_id. cbn. rewrite Z.div_1_r. lia.
  - rewrite iter_pos_shr_m by done. by rewrite Z.max_r by lia.
  - rewrite Z.max_l by lia. cbn. rewrite Z.div_1_r. lia.
Qed.

Lemma shr_record_of_loc_m (m : Z) (l : location) : shr_m (shr_record_of_loc m l) = m.
Proof. by destruct l as [|[]]. Qed.

Lemma round_nearest_even_bounds (m : Z) (l : location) :
  m <= round_nearest_even m l <= m + 1.
Proof. destruct l as [|[]]; cbn; try destruct (Z.even m); lia. Qed.

Lemma Zdigits2_bound (m b : Z) :
  0 <= m -> 0 <= b -> m < 2 ^ b -> Zdigits2 m <= b.
Proof.
  intros Hm Hb Hlt. destruct m as [|p|p]; [done| |lia]. cbn [Zdigits2].
  pose proof (digits2_pos_bounds p) as [Hlo _].
  apply Z.lt_succ_r. replace (Z.succ b) with (b + 1) by lia.
  destruct (Z.lt_ge_cases (Zpos (digits2_pos p)) (b + 1)) as [|Hge]; [done|].
  exfalso. assert (2 ^ b <= 2 ^ (Zpos (digits2_pos p) - 1)) by (apply Z.pow_le_mono_r; lia).
  lia.
Qed.

(** The magnitude kept by the rounding of [mx * 2^ex] to binary32, for a
    value below [32767]. *)
Lemma binary_round_aux_below_32767 (sx : bool) (mx ex : Z) (lx : location) :
  0 <= mx -> ex <= -9 -> mx < 32767 * 2 ^ (- ex) ->
  match binary_round_aux 24 128 sx mx ex lx with
  | S754_zero s => s = sx
  | S754_finite s m e => s = sx /\ e <= -9 /\ Zpos m <= 32767 * 2 ^ (- e)
  | _ => False
  end.
Proof.
  intros Hmx Hex Hlt. unfold binary_round_aux, shr_fexp.
  set (n1 := fexp 24 128 (Zdigits2 mx + ex) - ex).
  pose proof (shr_spec (shr_record_of_loc mx lx) ex n1) as [Hm1 He1];
    [by rewrite shr_record_of_loc_m|].
  destruct (shr (shr_record_of_loc mx lx) ex n1) as [mrs1 e1]. cbn [fst snd] in Hm1, He1.
  rewrite shr_record_of_loc_m in Hm1.
  set (m2 := round_nearest_even (shr_m mrs1) (loc_of_shr_record mrs1)).
  pose proof (round_nearest_even_bounds (shr_m mrs1) (loc_of_shr_record mrs1)) as Hm2.
  fold m2 in Hm2.
  (* the first shift *)
  assert (Hpow15 : 32767 * 2 ^ (- ex) < 2 ^ (15 - ex)).
  { replace (15 - ex) with (15 + - ex) by lia. rewrite Z.pow_add_r by lia.
    assert (0 < 2 ^ (- ex)) by (apply Z.pow_pos_nonneg; lia). lia. }
  assert (Hd1 : Zdigits2 mx + ex <= 15).
  { pose proof (Zdigits2_bound mx (15 - ex) Hmx ltac:(lia) ltac:(lia)). lia. }
  assert (Hn1 : e1 <= -9) by (subst n1; unfold fexp, emin in *; lia).
  assert (Hm1lo : 0 <= shr_m mrs1) by (rewrite Hm1; apply Z.div_pos; lia).
  assert (Hm1hi : shr_m mrs1 < 32767 * 2 ^ (- e1)).
  { rewrite Hm1. apply Z.div_lt_upper_bound; [lia|].
    replace (2 ^ Z.max 0 n1 * (32767 * 2 ^ (- e1))) with (32767 * 2 ^ (- ex)); [done|].
    replace (- ex) with (Z.max 0 n1 + - e1) by lia.
    rewrite Z.pow_add_r by lia. lia. }
  (* the second shift *)
  assert (Hpow15' : 32767 * 2 ^ (- e1) < 2 ^ (15 - e1)).
  { replace (15 - e1) with (15 + - e1) by lia. rewrite Z.pow_add_r by lia.
    assert (0 < 2 ^ (- e1)) by (apply Z.pow_pos_nonneg; lia). lia. }
  set (n2 := fexp 24 128 (Zdigits2 m2 + e1) - e1).
  pose proof (shr_spec (shr_record_of_loc m2 loc_Exact) e1 n2) as [Hm3 He3];
    [cbn; lia|].
  destruct (shr (shr_record_of_loc m2 loc_Exact) e1 n2) as [mrs3 e3].
  cbn [fst snd shr_record_of_loc shr_m] in Hm3, He3.
  assert (Hd2 : Zdigits2 m2 + e1 <= 15).
  { pose proof (Zdigits2_bound m2 (15 - e1) ltac:(lia) ltac:(lia) ltac:(lia)). lia. }
  assert (He3' : e3 <= -9) by (subst n2; unfold fexp, emin in *; lia).
  assert (Hm3hi : shr_m mrs3 <= 32767 * 2 ^ (- e3)).
  { rewrite Hm3. apply Z.div_le_upper_bound; [lia|].
    replace (2 ^ Z.max 0 n2 * (32767 * 2 ^ (- e3))) with (32767 * 2 ^ (- e1)); [lia|].
    replace (- e1) with (Z.max 0 n2 + - e3) by lia.
    rewrite Z.pow_add_r by lia. lia. }
  assert (Hm3lo : 0 <= shr_m mrs3) by (rewrite Hm3; apply Z.div_pos; lia).
  destruct (shr_m mrs3) as [|p|p]; [done| |lia].
  rewrite (proj2 (Z.leb_le e3 (128 - 24))) by lia. done.
Qed.

End Rounding.

Section Encoder.

Lemma wrap16_small (n : Z) : -32768 <= n <= 32767 -> wrap16 n = n.
Proof.
  intros H. unfold wrap16. rewrite Z.mod_small by lia. lia.
Qed.

Lemma shiftl_neg_exponent (m e : Z) :
  e <= 0 -> Z.shiftl m e = m / 2 ^ (- e).
Proof.
  intros He. rewrite <- (Z.opp_involutive e) at 1.
  rewrite Z.shiftl_opp_r. apply Z.shiftr_div_pow2. lia.
Qed.

(** A binary32 value that [ClampFloat] leaves alone is [1.0], [-1.0], or
    has an exponent below that of [1.0]. *)
Lemma unclamped_exponent (s : bool) (m : positive) (e : Z) :
  bounded 24 128 m e = true ->
  f32_ltb (S754_finite s m e) f32_minus_one = false ->
  f32_ltb f32_one (S754_finite s m e) = false ->
  (e <= -24 /\ Zpos m < 2 ^ 24) \/ (e = -23 /\ m = 8388608%positive).
Proof.
  unfold bounded, canonical_mantissa, fexp, emin. intros Hb Hlo Hhi.
  apply andb_prop in Hb as [Hcan _]. apply Z.eqb_eq in Hcan.
  pose proof (digits2_pos_bounds m) as [Hdlo Hdhi].
  assert (Hd : Zpos (digits2_pos m) <= 24) by lia.
  assert (Hm24 : Zpos m < 2 ^ 24).
  { eapply Z.lt_le_trans; [exact Hdhi|]. apply Z.pow_le_mono_r; lia. }
  destruct (Z.le_gt_cases e (-24)) as [|He]; [by left|right].
  assert (He23 : e <= -23 /\ (e = -23 -> (Zpos m <= 8388608))).
  { unfold f32_ltb, SFltb, SFcompare, f32_one, f32_minus_one in Hlo, Hhi.
    destruct s.
    - destruct (Z.compare_spec e (-23)) as [->|?|?]; [|lia|done].
      split; [lia|]. intros _.
      rewrite Pos.compare_cont_spec in Hlo. cbn [Pos.switch_Eq] in Hlo.
      destruct (Pos.compare_spec m 8388608) as [Heq|Hlt|Hgt]; cbn in Hlo;
        [by rewrite Heq|by apply Z.lt_le_incl, Pos2Z.pos_lt_pos|done].
    - destruct (Z.compare_spec (-23) e) as [<-|?|?]; [|done|lia].
      split; [lia|]. intros _.
      rewrite Pos.compare_cont_spec in Hhi. cbn [Pos.switch_Eq] in Hhi.
      destruct (Pos.compare_spec 8388608 m) as [Heq|Hlt|Hgt]; cbn in Hhi;
        [by rewrite <- Heq|done|by apply Z.lt_le_incl, Pos2Z.pos_lt_pos]. }
  destruct He23 as [He23 Hm23]. assert (e = -23) as -> by lia. split; [done|].
  assert (Zpos (digits2_pos m) = 24) by lia.
  assert (2 ^ 23 <= Zpos m) by (replace 23 with (Zpos (digits2_pos m) - 1) by lia; done).
  specialize (Hm23 eq_refl). lia.
Qed.

Lemma f32_mul_32767 (s : bool) (m : positive) (e : Z) :
  f32_mul (S754_finite s m e) f32_32767 =
    binary_round_aux 24 128 (xorb s false) (Zpos (m * 16776704)) (e + -9) loc_Exact.
Proof. reflexivity. Qed.

(** The quantised value of a sample that [ClampFloat] left alone. *)
Lemma scaled_sample_range (s : bool) (m : positive) (e : Z) :
  e <= -24 -> Zpos m < 2 ^ 24 ->
  let scaled := f32_mul (S754_finite s m e) f32_32767 in
  -32767 <= (if f32_ltb scaled f32_minus_32768 then -32768
             else if f32_ltb f32_32767 scaled then 32767
             else int16_of_f32 scaled) <= 32767.
Proof.
  intros He Hm scaled. subst scaled. rewrite f32_mul_32767.
  pose proof (binary_round_aux_below_32767 (xorb s false) (Zpos (m * 16776704)) (e + -9)
                loc_Exact ltac:(lia) ltac:(lia)) as Hr.
  destruct (binary_round_aux 24 128 (xorb s false) (Zpos (m * 16776704)) (e + -9) loc_Exact)
    as [s'|s'| |s' m' e'] eqn:Hres.
  - destruct s'; vm_compute; split; discriminate.
  - exfalso. apply Hr.
    rewrite Pos2Z.inj_mul. replace (- (e + -9)) with (9 + 24 + (- e - 24)) by lia.
    rewrite !Z.pow_add_r by lia.
    assert (1 <= 2 ^ (- e - 24)) by (apply Z.lt_pred_le, Z.pow_pos_nonneg; lia). nia.
  - exfalso. apply Hr.
    rewrite Pos2Z.inj_mul. replace (- (e + -9)) with (9 + 24 + (- e - 24)) by lia.
    rewrite !Z.pow_add_r by lia.
    assert (1 <= 2 ^ (- e - 24)) by (apply Z.lt_pred_le, Z.pow_pos_nonneg; lia). nia.
  - destruct Hr as (_ & He' & Hm').
    { rewrite Pos2Z.inj_mul. replace (- (e + -9)) with (9 + 24 + (- e - 24)) by lia.
      rewrite !Z.pow_add_r by lia.
      assert (1 <= 2 ^ (- e - 24)) by (apply Z.lt_pred_le, Z.pow_pos_nonneg; lia). nia. }
    assert (Hlow : f32_ltb (S754_finite s' m' e') f32_minus_32768 = false).
    { unfold f32_ltb, SFltb, SFcompare, f32_minus_32768. destruct s'; [|done].
      destruct (Z.compare_spec e' (-8)); [lia|done|lia]. }
    rewrite Hlow. destruct (f32_ltb f32_32767 (S754_finite s' m' e')); [lia|].
    unfold int16_of_f32, int32_of_f32, truncZ.
    rewrite shiftl_neg_exponent by lia.
    assert (Hq : 0 <= Zpos m' / 2 ^ (- e') <= 32767).
    { split; [apply Z.div_pos; lia|].
      apply Z.div_le_upper_bound; [apply Z.pow_pos_nonneg; lia|]. lia. }
    assert (Hn : -32767 <= cond_Zopp s' (Zpos m' / 2 ^ (- e')) <= 32767)
      by (destruct s'; cbn [cond_Zopp]; lia).
    rewrite (proj2 (Z.leb_le _ _)), (proj2 (Z.leb_le _ _)) by lia. cbn [andb].
    rewrite wrap16_small by lia. done.
Qed.

Lemma FloatToPcm16_range (v : float) :
  valid_binary 24 128 v = true -> -32767 <= FloatToPcm16 v <= 32767.
Proof.
  intros Hv. destruct v as [s|s| |s m e].
  - destruct s; vm_compute; split; discriminate.
  - destruct s; vm_compute; split; discriminate.
  - vm_compute; split; discriminate.
  - cbn [valid_binary] in Hv. unfold FloatToPcm16, ClampFloat.
    destruct (f32_ltb (S754_finite s m e) f32_minus_one) eqn:Hlo;
      [vm_compute; split; discriminate|].
    destruct (f32_ltb f32_one (S754_finite s m e)) eqn:Hhi;
      [vm_compute; split; discriminate|].
    destruct (unclamped_exponent s m e Hv Hlo Hhi) as [[He Hm]|[-> ->]].
    + by apply scaled_sample_range.
    + destruct s; vm_compute; split; discriminate.
Qed.

End Encoder.

Lemma digits2_pos_exact (p : positive) (k : Z) :
  2 ^ (k - 1) <= Zpos p < 2 ^ k -> Zpos (digits2_pos p) = k.
Proof.
  intros [Hlo Hhi]. pose proof (digits2_pos_bounds p) as [Hdlo Hdhi].
  assert (Hk : 0 < k).
  { destruct (Z.lt_ge_cases 0 k) as [|Hle]; [done|]. exfalso.
    destruct (Z.eq_dec k 0) as [->|]; [cbn in Hhi; lia|].
    rewrite Z.pow_neg_r in Hhi by lia. lia. }
  destruct (Z.lt_trichotomy (Zpos (digits2_pos p)) k) as [Hlt|[Heq|Hgt]]; [|done|].
  - exfalso. assert (2 ^ Zpos (digits2_pos p) <= 2 ^ (k - 1)) by (apply Z.pow_le_mono_r; lia).
    lia.
  - exfalso. assert (2 ^ k <= 2 ^ (Zpos (digits2_pos p) - 1)) by (apply Z.pow_le_mono_r; lia).
    lia.
Qed.

(** Every bit pattern decodes to a binary32 value. *)
Lemma f32_of_bits_valid (w : Z) : valid_binary 24 128 (f32_of_bits w) = true.
Proof.
  unfold f32_of_bits.
  set (s := Z.testbit w 31).
  assert (Hex : 0 <= Z.land (Z.shiftr w 23) 255 < 256).
  { change 255 with (Z.ones 8). rewrite Z.land_ones by lia. apply Z.mod_pos_bound. lia. }
  assert (Hmant : 0 <= Z.land w 8388607 < 8388608).
  { change 8388607 with (Z.ones 23). rewrite Z.land_ones by lia. apply Z.mod_pos_bound. lia. }
  set (ex := Z.land (Z.shiftr w 23) 255) in *.
  set (mant := Z.land w 8388607) in *.
  destruct (Z.eqb_spec ex 255) as [|Hex255]; [by destruct (mant =? 0)|].
  destruct (Z.eqb_spec ex 0) as [Hex0|Hex0].
  - destruct mant as [|p|p] eqn:Hm; [done| |done].
    cbn [valid_binary]. unfold bounded, canonical_mantissa, fexp, emin.
    pose proof (Zdigits2_bound (Zpos p) 23 ltac:(lia) ltac:(lia) ltac:(lia)) as Hd.
    cbn [Zdigits2] in Hd.
    apply andb_true_intro. split; [apply Z.eqb_eq|apply Z.leb_le]; lia.
  - destruct (mant + 8388608) as [|p|p] eqn:Hm; [done| |done].
    cbn [valid_binary]. unfold bounded, canonical_mantissa, fexp, emin.
    rewrite (digits2_pos_exact p 24) by (change (2 ^ (24 - 1)) with 8388608;
                                          change (2 ^ 24) with 16777216; lia).
    apply andb_true_intro. split; [apply Z.eqb_eq|apply Z.leb_le]; lia.
Qed.


Section EncoderBytes.

Lemma at_index_lookup (inMono : list float) (i : nat) (v : float) :
  inMono !! i = Some v -> at_index inMono (Z.of_nat i) = v.
Proof. intros H. unfold at_index. by rewrite Nat2Z.id, H. Qed.

Lemma encode_prefix (inMono : list float) (k : nat) (out : list Z) :
  (k <= length inMono)%nat ->
  length out = (length inMono * 2)%nat ->
  foldl (fun out i =>
           let s := FloatToPcm16 (at_index inMono (Z.of_nat i)) in
           <[(i * 2 + 1)%nat := Z.land (Z.shiftr s 8) 0xFF]>
             (<[(i * 2 + 0)%nat := Z.land s 0xFF]> out))
    out (seq 0 k)
  = flat_map (fun v => pcm16_bytes (FloatToPcm16 v)) (take k inMono) ++ drop (k * 2) out.
Proof.
  intros Hk Hlen. induction k as [|k IH]; [by rewrite take_0, drop_0|].
  rewrite seq_S, foldl_app, IH by lia. clear IH.
  rewrite Nat.add_0_l. cbn [foldl]. cbv zeta.
  destruct (lookup_lt_is_Some_2 inMono k ltac:(lia)) as [v Hv].
  rewrite (take_S_r _ _ _ Hv), flat_map_app. cbn [flat_map]. rewrite app_nil_r.
  rewrite (at_index_lookup _ _ _ Hv).
  set (pre := flat_map (fun v => pcm16_bytes (FloatToPcm16 v)) (take k inMono)).
  assert (Hpre : length pre = (k * 2)%nat).
  { subst pre. clear Hv. revert Hk. generalize k. clear.
    induction inMono as [|x l IH]; intros k Hk.
    - cbn in Hk. by replace k with 0%nat by lia.
    - destruct k as [|k]; [done|]. cbn [take flat_map]. rewrite length_app, IH.
      + cbn. lia.
      + cbn in Hk. lia. }
  destruct (lookup_lt_is_Some_2 out (k * 2) ltac:(lia)) as [a Ha].
  destruct (lookup_lt_is_Some_2 out (S (k * 2)) ltac:(lia)) as [b Hb].
  rewrite (drop_S _ _ _ Ha), (drop_S _ _ _ Hb).
  rewrite !insert_app_r_alt by (rewrite ?length_insert, ?length_app; cbn; lia).
  rewrite Hpre.
  replace (k * 2 + 0 - k * 2)%nat with 0%nat by lia.
  replace (k * 2 + 1 - k * 2)%nat with 1%nat by lia.
  cbn [insert list_insert]. rewrite <- app_assoc.
  replace (S k * 2)%nat with (S (S (k * 2))) by lia. done.
Qed.

Lemma MonoFloatToPcm16Bytes_flat_map (inMono : list float) :
  MonoFloatToPcm16Bytes inMono = flat_map (fun v => pcm16_bytes (FloatToPcm16 v)) inMono.
Proof.
  unfold MonoFloatToPcm16Bytes.
  rewrite encode_prefix by (rewrite ?length_replicate; lia).
  rewrite firstn_all, drop_ge by (rewrite length_replicate; lia).
  by rewrite app_nil_r.
Qed.

Lemma flat_map_pairs_length {A} (f : A -> list Z) (l : list A) :
  (forall x, length (f x) = 2%nat) -> length (flat_map f l) = (2 * length l)%nat.
Proof.
  intros Hf. induction l as [|x l IH]; [done|].
  cbn [flat_map]. rewrite length_app, Hf, IH. cbn [length]. lia.
Qed.

Lemma pcm16_bytes_little_endian (s : Z) :
  Z.land s 0xFF + 256 * Z.land (Z.shiftr s 8) 0xFF = s mod 65536 /\
  0 <= Z.land s 0xFF < 256 /\ 0 <= Z.land (Z.shiftr s 8) 0xFF < 256.
Proof.
  change 0xFF with (Z.ones 8). rewrite !Z.land_ones by lia.
  rewrite Z.shiftr_div_pow2 by lia.
  change 65536 with (2 ^ 8 * 2 ^ 8). rewrite Z.rem_mul_r by lia.
  change (2 ^ 8) with 256.
  pose proof (Z.mod_pos_bound s 256 ltac:(lia)).
  pose proof (Z.mod_pos_bound (s / 256) 256 ltac:(lia)). lia.
Qed.

End EncoderBytes.

Lemma ClampFloat_range (v : float) :
  f32_ltb (ClampFloat v) f32_minus_one = false /\ f32_ltb f32_one (ClampFloat v) = false.
Proof.
  unfold ClampFloat.
  destruct (f32_ltb v f32_minus_one) eqn:Hlo; [done|].
  destruct (f32_ltb f32_one v) eqn:Hhi; done.
Qed.

(** C10: for every binary32 sample (every value the format has, so every
    32-bit pattern) the encoder's 16-bit value lies in [-32767, 32767],
    so -32768 is never produced; the most negative sample, -1.0, gives
    -32767, stored as the bytes 0x01, 0x80. *)
Theorem FloatToPcm16_never_minus_32768 (v : float) :
  valid_binary 24 128 v = true ->
  -32767 <= FloatToPcm16 v <= 32767 /\
  FloatToPcm16 v <> -32768 /\
  (forall bits : Z, -32767 <= FloatToPcm16 (f32_of_bits bits) <= 32767) /\
  FloatToPcm16 f32_minus_one = -32767 /\
  MonoFloatToPcm16Bytes [f32_minus_one] = [0x01; 0x80].
Proof.
  intros Hv. pose proof (FloatToPcm16_range v Hv) as H.
  split; [done|]. split; [lia|].
  split; [intros bits; apply FloatToPcm16_range, f32_of_bits_valid|].
  split; reflexivity.
Qed.

Lemma FloatToPcm16_never_minus_32768_witness :
  -32767 <= FloatToPcm16 (S754_infinity true) <= 32767 /\
  FloatToPcm16 (S754_infinity true) <> -32768.
Proof.
  destruct (FloatToPcm16_never_minus_32768 (S754_infinity true) eq_refl) as (H1 & H2 & _).
  split; [exact H1|exact H2].
Defined.

(** * Further properties of the code *)

Section QueueStream.
Implicit Types q out : list Z.

Lemma append_pcm_cap q out :
  Z.of_nat (length q) <= 64000 -> append_pcm q out = cap_buffer (q ++ out).
Proof.
  intros Hq. unfold append_pcm. case_bool_decide as Hout.
  - subst out. rewrite app_nil_r. symmetry. by apply cap_buffer_id.
  - by rewrite push_all_app.
Qed.

Lemma cap_buffer_app_cap q out :
  cap_buffer (cap_buffer q ++ out) = cap_buffer (q ++ out).
Proof.
  destruct (Z.le_gt_cases (Z.of_nat (length q)) 64000) as [Hle|Hgt].
  - by rewrite (cap_buffer_id q).
  - rewrite (cap_buffer_drop q), (cap_buffer_drop (_ ++ out)), (cap_buffer_drop (q ++ out)).
    rewrite !length_app, length_drop.
    set (k := Z.to_nat (Z.of_nat (length q) - 64000)).
    replace (Z.to_nat (Z.of_nat (length q - k + length out) - 64000)) with (length out) by lia.
    replace (Z.to_nat (Z.of_nat (length q + length out) - 64000))
      with (k + length out)%nat by lia.
    rewrite <- drop_drop. f_equal. rewrite drop_app_le by lia. done.
Qed.

Lemma on_packet_append fmt buffer frames flags q :
  on_packet fmt buffer frames flags q = append_pcm q (packet_pcm16 fmt buffer frames flags).
Proof.
  unfold on_packet, packet_pcm16. destruct fmt as [f|]; [|done].
  destruct (0 <? frames * nBlockAlign f); [|done].
  by destruct (ToMonoFloat _ _ _) as [[] mono].
Qed.

Lemma access_step_stored q a :
  access_step q a =
    match a with
    | Pull requested_bytes => (GetSystemAudioFrame requested_bytes q).2
    | _ => append_pcm q (stored a)
    end.
Proof. destruct a; cbn [access_step stored]; [done|apply on_packet_append|done]. Qed.

Lemma append_pcm_fits q out :
  Z.of_nat (length q + length out) <= 64000 -> append_pcm q out = q ++ out.
Proof.
  intros Hfit. rewrite append_pcm_cap by lia. apply cap_buffer_id.
  rewrite length_app. lia.
Qed.

End QueueStream.

(** X1: after any series of appends to a queue within its capacity, the
    queue is the last 64000 bytes of the old content followed by
    everything appended: evictions of successive appends add up to one
    sliding window. *)
Theorem appends_are_sliding_window (outs : list (list Z)) (audio_bytes : list Z) :
  Z.of_nat (length audio_bytes) <= 64000 ->
  foldl append_pcm audio_bytes outs =
    drop (Z.to_nat (Z.of_nat (length (audio_bytes ++ concat outs)) - 64000))
      (audio_bytes ++ concat outs).
Proof.
  rewrite <- cap_buffer_drop. revert audio_bytes.
  induction outs as [|out outs IH]; intros q Hq; cbn [foldl concat].
  - rewrite app_nil_r. symmetry. by apply cap_buffer_id.
  - rewrite IH by (by apply append_pcm_length).
    rewrite append_pcm_cap by done.
    by rewrite cap_buffer_app_cap, <- app_assoc.
Qed.

Lemma appends_are_sliding_window_witness :
  foldl append_pcm [1; 2] [[3]; []; [4; 5]] = [1; 2; 3; 4; 5].
Proof. apply (appends_are_sliding_window [[3]; []; [4; 5]] [1; 2]). cbn. lia. Defined.

(** X2: an append that fits stores everything behind the old content and
    drops nothing; an append of at most 64000 bytes is kept whole at the
    tail, whatever it evicts; an append of 64000 bytes or more leaves
    nothing of the old content. *)
Theorem append_pcm_keeps_newest (audio_bytes outPcm16 : list Z) :
  (Z.of_nat (length audio_bytes + length outPcm16) <= 64000 ->
   append_pcm audio_bytes outPcm16 = audio_bytes ++ outPcm16) /\
  (outPcm16 <> [] -> Z.of_nat (length outPcm16) <= 64000 ->
   exists kept, kept `suffix_of` audio_bytes /\
     append_pcm audio_bytes outPcm16 = kept ++ outPcm16) /\
  (64000 <= Z.of_nat (length outPcm16) ->
   append_pcm audio_bytes outPcm16 =
     drop (Z.to_nat (Z.of_nat (length outPcm16) - 64000)) outPcm16).
Proof.
  split; [|split].
  - apply append_pcm_fits.
  - intros Hne Hle. unfold append_pcm. rewrite bool_decide_eq_false_2 by done.
    rewrite push_all_app, cap_buffer_drop, length_app.
    set (k := Z.to_nat (Z.of_nat (length audio_bytes + length outPcm16) - 64000)).
    exists (drop k audio_bytes). split; [apply suffix_drop|].
    rewrite drop_app_le by lia. done.
  - intros Hge. unfold append_pcm.
    assert (Hne : outPcm16 <> []) by (intros ->; cbn in Hge; lia).
    rewrite bool_decide_eq_false_2 by done.
    rewrite push_all_app, cap_buffer_drop, length_app.
    replace (Z.to_nat (Z.of_nat (length audio_bytes + length outPcm16) - 64000))
      with (length audio_bytes + Z.to_nat (Z.of_nat (length outPcm16) - 64000))%nat by lia.
    by rewrite drop_app_add.
Qed.

Lemma append_pcm_keeps_newest_witness :
  append_pcm [1; 2; 3] [4; 5] = [1; 2; 3] ++ [4; 5].
Proof. apply (proj1 (append_pcm_keeps_newest [1; 2; 3] [4; 5])). cbn. lia. Defined.

(** X3: two pulls in a row return, together, what one pull of the summed
    length returns (when the sum fits [size_t]), and leave the same
    queue; a pull of at least the queue's length returns the whole queue
    and leaves it empty. *)
Theorem GetSystemAudioFrame_compose (a b : Z) (audio_bytes : list Z) :
  0 <= a -> 0 <= b -> a + b < 2 ^ 64 ->
  let first := GetSystemAudioFrame a audio_bytes in
  let second := GetSystemAudioFrame b first.2 in
  first.1 ++ second.1 = (GetSystemAudioFrame (a + b) audio_bytes).1 /\
  second.2 = (GetSystemAudioFrame (a + b) audio_bytes).2 /\
  (Z.of_nat (length audio_bytes) <= a -> first = (audio_bytes, [])).
Proof.
  intros Ha Hb _ first second. subst first second.
  rewrite !GetSystemAudioFrame_take_drop. cbn [fst snd].
  rewrite length_drop.
  set (n := length audio_bytes).
  set (i := Z.to_nat (Z.min a (Z.of_nat n))).
  replace (Z.to_nat (Z.min b (Z.of_nat (n - i)))) with (Z.to_nat (Z.min (a + b) (Z.of_nat n)) - i)%nat
    by lia.
  set (j := Z.to_nat (Z.min (a + b) (Z.of_nat n))).
  assert (Hij : (i <= j)%nat) by lia.
  split; [|split].
  - rewrite take_take_drop. f_equal. lia.
  - rewrite drop_drop. by replace (i + (j - i))%nat with j by lia.
  - intros Hall. subst i n. rewrite Z.min_r by lia. rewrite Nat2Z.id.
    by rewrite firstn_all, drop_all.
Qed.

Lemma GetSystemAudioFrame_compose_witness :
  (GetSystemAudioFrame 2 [1; 2; 3; 4; 5]).1 ++
    (GetSystemAudioFrame 1 (GetSystemAudioFrame 2 [1; 2; 3; 4; 5]).2).1
  = (GetSystemAudioFrame (2 + 1) [1; 2; 3; 4; 5]).1.
Proof.
  apply (proj1 (GetSystemAudioFrame_compose 2 1 [1; 2; 3; 4; 5]
                  ltac:(lia) ltac:(lia) ltac:(lia))).
Defined.

Lemma append_pcm_is_drop (q out : list Z) :
  exists k, append_pcm q out = drop k (q ++ out).
Proof.
  unfold append_pcm. case_bool_decide as Hout.
  - exists 0%nat. subst out. by rewrite app_nil_r.
  - eexists. by rewrite push_all_app, cap_buffer_drop.
Qed.

Lemma queue_run_split (run : list access) (q : list Z) :
  exists gone,
    q ++ concat (stored <$> run) = gone ++ foldl access_step q run /\
    pulled q run `sublist_of` gone.
Proof.
  revert q. induction run as [|a run IH]; intros q; cbn [foldl fmap list_fmap concat pulled].
  - exists []. by rewrite app_nil_r.
  - destruct (IH (access_step q a)) as (gone & Heq & Hsub).
    rewrite access_step_stored in Heq, Hsub |- *.
    destruct a as [out|fmt buffer frames flags|req].
    + destruct (append_pcm_is_drop q (stored (Append out))) as [k Hk].
      rewrite Hk in Heq, Hsub |- *. exists (take k (q ++ stored (Append out)) ++ gone).
      split.
      * rewrite <- app_assoc, <- Heq, !app_assoc. f_equal. by rewrite take_drop.
      * by apply sublist_inserts_l.
    + destruct (append_pcm_is_drop q (stored (Packet fmt buffer frames flags))) as [k Hk].
      rewrite Hk in Heq, Hsub |- *.
      exists (take k (q ++ stored (Packet fmt buffer frames flags)) ++ gone).
      split.
      * rewrite <- app_assoc, <- Heq, !app_assoc. f_equal. by rewrite take_drop.
      * by apply sublist_inserts_l.
    + rewrite GetSystemAudioFrame_take_drop in Heq, Hsub |- *. cbn [fst snd stored] in *.
      set (k := Z.to_nat (Z.min req (Z.of_nat (length q)))) in *.
      exists (take k q ++ gone). split.
      * rewrite <- app_assoc, <- Heq. cbn [app]. by rewrite app_assoc, take_drop.
      * by apply sublist_app.
Qed.

(** X4: whatever the appends, packets and pulls, the bytes handed out
    followed by the bytes still queued are a subsequence of the bytes put
    in, in the order they were put in, and the queue is always the tail of
    what was put in: bytes may be dropped, never reordered, repeated or
    invented. *)
Theorem queue_keeps_order (run : list access) (audio_bytes : list Z) :
  foldl access_step audio_bytes run `suffix_of` audio_bytes ++ concat (stored <$> run) /\
  pulled audio_bytes run ++ foldl access_step audio_bytes run
    `sublist_of` audio_bytes ++ concat (stored <$> run).
Proof.
  destruct (queue_run_split run audio_bytes) as (gone & Heq & Hsub). rewrite Heq. split.
  - by exists gone.
  - by apply sublist_app.
Qed.

(** X5: as long as the old content and everything stored fit into 64000
    bytes, nothing is lost: the bytes handed out followed by the bytes
    still queued are exactly the bytes put in. *)
Theorem queue_is_lossless_within_capacity (run : list access) (audio_bytes : list Z) :
  Z.of_nat (length (audio_bytes ++ concat (stored <$> run))) <= 64000 ->
  pulled audio_bytes run ++ foldl access_step audio_bytes run
    = audio_bytes ++ concat (stored <$> run).
Proof.
  revert audio_bytes.
  induction run as [|a run IH]; intros q Hfit; cbn [foldl fmap list_fmap concat pulled] in *.
  - by rewrite app_nil_r.
  - rewrite !length_app in Hfit.
    assert (Hstep : access_step q a = drop (length (match a with
                       | Pull requested_bytes => (GetSystemAudioFrame requested_bytes q).1
                       | _ => [] end)) (q ++ stored a)).
    { rewrite access_step_stored. destruct a as [out|fmt buffer frames flags|req].
      - cbn [length drop]. apply append_pcm_fits. lia.
      - cbn [length drop]. apply append_pcm_fits. lia.
      - rewrite GetSystemAudioFrame_take_drop. cbn [fst snd stored].
        rewrite app_nil_r. rewrite length_take. f_equal. lia. }
    rewrite <- app_assoc, IH.
    + rewrite Hstep. rewrite !app_assoc. f_equal.
      destruct a as [out|fmt buffer frames flags|req]; cbn [length drop app]; [done..|].
      rewrite GetSystemAudioFrame_take_drop. cbn [fst snd stored]. rewrite app_nil_r.
      rewrite length_take.
      replace (Z.to_nat (Z.min req (Z.of_nat (length q))) `min` length q)%nat
        with (Z.to_nat (Z.min req (Z.of_nat (length q)))) by lia.
      by rewrite take_drop.
    + rewrite Hstep, length_app, length_drop, length_app. lia.
Qed.

Lemma queue_is_lossless_within_capacity_witness :
  pulled [1] [Append [2; 3]; Pull 2; Append [4]; Pull 9]
    ++ foldl access_step [1] [Append [2; 3]; Pull 2; Append [4]; Pull 9]
  = [1] ++ concat (stored <$> [Append [2; 3]; Pull 2; Append [4]; Pull 9]).
Proof.
  apply (queue_is_lossless_within_capacity [Append [2; 3]; Pull 2; Append [4]; Pull 9] [1]).
  cbn. lia.
Defined.

(** X6: a packet is dropped, and the queue left as it is, when no format
    is known, when the packet has no frame, when the format's block
    alignment is 0, or when the format has no channel. *)
Theorem on_packet_dropped (capture_format : option WAVEFORMATEX) (buffer : list Z)
    (frames_read flags : Z) (audio_bytes : list Z) :
  capture_format = None \/ frames_read = 0 \/
  (exists f, capture_format = Some f /\ (nBlockAlign f = 0 \/ nChannels f = 0)) ->
  on_packet capture_format buffer frames_read flags audio_bytes = audio_bytes.
Proof.
  intros [->|[->|(f & -> & Hf)]]; [done| |].
  - unfold on_packet. destruct capture_format as [f|]; [|done]. by rewrite Z.mul_0_l.
  - unfold on_packet. destruct Hf as [Hb|Hc].
    + by rewrite Hb, Z.mul_0_r.
    + destruct (0 <? frames_read * nBlockAlign f); [|done].
      unfold ToMonoFloat. rewrite Hc.
      destruct (frames_read =? 0); done.
Qed.

Lemma on_packet_dropped_witness :
  on_packet (Some (mkWAVEFORMATEX WAVE_FORMAT_PCM 0 44100 0 4 16 0 KSDATAFORMAT_SUBTYPE_PCM))
    [1; 2; 3; 4] 1 0 [7; 8] = [7; 8].
Proof.
  apply on_packet_dropped. right. right. eexists. split; [reflexivity|]. by right.
Defined.

Lemma ToMonoFloat_ok (f : WAVEFORMATEX) (input : list Z) (frames : Z) :
  nChannels f <> 0 -> 1 <= frames ->
  exists mono, ToMonoFloat (Some f) (Some input) frames = (true, mono) /\
               length mono = Z.to_nat frames.
Proof.
  intros Hc Hf. unfold ToMonoFloat.
  rewrite (proj2 (Z.eqb_neq frames 0)), (proj2 (Z.eqb_neq (nChannels f) 0)) by lia.
  destruct (IsFloatFormat (Some f)); [|destruct (IsPcm16Format (Some f))];
    eexists; (split; [reflexivity|]);
    by rewrite ?foldl_insert_length, ?length_replicate.
Qed.

Lemma ResampleLinear_size (inMono : list float) (inRate outRate : Z) :
  inMono <> [] -> outRate <> 0 ->
  Z.of_nat (length (ResampleLinear inMono inRate outRate)) =
    if inRate =? 0 then 0
    else if inRate =? outRate then size inMono
    else outCount (size inMono) inRate outRate.
Proof.
  intros Hne Hout. unfold ResampleLinear.
  rewrite bool_decide_eq_false_2 by done. rewrite (proj2 (Z.eqb_neq outRate 0)) by done.
  rewrite orb_false_r. cbn [orb]. destruct (inRate =? 0); [done|].
  destruct (inRate =? outRate); [done|].
  rewrite foldl_insert_length, length_replicate.
  apply Z2Nat.id. unfold outCount, size_t_of_f64. apply Z.mod_pos_bound. lia.
Qed.

(** X7: a packet of at least one frame in a format with channels and a
    block alignment stores two bytes per resampled sample: nothing when
    the device rate is 0, twice the frame count when the device already
    runs at 16000 Hz, twice the resampler's count otherwise. *)
Theorem packet_pcm16_length (f : WAVEFORMATEX) (buffer : list Z) (frames_read flags : Z) :
  1 <= frames_read -> 1 <= nBlockAlign f -> 1 <= nChannels f ->
  Z.of_nat (length (packet_pcm16 (Some f) buffer frames_read flags)) =
    2 * (if nSamplesPerSec f =? 0 then 0
         else if nSamplesPerSec f =? 16000 then frames_read
         else outCount frames_read (nSamplesPerSec f) 16000).
Proof.
  intros Hfr Hb Hc. unfold packet_pcm16.
  rewrite (proj2 (Z.ltb_lt 0 (frames_read * nBlockAlign f))) by nia.
  match goal with |- context [ToMonoFloat _ (Some ?raw) _] =>
    destruct (ToMonoFloat_ok f raw frames_read ltac:(lia) Hfr) as (mono & -> & Hlen) end.
  rewrite MonoFloatToPcm16Bytes_flat_map, flat_map_pairs_length by done.
  assert (Hne : mono <> []) by (intros ->; cbn in Hlen; lia).
  rewrite Nat2Z.inj_mul, ResampleLinear_size by done.
  unfold size. rewrite Hlen, Z2Nat.id by lia. done.
Qed.

Lemma packet_pcm16_length_witness :
  Z.of_nat (length (packet_pcm16
                      (Some (mkWAVEFORMATEX WAVE_FORMAT_PCM 1 16000 32000 2 16 0
                               KSDATAFORMAT_SUBTYPE_PCM))
                      [0; 0x40; 0; 0xC0; 1; 0] 3 0)) = 2 * 3.
Proof.
  apply (packet_pcm16_length
           (mkWAVEFORMATEX WAVE_FORMAT_PCM 1 16000 32000 2 16 0 KSDATAFORMAT_SUBTYPE_PCM)
           [0; 0x40; 0; 0xC0; 1; 0] 3 0); cbn; lia.
Defined.

Section EncoderRoundTrip.

Lemma flat_map_pairs_lookup {A} (f g : A -> Z) (l : list A) (i : nat) (x : A) :
  l !! i = Some x ->
  flat_map (fun x => [f x; g x]) l !! (2 * i)%nat = Some (f x) /\
  flat_map (fun x => [f x; g x]) l !! (2 * i + 1)%nat = Some (g x).
Proof.
  revert i. induction l as [|y l IH]; intros i Hi; [done|].
  destruct i as [|i].
  - cbn in Hi. injection Hi as ->. done.
  - cbn in Hi. destruct (IH i Hi) as [H1 H2].
    replace (2 * S i)%nat with (S (S (2 * i))) by lia.
    replace (S (S (2 * i)) + 1)%nat with (S (S (2 * i + 1))) by lia.
    cbn [flat_map app lookup list_lookup]. done.
Qed.

Lemma lor_low_high (lo hi : Z) :
  0 <= lo < 256 -> Z.lor lo (Z.shiftl hi 8) = lo + 256 * hi.
Proof.
  intros Hlo. rewrite <- Z.lxor_lor, <- Z.add_nocarry_lxor, Z.shiftl_mul_pow2 by
    first [lia | (apply Z.bits_inj'; intros n Hn; rewrite Z.land_spec, Z.bits_0;
                  destruct (Z.lt_ge_cases n 8);
                  [rewrite (Z.shiftl_spec_low hi 8 n) by lia; apply andb_false_r
                  |replace lo with (lo mod 2 ^ 8) by (apply Z.mod_small; lia);
                   rewrite Z.mod_pow2_bits_high by lia; done])].
  lia.
Qed.

Lemma wrap16_mod (s : Z) : -32768 <= s <= 32767 -> wrap16 (s mod 65536) = s.
Proof.
  intros Hs. unfold wrap16. rewrite Zplus_mod_idemp_l.
  rewrite Z.mod_small by lia. lia.
Qed.

End EncoderRoundTrip.

(** X8: the bytes the encoder writes are bytes, and read back as the
    normalizer reads 16-bit PCM (two bytes, least significant first,
    two's complement) they give the quantised value of each sample. *)
Theorem MonoFloatToPcm16Bytes_decodes (inMono : list float) :
  Forall (fun b => 0 <= b < 256) (MonoFloatToPcm16Bytes inMono) /\
  (forall (i : nat) (v : float),
     inMono !! i = Some v -> valid_binary 24 128 v = true ->
     int16_at (MonoFloatToPcm16Bytes inMono) (Z.of_nat i) = FloatToPcm16 v).
Proof.
  rewrite MonoFloatToPcm16Bytes_flat_map. split.
  - induction inMono as [|v l IH]; [constructor|]. cbn [flat_map pcm16_bytes app].
    destruct (pcm16_bytes_little_endian (FloatToPcm16 v)) as (_ & H1 & H2).
    apply Forall_cons; split; [done|]. apply Forall_cons; split; [done|]. exact IH.
  - intros i v Hi Hv. unfold int16_at, byte_at, pcm16_bytes.
    destruct (flat_map_pairs_lookup
                (fun v => Z.land (FloatToPcm16 v) 0xFF)
                (fun v => Z.land (Z.shiftr (FloatToPcm16 v) 8) 0xFF) inMono i v Hi) as [H1 H2].
    replace (Z.to_nat (2 * Z.of_nat i)) with (2 * i)%nat by lia.
    replace (Z.to_nat (2 * Z.of_nat i + 1)) with (2 * i + 1)%nat by lia.
    rewrite H1, H2. cbn [default from_option id].
    destruct (pcm16_bytes_little_endian (FloatToPcm16 v)) as (Hsum & Hlo & _).
    rewrite lor_low_high by done. rewrite Hsum.
    apply wrap16_mod. pose proof (FloatToPcm16_range v Hv). lia.
Qed.

Lemma MonoFloatToPcm16Bytes_decodes_witness :
  int16_at (MonoFloatToPcm16Bytes [f32_half; f32_minus_one]) (Z.of_nat 1)
  = FloatToPcm16 f32_minus_one.
Proof.
  apply (proj2 (MonoFloatToPcm16Bytes_decodes [f32_half; f32_minus_one]) 1%nat);
    reflexivity.
Defined.

(** X9: encoding is per sample: the bytes of two sequences in a row are
    the bytes of the first followed by the bytes of the second, so
    packets encoded one by one give the bytes of the whole stream. *)
Theorem MonoFloatToPcm16Bytes_app (a b : list float) :
  MonoFloatToPcm16Bytes (a ++ b) = MonoFloatToPcm16Bytes a ++ MonoFloatToPcm16Bytes b.
Proof. rewrite !MonoFloatToPcm16Bytes_flat_map. apply flat_map_app. Qed.

(** X10: a sample above 1.0 (plus infinity included) encodes as 32767, a
    sample below -1.0 (minus infinity included) as -32767; clamping twice
    is clamping once, and the encoder gives a sample and its clamped value
    the same code. *)
Theorem FloatToPcm16_saturates (v : float) :
  (f32_ltb f32_one v = true -> FloatToPcm16 v = 32767) /\
  (f32_ltb v f32_minus_one = true -> FloatToPcm16 v = -32767) /\
  ClampFloat (ClampFloat v) = ClampFloat v /\
  FloatToPcm16 (ClampFloat v) = FloatToPcm16 v.
Proof.
  assert (Hidem : ClampFloat (ClampFloat v) = ClampFloat v).
  { destruct (ClampFloat_range v) as [Hlo Hhi].
    unfold ClampFloat at 1. by rewrite Hlo, Hhi. }
  split; [|split; [|split]].
  - intros Hhi. unfold FloatToPcm16, ClampFloat. rewrite Hhi.
    destruct v as [s|s| |s m e]; try destruct s; try done.
  - intros Hlo. unfold FloatToPcm16, ClampFloat. by rewrite Hlo.
  - done.
  - unfold FloatToPcm16. by rewrite Hidem.
Qed.

Lemma FloatToPcm16_saturates_witness :
  FloatToPcm16 (S754_infinity false) = 32767 /\ FloatToPcm16 (S754_infinity true) = -32767.
Proof.
  split.
  - apply (proj1 (FloatToPcm16_saturates (S754_infinity false))). reflexivity.
  - apply (proj1 (proj2 (FloatToPcm16_saturates (S754_infinity true)))). reflexivity.
Defined.

Lemma format_tests_exclusive (f : WAVEFORMATEX) :
  IsFloatFormat (Some f) && IsPcm16Format (Some f) = false.
Proof.
  unfold IsFloatFormat, IsPcm16Format.
  destruct (Z.eqb_spec (wBitsPerSample f) 32) as [H32|H32];
    destruct (Z.eqb_spec (wBitsPerSample f) 16) as [H16|H16]; try lia;
    rewrite ?andb_false_r, ?andb_true_r;
    repeat (match goal with |- context [if ?b then _ else _] => destruct b end);
    rewrite ?andb_false_r, ?andb_true_r, ?andb_false_l; done.
Qed.

(** X11: no descriptor is both a 32-bit float and a 16-bit PCM format, and
    a null descriptor is neither. *)
Theorem formats_exclusive (fmt : option WAVEFORMATEX) :
  IsFloatFormat fmt && IsPcm16Format fmt = false /\
  IsFloatFormat None = false /\ IsPcm16Format None = false.
Proof.
  split; [|done]. destruct fmt as [f|]; [|done]. apply format_tests_exclusive.
Qed.

(** X12: [ToMonoFloat] succeeds exactly when the descriptor and the input
    are not null, there is at least one frame and the descriptor has at
    least one channel; when it fails the output is empty. *)
Theorem ToMonoFloat_succeeds_iff (fmt : option WAVEFORMATEX) (input : option (list Z))
    (frames : Z) :
  ((ToMonoFloat fmt input frames).1 = true <->
   exists f inp, fmt = Some f /\ input = Some inp /\ frames <> 0 /\ nChannels f <> 0) /\
  ((ToMonoFloat fmt input frames).1 = false -> (ToMonoFloat fmt input frames).2 = []).
Proof.
  unfold ToMonoFloat. destruct fmt as [f|], input as [inp|];
    try (split; [split; [done|intros (? & ? & ? & ? & _); done]|done]).
  destruct (Z.eqb_spec frames 0) as [Hf|Hf];
    [split; [split; [done|intros (? & ? & _ & _ & ? & _); done]|done]|].
  destruct (Z.eqb_spec (nChannels f) 0) as [Hc|Hc];
    [split; [split; [done|intros (? & ? & [= <-] & _ & _ & ?); done]|done]|].
  destruct (IsFloatFormat (Some f)); [|destruct (IsPcm16Format (Some f))];
    (split; [split; [intros _; by exists f, inp|done]|done]).
Qed.

Section ChannelSum.

Lemma wrap16_range (n : Z) : -32768 <= wrap16 n <= 32767.
Proof. unfold wrap16. pose proof (Z.mod_pos_bound (n + 32768) 65536 ltac:(lia)). lia. Qed.

Lemma int16_sum_bound (input : list Z) (i channels : Z) (chs : list nat) (acc : Z) :
  let sum := foldl (fun sum ch =>
                      sum + int16_at input (sample_index i channels (Z.of_nat ch))) acc chs in
  acc - 32768 * Z.of_nat (length chs) <= sum <= acc + 32767 * Z.of_nat (length chs).
Proof.
  revert acc. induction chs as [|ch chs IH]; intros acc; cbn [foldl length]; [lia|].
  specialize (IH (acc + int16_at input (sample_index i channels (Z.of_nat ch)))).
  cbv zeta in IH.
  pose proof (wrap16_range
    (Z.lor (byte_at input (2 * sample_index i channels (Z.of_nat ch)))
       (Z.shiftl (byte_at input (2 * sample_index i channels (Z.of_nat ch) + 1)) 8))) as Hr.
  fold (int16_at input (sample_index i channels (Z.of_nat ch))) in Hr. lia.
Qed.

End ChannelSum.

(** X13: the [int32_t] accumulator of the 16-bit channel loop cannot
    overflow: with a channel count that fits [uint16_t], the sum after
    any number of channels of a frame lies within the 32-bit range. *)
Theorem sum_int16_fits_int32 (input : list Z) (i channels : Z) (k : nat) :
  0 <= channels <= 65535 -> (k <= Z.to_nat channels)%nat ->
  -2147483648 <=
    foldl (fun sum ch => sum + int16_at input (sample_index i channels (Z.of_nat ch)))
      0 (seq 0 k) <= 2147483647 /\
  -2147483648 <= sum_int16 input i channels <= 2147483647.
Proof.
  intros Hc Hk.
  pose proof (int16_sum_bound input i channels (seq 0 k) 0) as H1.
  pose proof (int16_sum_bound input i channels (seq 0 (Z.to_nat channels)) 0) as H2.
  cbv zeta in H1, H2. rewrite length_seq in H1, H2. unfold sum_int16. lia.
Qed.

Lemma sum_int16_fits_int32_witness :
  -2147483648 <= sum_int16 [0; 0x80; 0; 0x80] 0 2 <= 2147483647.
Proof.
  apply (proj2 (sum_int16_fits_int32 [0; 0x80; 0; 0x80] 0 2 0 ltac:(lia) ltac:(lia))).
Defined.

Section NonZero.

Lemma Zdigits2_pos (m : Z) : 0 < m -> 1 <= Zdigits2 m /\ 2 ^ (Zdigits2 m - 1) <= m.
Proof.
  intros Hm. destruct m as [|p|p]; [lia| |lia]. cbn [Zdigits2].
  pose proof (digits2_pos_bounds p). lia.
Qed.

(** Rounding a positive number whose exponent is not below the smallest
    normal one never gives a zero: the result is a number or an infinity
    of the given sign. *)
Lemma binary_round_aux_nonzero (sx : bool) (mx ex : Z) (lx : location) :
  0 < mx -> -125 <= ex ->
  match binary_round_aux 24 128 sx mx ex lx with
  | S754_finite s _ _ | S754_infinity s => s = sx
  | _ => False
  end.
Proof.
  intros Hmx Hex. unfold binary_round_aux, shr_fexp.
  set (n1 := fexp 24 128 (Zdigits2 mx + ex) - ex).
  pose proof (shr_spec (shr_record_of_loc mx lx) ex n1) as [Hm1 He1];
    [rewrite shr_record_of_loc_m; lia|].
  destruct (shr (shr_record_of_loc mx lx) ex n1) as [mrs1 e1]. cbn [fst snd] in Hm1, He1.
  rewrite shr_record_of_loc_m in Hm1.
  destruct (Zdigits2_pos mx Hmx) as [Hd1 Hlo1].
  assert (Hn1 : Z.max 0 n1 <= Zdigits2 mx - 1) by (subst n1; unfold fexp, emin; lia).
  assert (Hm1pos : 1 <= shr_m mrs1).
  { rewrite Hm1. apply Z.div_le_lower_bound; [apply Z.pow_pos_nonneg; lia|].
    rewrite Z.mul_1_r. etransitivity; [|exact Hlo1]. apply Z.pow_le_mono_r; lia. }
  set (m2 := round_nearest_even (shr_m mrs1) (loc_of_shr_record mrs1)).
  pose proof (round_nearest_even_bounds (shr_m mrs1) (loc_of_shr_record mrs1)) as Hm2.
  fold m2 in Hm2.
  set (n2 := fexp 24 128 (Zdigits2 m2 + e1) - e1).
  pose proof (shr_spec (shr_record_of_loc m2 loc_Exact) e1 n2) as [Hm3 He3]; [cbn; lia|].
  destruct (shr (shr_record_of_loc m2 loc_Exact) e1 n2) as [mrs3 e3].
  cbn [fst snd shr_record_of_loc shr_m] in Hm3, He3.
  destruct (Zdigits2_pos m2 ltac:(lia)) as [Hd2 Hlo2].
  assert (Hn2 : Z.max 0 n2 <= Zdigits2 m2 - 1) by (subst n2; unfold fexp, emin; lia).
  assert (Hm3pos : 1 <= shr_m mrs3).
  { rewrite Hm3. apply Z.div_le_lower_bound; [apply Z.pow_pos_nonneg; lia|].
    rewrite Z.mul_1_r. etransitivity; [|exact Hlo2]. apply Z.pow_le_mono_r; lia. }
  destruct (shr_m mrs3) as [|p|p]; [lia| |lia].
  by destruct (e3 <=? 128 - 24).
Qed.

Lemma f32_of_Z_positive (c : Z) :
  0 < c ->
  match f32_of_Z c with
  | S754_finite s _ _ | S754_infinity s => s = false
  | _ => False
  end.
Proof.
  intros Hc. destruct c as [|p|p]; [lia| |lia].
  unfold f32_of_Z, binary_normalize, binary_round.
  destruct (shl_align p 0 (fexp 24 128 (Zpos (digits2_pos p) + 0))) as [mz ez] eqn:Hshl.
  apply binary_round_aux_nonzero; [lia|].
  unfold shl_align in Hshl.
  destruct (fexp 24 128 (Zpos (digits2_pos p) + 0) - 0) as [|d|d] eqn:Hd;
    injection Hshl as <- <-; unfold fexp, emin in *; lia.
Qed.

Lemma f32_div_zero_positive (c : Z) : 0 < c -> f32_div f32_zero (f32_of_Z c) = f32_zero.
Proof.
  intros Hc. pose proof (f32_of_Z_positive c Hc) as H.
  destruct (f32_of_Z c) as [s|s| |s m e]; try done; by subst s.
Qed.

End NonZero.

Section Silence.

Lemma byte_at_zeros (n : nat) (k : Z) : byte_at (replicate n 0) k = 0.
Proof.
  unfold byte_at. destruct (replicate n 0 !! Z.to_nat k) as [b|] eqn:Hb; [|done].
  apply lookup_replicate in Hb as [-> _]. done.
Qed.

Lemma float_at_zeros (n : nat) (k : Z) : float_at (replicate n 0) k = f32_zero.
Proof. unfold float_at. by rewrite !byte_at_zeros. Qed.

Lemma int16_at_zeros (n : nat) (k : Z) : int16_at (replicate n 0) k = 0.
Proof. unfold int16_at. by rewrite !byte_at_zeros. Qed.

Lemma sum_float_zeros (n : nat) (i channels : Z) :
  sum_float (replicate n 0) i channels = f32_zero.
Proof.
  unfold sum_float. generalize (seq 0 (Z.to_nat channels)) as chs.
  induction chs as [|ch chs IH]; [done|]. cbn [foldl]. by rewrite float_at_zeros.
Qed.

Lemma sum_int16_zeros (n : nat) (i channels : Z) :
  sum_int16 (replicate n 0) i channels = 0.
Proof.
  unfold sum_int16. generalize (seq 0 (Z.to_nat channels)) as chs.
  induction chs as [|ch chs IH]; [done|]. cbn [foldl]. by rewrite int16_at_zeros.
Qed.

Lemma foldl_same {A B} (f g : A -> B -> A) (l : list B) (a : A) :
  (forall a b, f a b = g a b) -> foldl f a l = foldl g a l.
Proof.
  intros Hfg. revert a. induction l as [|b l IH]; intros a; cbn [foldl]; [done|].
  by rewrite Hfg, IH.
Qed.

Lemma fmap_const_seq {A} (x : A) (start n : nat) :
  (fun _ => x) <$> seq start n = replicate n x.
Proof. revert start. induction n as [|n IH]; intros start; cbn; [done|]. by rewrite IH. Qed.

Lemma foldl_insert_const {A} (x d : A) (n : nat) :
  foldl (fun out i => <[i := x]> out) (replicate n d) (seq 0 n) = replicate n x.
Proof. rewrite (foldl_insert_all (fun _ => x)). apply fmap_const_seq. Qed.

End Silence.

Lemma ToMonoFloat_zero_bytes (f : WAVEFORMATEX) (n : nat) (frames : Z) :
  1 <= nChannels f -> 1 <= frames ->
  ToMonoFloat (Some f) (Some (replicate n 0)) frames
  = (true, replicate (Z.to_nat frames) f32_zero).
Proof.
  intros Hc Hf. unfold ToMonoFloat.
  rewrite (proj2 (Z.eqb_neq frames 0)), (proj2 (Z.eqb_neq (nChannels f) 0)) by lia.
  destruct (IsFloatFormat (Some f)); [|destruct (IsPcm16Format (Some f))].
  - f_equal. etransitivity; [|apply (foldl_insert_const f32_zero f32_zero)].
    apply foldl_same. intros out i.
    by rewrite sum_float_zeros, f32_div_zero_positive by lia.
  - f_equal. etransitivity; [|apply (foldl_insert_const f32_zero f32_zero)].
    apply foldl_same. intros out i. rewrite sum_int16_zeros.
    change (f32_of_Z 0) with f32_zero. by rewrite f32_div_zero_positive by lia.
  - by rewrite length_replicate.
Qed.

Section SessionInvariant.

Lemma session_ok_new : session_ok new_World.
Proof.
  unfold session_ok, new_World. cbn. repeat split; try done.
  intros t Ht. by apply elem_of_nil in Ht.
Qed.

Lemma filter_fresh (t : nat) (l : list nat) :
  (forall u, u ∈ l -> (u < t)%nat) -> filter (fun u => u <> t) l = l.
Proof.
  induction l as [|u l IH]; intros Hl; [done|].
  rewrite filter_cons_True.
  - rewrite IH; [done|]. intros v Hv. apply Hl. by right.
  - specialize (Hl u ltac:(by left)). lia.
Qed.

Ltac init_failed :=
  eexists; eexists; (split; [reflexivity|]); cbn; repeat split; auto; done.

Lemma ensure_initialized_session (dev : Device) (w : World) :
  session_ok w ->
  exists b w1,
    ensure_initialized dev w = Some (b, w1) /\
    session_ok w1 /\
    is_initialized_ (obj w1) = is_initialized_ (obj w) || b /\
    (b = false -> is_initialized_ (obj w) = false) /\
    is_capturing_ (obj w1) = is_capturing_ (obj w) /\
    capture_thread_ (obj w1) = capture_thread_ (obj w) /\
    audio_bytes_ (obj w1) = audio_bytes_ (obj w) /\
    running w1 = running w /\
    next_thread w1 = next_thread w.
Proof.
  destruct w as [[cap ini de ld ac cc cf ae th ab] run nt evs].
  destruct dev as [d1 d2 d3 d4 mf d5 d6 d7 d8 d9].
  unfold session_ok. cbn. intros (Hini & Hcap & Hth & Hrun).
  destruct ini.
  - exists true. eexists. split; [reflexivity|]. cbn. repeat split; auto; try (by apply Hini).
    all: try (intros; by apply Hcap).
  - assert (cap = false) as -> by (destruct cap; [by destruct Hcap|done]).
    run_session. cbn.
    destruct d1; cbn; [|init_failed].
    destruct d2; cbn; [|init_failed].
    destruct d3; cbn; [|init_failed].
    destruct d4; cbn; [|init_failed].
    destruct mf; cbn; [|init_failed].
    destruct d5; cbn; [|init_failed].
    destruct ae; cbn; (destruct d7; cbn; [|init_failed]); (destruct d8; cbn; [|init_failed]);
      init_failed.
Qed.

Lemma StartSystemAudio_session (dev : Device) (w : World) :
  session_ok w ->
  exists ok w',
    StartSystemAudio dev w = Some (ok, w') /\
    session_ok w' /\
    is_capturing_ (obj w') = ok /\
    (ok = true -> running w' = running w ++ [next_thread w] /\
                  capture_thread_ (obj w') = Some (next_thread w)) /\
    (ok = false -> running w' = running w /\ capture_thread_ (obj w') = None) /\
    audio_bytes_ (obj w') = audio_bytes_ (obj w).
Proof.
  intros Hok.
  destruct (ensure_initialized_session dev w Hok)
    as (b & w1 & Hens & Hok1 & Hini1 & Hb & Hcap1 & Hth1 & Hab1 & Hrun1 & Hnt1).
  destruct Hok as (Hi0 & Hc0 & Ht0 & Hr0).
  destruct b; [destruct (audio_event_ (obj w1)) eqn:Hev|].
  - pose proof (StartSystemAudio_after_init dev w w1 Hens Hev) as Hstart.
    cbv zeta in Hstart. rewrite orb_true_r in Hini1.
    destruct Hok1 as (Hi1 & Hc1 & Ht1 & Hr1).
    destruct (start_ok dev) eqn:Hdev; eexists; eexists; (split; [exact Hstart|]).
    + unfold session_ok. cbn [obj running next_thread]. rewrite <- Hrun1, <- Hnt1, <- Hab1.
      destruct (obj w1) as [cap ini de ld ac cc cf ae th ab] eqn:Hobj. cbn in *.
      subst. repeat split; auto; try (by apply Hi1); try done.
      * exists (next_thread w1). split; [done|]. apply elem_of_app. right.
        by apply list_elem_of_singleton.
      * intros t [Ht| ->%list_elem_of_singleton]%elem_of_app; [|lia].
        specialize (Hr1 t Ht). lia.
    + assert (Hfil : filter (fun u => u <> next_thread w1) (running w1 ++ [next_thread w1])
                     = running w1).
      { rewrite filter_app, filter_cons_False, filter_nil, app_nil_r by (intros ?; done).
        by apply filter_fresh. }
      rewrite Hfil.
      unfold session_ok. cbn [obj running next_thread]. rewrite <- Hrun1, <- Hab1.
      destruct (obj w1) as [cap ini de ld ac cc cf ae th ab] eqn:Hobj. cbn in *.
      subst. repeat split; auto; try (by apply Hi1); try done.
      intros t Ht. specialize (Hr1 t Ht). lia.
  - exists false, w1. split.
    { unfold StartSystemAudio, bind at 1. rewrite Hens. cbn [negb].
      unfold bind, this. by rewrite Hev. }
    assert (Hnc : is_capturing_ (obj w) = false).
    { destruct (is_capturing_ (obj w)) eqn:Hc; [|done]. exfalso.
      destruct (Hc0 eq_refl) as (Hi & He & _).
      destruct (ensure_initialized_cases dev w) as (b' & w1' & Hens' & _ & _ & _ & _ & Hsame).
      rewrite Hens in Hens'. injection Hens' as <- <-.
      destruct (Hsame Hi) as [_ ->]. congruence. }
    split; [done|]. split; [congruence|]. split; [done|].
    split; [intros _; split; [done|]; rewrite Hth1; by apply Ht0|done].
  - exists false, w1. split.
    { unfold StartSystemAudio, bind at 1. by rewrite Hens. }
    assert (Hnc : is_capturing_ (obj w) = false).
    { destruct (is_capturing_ (obj w)) eqn:Hc; [|done]. exfalso.
      destruct (Hc0 eq_refl) as (Hi & _). rewrite (Hb eq_refl) in Hi. done. }
    split; [done|]. split; [congruence|]. split; [done|].
    split; [intros _; split; [done|]; rewrite Hth1; by apply Ht0|done].
Qed.

Lemma StopSystemAudio_session (w : World) :
  session_ok w ->
  exists w',
    StopSystemAudio w = Some (tt, w') /\
    session_ok w' /\
    is_capturing_ (obj w') = false /\
    capture_thread_ (obj w') = None /\
    running w' = match capture_thread_ (obj w) with
                 | Some t => filter (fun u => u <> t) (running w)
                 | None => running w
                 end /\
    audio_bytes_ (obj w') = audio_bytes_ (obj w).
Proof.
  destruct w as [[cap ini de ld ac cc cf ae th ab] run nt evs].
  unfold session_ok. cbn. intros (Hi & Hc & Ht & Hr).
  destruct cap.
  - destruct (Hc eq_refl) as (-> & -> & t & -> & Hrun).
    run_session. destruct ac; cbn; eexists; (split; [reflexivity|]); cbn;
      repeat split; auto; try (by apply Hi); try done;
      try (intros u [_ Hu]%list_elem_of_filter; by apply Hr).
  - rewrite (Ht eq_refl). run_session. cbn. eexists. split; [reflexivity|]. cbn.
    repeat split; auto; try done; by apply Hi.
Qed.

Lemma do_calls_session (cs : list call) (w : World) :
  session_ok w -> exists w', do_calls cs w = Some (tt, w') /\ session_ok w'.
Proof.
  revert w. induction cs as [|c cs IH]; intros w Hok; [by exists w|].
  cbn [do_calls]. unfold bind at 1. destruct c as [dev|]; cbn [do_call].
  - destruct (StartSystemAudio_session dev w Hok) as (ok & w1 & Hs & Hok1 & _).
    unfold bind at 1. rewrite Hs. cbn. by apply IH.
  - destruct (StopSystemAudio_session w Hok) as (w1 & Hs & Hok1 & _).
    rewrite Hs. by apply IH.
Qed.

Ltac start_decided := eexists; (split; [reflexivity|]); done.

Lemma StartSystemAudio_new_cases (dev : Device) :
  exists w',
    StartSystemAudio dev new_World = Some (device_works dev, w') /\
    is_capturing_ (obj w') = device_works dev /\
    is_initialized_ (obj w') =
      (create_enumerator_ok dev && default_endpoint_ok dev && activate_ok dev &&
       get_mix_format_ok dev && bool_decide (mix_format dev <> None) &&
       initialize_ok dev && set_event_handle_ok dev && get_service_ok dev).
Proof.
  destruct dev as [d1 d2 d3 d4 mf d5 d6 d7 d8 d9]. unfold device_works, new_World. cbn.
  run_session. cbn.
  destruct d1; cbn; [|start_decided].
  destruct d2; cbn; [|start_decided].
  destruct d3; cbn; [|start_decided].
  destruct d4; cbn; [|start_decided].
  destruct mf; cbn; [|start_decided].
  destruct d5; cbn; [|start_decided].
  destruct d6; cbn; (destruct d7; cbn; [|start_decided]); (destruct d8; cbn; [|start_decided]);
    [|start_decided].
  destruct d9; cbn; start_decided.
Qed.

End SessionInvariant.

(** X14: after any sequence of start and stop calls on a new object, on
    any devices, every call has returned and the fields agree: a
    capturing session is initialised, holds its event, and its
    [capture_thread_] points to a running thread; an initialised session
    holds the enumerator, the endpoint, both clients and the format; a
    session that is not capturing has a null [capture_thread_]. *)
Theorem calls_keep_session_consistent (cs : list call) :
  exists w,
    do_calls cs new_World = Some (tt, w) /\
    (is_capturing_ (obj w) = true ->
     is_initialized_ (obj w) = true /\ audio_event_ (obj w) = true /\
     exists t, capture_thread_ (obj w) = Some t /\ t ∈ running w) /\
    (is_initialized_ (obj w) = true ->
     device_enumerator_ (obj w) = true /\ loopback_device_ (obj w) = true /\
     audio_client_ (obj w) = true /\ capture_client_ (obj w) = true /\
     capture_format_ (obj w) <> None) /\
    (is_capturing_ (obj w) = false -> capture_thread_ (obj w) = None).
Proof.
  destruct (do_calls_session cs new_World session_ok_new) as (w & Hrun & Hi & Hc & Ht & _).
  exists w. done.
Qed.

(** X15: in every state a new object reaches by start and stop calls,
    [StartSystemAudio] returns, its result is the value of
    [is_capturing_] afterwards, a [false] result leaves
    [capture_thread_] null, and the queue is not touched. *)
Theorem StartSystemAudio_result_is_flag (cs : list call) (dev : Device) :
  exists w ok w',
    do_calls cs new_World = Some (tt, w) /\
    StartSystemAudio dev w = Some (ok, w') /\
    is_capturing_ (obj w') = ok /\
    (ok = false -> capture_thread_ (obj w') = None) /\
    audio_bytes_ (obj w') = audio_bytes_ (obj w).
Proof.
  destruct (do_calls_session cs new_World session_ok_new) as (w & Hrun & Hok).
  destruct (StartSystemAudio_session dev w Hok) as (ok & w' & Hs & _ & Hflag & _ & Hf & Hq).
  exists w, ok, w'. repeat split; try done. intros Hk. by apply Hf.
Qed.

Lemma separated_calls_no_stray (cs : list call) (w : World) :
  session_ok w -> no_stray_thread w -> starts_separated cs = true ->
  (is_capturing_ (obj w) = true -> match cs with CallStart _ :: _ => False | _ => True end) ->
  exists w', do_calls cs w = Some (tt, w') /\ session_ok w' /\ no_stray_thread w'.
Proof.
  revert w. induction cs as [|c cs IH]; intros w Hok Hns Hsep Hhead; [by exists w|].
  cbn [do_calls]. unfold bind at 1. destruct c as [dev|]; cbn [do_call].
  - destruct (is_capturing_ (obj w)) eqn:Hcap; [by destruct (Hhead eq_refl)|].
    destruct (StartSystemAudio_session dev w Hok)
      as (ok & w1 & Hs & Hok1 & Hflag & Ht & Hf & _).
    unfold bind at 1. rewrite Hs. cbn [ret].
    assert (Hth : capture_thread_ (obj w) = None) by (by apply Hok).
    unfold no_stray_thread in Hns. rewrite Hth in Hns.
    apply IH; [done| | |].
    + unfold no_stray_thread. destruct ok.
      * destruct (Ht eq_refl) as [-> ->]. by rewrite Hns.
      * destruct (Hf eq_refl) as [-> ->]. done.
    + cbn in Hsep. by destruct cs as [|[|] ?].
    + intros _. cbn in Hsep. by destruct cs as [|[|] ?].
  - destruct (StopSystemAudio_session w Hok) as (w1 & Hs & Hok1 & Hc1 & Ht1 & Hr1 & _).
    rewrite Hs. apply IH; [done| |done|congruence].
    unfold no_stray_thread in *. rewrite Ht1, Hr1, Hns.
    destruct (capture_thread_ (obj w)) as [t|]; [|done].
    by rewrite filter_cons_False, filter_nil by (intros ?; done).
Qed.

(** X16: when a stop separates any two starts, the calls on a new object
    leave no thread behind: the only thread that runs is the one
    [capture_thread_] points to, and after a final [StopSystemAudio]
    none runs. *)
Theorem separated_starts_leak_no_thread (cs : list call) :
  starts_separated cs = true ->
  exists w w',
    do_calls cs new_World = Some (tt, w) /\
    running w = match capture_thread_ (obj w) with Some t => [t] | None => [] end /\
    StopSystemAudio w = Some (tt, w') /\
    running w' = [] /\ capture_thread_ (obj w') = None.
Proof.
  intros Hsep.
  destruct (separated_calls_no_stray cs new_World session_ok_new eq_refl Hsep)
    as (w & Hrun & Hok & Hns); [done|].
  destruct (StopSystemAudio_session w Hok) as (w' & Hs & _ & _ & Ht & Hr & _).
  exists w, w'. repeat split; try done.
  rewrite Hr. unfold no_stray_thread in Hns. rewrite Hns.
  destruct (capture_thread_ (obj w)) as [t|]; [|done].
  by rewrite filter_cons_False, filter_nil by (intros ?; done).
Qed.

Lemma separated_starts_leak_no_thread_witness :
  exists w w',
    do_calls [CallStart (device_ok stereo_float_48k); CallStop;
              CallStart (device_start_fails stereo_float_48k); CallStop;
              CallStart (device_ok stereo_float_48k)] new_World = Some (tt, w) /\
    running w = match capture_thread_ (obj w) with Some t => [t] | None => [] end /\
    StopSystemAudio w = Some (tt, w') /\
    running w' = [] /\ capture_thread_ (obj w') = None.
Proof. apply separated_starts_leak_no_thread. reflexivity. Defined.

Lemma destroy_AudioCapture_session (w : World) :
  session_ok w ->
  exists w',
    destroy_AudioCapture w = Some (tt, w') /\
    obj w' = mkAudioCapture false (is_initialized_ (obj w)) false false false false None
               false None (audio_bytes_ (obj w)) /\
    running w' = match capture_thread_ (obj w) with
                 | Some t => filter (fun u => u <> t) (running w)
                 | None => running w
                 end.
Proof.
  intros Hok.
  destruct (StopSystemAudio_session w Hok) as (w1 & Hs & Hok1 & Hc1 & Ht1 & Hr1 & Hq1).
  assert (Hi1 : is_initialized_ (obj w1) = is_initialized_ (obj w)).
  { destruct (StopSystemAudio_cases w) as (w2 & Hs2 & Hini & _). rewrite Hs in Hs2.
    by injection Hs2 as <-. }
  unfold destroy_AudioCapture, bind at 1. rewrite Hs.
  unfold CleanupWASAPI, bind at 1.
  rewrite (StopSystemAudio_idle w1 Hc1).
  destruct w1 as [[cap ini de ld ac cc cf ae th ab] run nt evs]. cbn in *. subst.
  eexists. split; [reflexivity|]. done.
Qed.

(** X17: in every state a new object reaches by start and stop calls, the
    destructor returns; it leaves the object not capturing with every
    pointer and handle null, and joins the thread [capture_thread_]
    pointed to: the threads still running afterwards are those the
    object had lost track of. *)
Theorem destructor_releases_session (cs : list call) :
  exists w w',
    do_calls cs new_World = Some (tt, w) /\
    destroy_AudioCapture w = Some (tt, w') /\
    is_capturing_ (obj w') = false /\
    device_enumerator_ (obj w') = false /\ loopback_device_ (obj w') = false /\
    audio_client_ (obj w') = false /\ capture_client_ (obj w') = false /\
    capture_format_ (obj w') = None /\ audio_event_ (obj w') = false /\
    capture_thread_ (obj w') = None /\
    running w' = match capture_thread_ (obj w) with
                 | Some t => filter (fun u => u <> t) (running w)
                 | None => running w
                 end.
Proof.
  destruct (do_calls_session cs new_World session_ok_new) as (w & Hrun & Hok).
  destruct (destroy_AudioCapture_session w Hok) as (w' & Hd & Hobj & Hr).
  exists w, w'. rewrite Hobj. done.
Qed.

(** X18: on a new object [StartSystemAudio] returns [true] exactly when
    every call of the device succeeds and the mix format is there; the
    object is capturing afterwards exactly in that case, and it is
    initialised exactly when the calls of [InitializeWASAPI] other than
    [CreateEvent] succeeded. *)
Theorem StartSystemAudio_new_succeeds_iff (dev : Device) :
  exists ok w',
    StartSystemAudio dev new_World = Some (ok, w') /\
    (ok = true <->
     create_enumerator_ok dev = true /\ default_endpoint_ok dev = true /\
     activate_ok dev = true /\ get_mix_format_ok dev = true /\ mix_format dev <> None /\
     initialize_ok dev = true /\ create_event_ok dev = true /\
     set_event_handle_ok dev = true /\ get_service_ok dev = true /\ start_ok dev = true) /\
    is_capturing_ (obj w') = ok /\
    (is_initialized_ (obj w') = true <->
     create_enumerator_ok dev = true /\ default_endpoint_ok dev = true /\
     activate_ok dev = true /\ get_mix_format_ok dev = true /\ mix_format dev <> None /\
     initialize_ok dev = true /\ set_event_handle_ok dev = true /\ get_service_ok dev = true).
Proof.
  destruct (StartSystemAudio_new_cases dev) as (w' & Hs & Hc & Hi).
  exists (device_works dev), w'. split; [done|]. split; [|split; [done|]].
  - unfold device_works. rewrite !andb_true_iff, bool_decide_eq_true. tauto.
  - rewrite Hi, !andb_true_iff, bool_decide_eq_true. tauto.
Qed.

Lemma start_without_event (dev : Device) (w : World) :
  is_initialized_ (obj w) = true -> audio_event_ (obj w) = false ->
  StartSystemAudio dev w = Some (false, w).
Proof.
  intros Hi He. run_session. rewrite Hi. cbn. by rewrite He.
Qed.

(** X19: a session that is initialised without an event handle (its
    [CreateEvent] gave none, the later device calls succeeded) never
    captures: every later start returns [false], and every sequence of
    calls leaves the session as it is, on any devices. *)
Theorem session_without_event_never_starts (cs : list call) (dev : Device) (w : World) :
  is_initialized_ (obj w) = true -> audio_event_ (obj w) = false ->
  is_capturing_ (obj w) = false ->
  do_calls cs w = Some (tt, w) /\ StartSystemAudio dev w = Some (false, w).
Proof.
  intros Hi He Hc. split; [|by apply start_without_event].
  induction cs as [|[dev'|] cs IH]; [done| |].
  - cbn [do_calls do_call]. unfold bind at 1 2.
    by rewrite (start_without_event dev' w Hi He).
  - cbn [do_calls do_call]. unfold bind at 1. by rewrite (StopSystemAudio_idle w Hc).
Qed.

Lemma session_without_event_never_starts_witness :
  StartSystemAudio (device_without_event stereo_float_48k) new_World
    = Some (false, initialized_without_event) /\
  do_calls [CallStart (device_ok stereo_float_48k); CallStop;
            CallStart (device_ok stereo_float_48k)] initialized_without_event
    = Some (tt, initialized_without_event) /\
  StartSystemAudio (device_ok stereo_float_48k) initialized_without_event
    = Some (false, initialized_without_event).
Proof.
  split; [reflexivity|].
  apply session_without_event_never_starts; reflexivity.
Defined.

Lemma pull_frame_take_drop (k : Z) (w : World) :
  1 <= k ->
  pull_frame k w =
    Some (take (Z.to_nat k) (audio_bytes_ (obj w)),
          mkWorld (set_audio_bytes (drop (Z.to_nat k) (audio_bytes_ (obj w))) (obj w))
            (running w) (next_thread w) (events w)).
Proof.
  intros Hk. unfold pull_frame, bind, this, update, ret. cbn [obj running next_thread events].
  rewrite GetSystemAudioFrame_take_drop. cbn [fst snd].
  destruct (Z.le_ge_cases k (Z.of_nat (length (audio_bytes_ (obj w))))) as [Hle|Hge].
  - by rewrite Z.min_l by done.
  - rewrite Z.min_r, Nat2Z.id by done.
    by rewrite !take_ge, !drop_ge by lia.
Qed.

Lemma requested_length_int32 (arguments : option EncodableValue) (n : Z) :
  arguments = Some (EncInt32 n) \/
  (exists m, arguments = Some (EncMap m) /\ find_length m = Some (EncInt32 n)) ->
  requested_length arguments = if n mod 2 ^ 64 =? 0 then 1280 else n mod 2 ^ 64.
Proof.
  intros [->|(m & -> & Hm)]; unfold requested_length; [done|]. by rewrite Hm.
Qed.

(** X20: asked for [n] bytes with [0 < n < 2^31], as an integer or as a
    map whose entry "length" is an integer, the handler answers the
    oldest [min n size] bytes of the queue, leaves the rest queued and
    changes nothing else of the session. *)
Theorem getSystemAudioFrame_request (dev : Device) (arguments : option EncodableValue)
    (n : Z) (w : World) :
  arguments = Some (EncInt32 n) \/
  (exists m, arguments = Some (EncMap m) /\ find_length m = Some (EncInt32 n)) ->
  0 < n < 2 ^ 31 ->
  handle_method_call dev "getSystemAudioFrame" arguments (Some w) =
    Some (Success (EncBytes (take (Z.to_nat n) (audio_bytes_ (obj w)))),
          Some (mkWorld (set_audio_bytes (drop (Z.to_nat n) (audio_bytes_ (obj w))) (obj w))
                  (running w) (next_thread w) (events w))).
Proof.
  intros Harg Hn. unfold handle_method_call. cbn [String.eqb Ascii.eqb Bool.eqb].
  rewrite (requested_length_int32 arguments n Harg).
  rewrite Z.mod_small by lia.
  rewrite (proj2 (Z.eqb_neq n 0)) by lia.
  by rewrite pull_frame_take_drop by lia.
Qed.

Lemma getSystemAudioFrame_request_witness :
  handle_method_call (device_ok stereo_float_48k) "getSystemAudioFrame"
    (Some (EncMap (MapEntry (EncString "rate") (EncInt32 16000)
                    (MapEntry (EncString "length") (EncInt32 2) MapEnd))))
    (Some (mkWorld (set_audio_bytes [1; 2; 3] new_AudioCapture) [] 0 [])) =
  Some (Success (EncBytes [1; 2]),
        Some (mkWorld (set_audio_bytes [3] new_AudioCapture) [] 0 [])).
Proof.
  apply (getSystemAudioFrame_request _ _ 2); [|lia].
  right. eexists. split; reflexivity.
Defined.

(** X21: without a usable length (no argument, an argument that is
    neither an integer nor a map, the integer 0, a map without an
    integer entry "length" or with the entry 0), the handler answers the
    oldest [min 1280 size] bytes of the queue. *)
Theorem getSystemAudioFrame_default (dev : Device) (arguments : option EncodableValue)
    (w : World) :
  arguments = None \/
  arguments = Some (EncInt32 0) \/
  ((forall n, arguments <> Some (EncInt32 n)) /\ (forall m, arguments <> Some (EncMap m))) \/
  (exists m, arguments = Some (EncMap m) /\
             forall n, find_length m = Some (EncInt32 n) -> n = 0) ->
  handle_method_call dev "getSystemAudioFrame" arguments (Some w) =
    Some (Success (EncBytes (take (Z.to_nat 1280) (audio_bytes_ (obj w)))),
          Some (mkWorld (set_audio_bytes (drop (Z.to_nat 1280) (audio_bytes_ (obj w))) (obj w))
                  (running w) (next_thread w) (events w))).
Proof.
  intros Harg. unfold handle_method_call. cbn [String.eqb Ascii.eqb Bool.eqb].
  assert (Hreq : requested_length arguments = 1280).
  { destruct Harg as [->|[->|[[Hi Hm]|(m & -> & Hm)]]]; [done|done| |].
    - unfold requested_length. destruct arguments as [[]|]; try done.
      + by destruct (Hi n). + by destruct (Hm m).
    - unfold requested_length. destruct (find_length m) as [[]|]; try done.
      by rewrite (Hm n eq_refl). }
  rewrite Hreq. by rewrite pull_frame_take_drop by lia.
Qed.

Lemma getSystemAudioFrame_default_witness :
  handle_method_call (device_ok stereo_float_48k) "getSystemAudioFrame"
    (Some (EncString "1"))
    (Some (mkWorld (set_audio_bytes [1; 2; 3] new_AudioCapture) [] 0 [])) =
  Some (Success (EncBytes [1; 2; 3]),
        Some (mkWorld (set_audio_bytes [] new_AudioCapture) [] 0 [])).
Proof.
  apply (getSystemAudioFrame_default _ (Some (EncString "1"))).
  right. right. left. split; intros; discriminate.
Defined.

(** X22: a negative length is converted to [size_t] and becomes a huge
    request: with a queue within its capacity, the handler answers the
    whole queue and leaves it empty. *)
Theorem getSystemAudioFrame_negative_length (dev : Device)
    (arguments : option EncodableValue) (n : Z) (w : World) :
  arguments = Some (EncInt32 n) \/
  (exists m, arguments = Some (EncMap m) /\ find_length m = Some (EncInt32 n)) ->
  - 2 ^ 31 <= n < 0 ->
  Z.of_nat (length (audio_bytes_ (obj w))) <= 64000 ->
  handle_method_call dev "getSystemAudioFrame" arguments (Some w) =
    Some (Success (EncBytes (audio_bytes_ (obj w))),
          Some (mkWorld (set_audio_bytes [] (obj w)) (running w) (next_thread w) (events w))).
Proof.
  intros Harg Hn Hq. unfold handle_method_call. cbn [String.eqb Ascii.eqb Bool.eqb].
  rewrite (requested_length_int32 arguments n Harg).
  assert (Hmod : n mod 2 ^ 64 = 2 ^ 64 + n).
  { symmetry. apply (Z.mod_unique n (2 ^ 64) (-1)); lia. }
  rewrite Hmod, (proj2 (Z.eqb_neq (2 ^ 64 + n) 0)) by lia.
  rewrite pull_frame_take_drop by lia.
  rewrite take_ge, drop_ge by lia. done.
Qed.

Lemma getSystemAudioFrame_negative_length_witness :
  handle_method_call (device_ok stereo_float_48k) "getSystemAudioFrame"
    (Some (EncInt32 (-1)))
    (Some (mkWorld (set_audio_bytes [1; 2; 3] new_AudioCapture) [] 0 [])) =
  Some (Success (EncBytes [1; 2; 3]),
        Some (mkWorld (set_audio_bytes [] new_AudioCapture) [] 0 [])).
Proof.
  apply (getSystemAudioFrame_negative_length _ _ (-1)); [by left|lia|cbn; lia].
Defined.

(** X23: while no object exists, only "startSystemAudio" creates one,
    also when the start fails; "stopSystemAudio" answers success and
    "getSystemAudioFrame" an empty frame without creating it, and any
    other method is answered as not implemented with the object left as
    it is. *)
Theorem handler_creates_object_on_start_only (dev : Device) (method_name : string)
    (arguments : option EncodableValue) :
  exists r g,
    handle_method_call dev method_name arguments None = Some (r, g) /\
    (g <> None <-> method_name = "startSystemAudio"%string) /\
    (method_name = "startSystemAudio"%string -> r = Success (EncBool (device_works dev))) /\
    (method_name = "stopSystemAudio"%string -> r = Success EncNull) /\
    (method_name = "getSystemAudioFrame"%string -> r = Success (EncBytes [])) /\
    (method_name <> "startSystemAudio"%string -> method_name <> "stopSystemAudio"%string ->
     method_name <> "getSystemAudioFrame"%string ->
     r = NotImplemented /\
     forall g0, handle_method_call dev method_name arguments g0 = Some (NotImplemented, g0)).
Proof.
  unfold handle_method_call.
  destruct (String.eqb_spec method_name "startSystemAudio") as [->|Hs].
  - destruct (StartSystemAudio_new_cases dev) as (w' & -> & _).
    eexists; eexists; (split; [reflexivity|]); repeat split; try done.
  - destruct (String.eqb_spec method_name "stopSystemAudio") as [->|Hp].
    + eexists; eexists; (split; [reflexivity|]); repeat split; try done.
    + destruct (String.eqb_spec method_name "getSystemAudioFrame") as [->|Hg].
      * eexists; eexists; (split; [reflexivity|]); repeat split; try done.
      * eexists; eexists; (split; [reflexivity|]); repeat split; try done.
Qed.

Lemma handle_method_call_session (dev : Device) (method_name : string)
    (arguments : option EncodableValue) (g : option World) :
  object_ok g ->
  exists r g',
    handle_method_call dev method_name arguments g = Some (r, g') /\ object_ok g' /\
    (g' = None <-> g = None /\ method_name <> "startSystemAudio"%string).
Proof.
  intros Hg. unfold handle_method_call.
  destruct (String.eqb_spec method_name "startSystemAudio") as [->|Hs].
  - assert (Hw : session_ok (match g with Some w => w | None => new_World end)).
    { destruct g; [done|apply session_ok_new]. }
    destruct (StartSystemAudio_session dev _ Hw) as (ok & w' & -> & Hok & _).
    eexists; eexists; (split; [reflexivity|]). split; [done|]. split; [done|].
    by intros [_ ?].
  - destruct (String.eqb_spec method_name "stopSystemAudio") as [->|Hp].
    + destruct g as [w|].
      * destruct (StopSystemAudio_session w Hg) as (w' & -> & Hok & _).
        eexists; eexists; (split; [reflexivity|]). split; [done|]. split; [done|]. by intros [? _].
      * eexists; eexists; (split; [reflexivity|]). done.
    + destruct (String.eqb_spec method_name "getSystemAudioFrame") as [->|Hg'].
      * destruct g as [w|].
        -- unfold pull_frame, bind, this, update, ret.
           eexists; eexists; (split; [reflexivity|]). split; [|split; [done|by intros [? _]]].
           destruct w as [[cap ini de ld ac cc cf ae th ab] run nt evs]. exact Hg.
        -- eexists; eexists; (split; [reflexivity|]). done.
      * eexists; eexists; (split; [reflexivity|]). split; [done|].
        destruct g; [split; [done|by intros [? _]]|done].
Qed.

Lemma handle_messages_session (ms : list message) (g : option World) :
  object_ok g ->
  exists rs g',
    handle_messages ms g = Some (rs, g') /\ length rs = length ms /\ object_ok g' /\
    (g' = None <-> g = None /\ Forall (fun m => msg_method m <> "startSystemAudio"%string) ms).
Proof.
  revert g. induction ms as [|m ms IH]; intros g Hg.
  - exists [], g. repeat split; try done. by intros [? _].
  - cbn [handle_messages].
    destruct (handle_method_call_session (msg_device m) (msg_method m) (msg_arguments m) g Hg)
      as (r & g1 & -> & Hg1 & Hnone1).
    destruct (IH g1 Hg1) as (rs & g' & -> & Hlen & Hg' & Hnone).
    exists (r :: rs), g'. split; [done|]. split; [cbn; by rewrite Hlen|]. split; [done|].
    rewrite Hnone, Hnone1, Forall_cons. tauto.
Qed.

(** X24: through the method channel the session stays consistent.  After
    any sequence of messages handled from a null [g_audio_capture]
    (starts on any devices, stops, frame requests with any arguments,
    other names), the object exists exactly when one of the messages was
    "startSystemAudio", and if it exists its fields agree: a capturing
    session is initialised, holds its event, and its [capture_thread_]
    points to a running thread; an initialised session holds the
    enumerator, the endpoint, both clients and the format; a session that
    is not capturing has a null [capture_thread_].  Each message has its
    answer in the model, where a join returns once [is_capturing_] is
    cleared; that the capture thread leaves its loop is not part of this
    statement. *)
Theorem handler_keeps_session_consistent (ms : list message) :
  exists rs g,
    handle_messages ms None = Some (rs, g) /\
    length rs = length ms /\
    (g = None <-> Forall (fun m => msg_method m <> "startSystemAudio"%string) ms) /\
    (forall w, g = Some w ->
       (is_capturing_ (obj w) = true ->
        is_initialized_ (obj w) = true /\ audio_event_ (obj w) = true /\
        exists t, capture_thread_ (obj w) = Some t /\ t ∈ running w) /\
       (is_initialized_ (obj w) = true ->
        device_enumerator_ (obj w) = true /\ loopback_device_ (obj w) = true /\
        audio_client_ (obj w) = true /\ capture_client_ (obj w) = true /\
        capture_format_ (obj w) <> None) /\
       (is_capturing_ (obj w) = false -> capture_thread_ (obj w) = None)).
Proof.
  destruct (handle_messages_session ms None I) as (rs & g & Hrun & Hlen & Hok & Hnone).
  exists rs, g. split; [done|]. split; [done|]. split; [rewrite Hnone; tauto|].
  intros w ->. destruct Hok as (Hi & Hc & Ht & _). done.
Qed.

Section RoundingInterval.

Variables prec emax : Z.
Hypothesis prec_pos : 0 < prec.

Lemma pow2_split (a b : Z) : 0 <= a -> 0 <= b -> 2 ^ (a + b) = 2 ^ a * 2 ^ b.
Proof. intros. by rewrite Z.pow_add_r. Qed.

(** The rounding of [mx * 2^ex] stays between two multiples [lo] and [hi]
    of [2^-p] that are values of the format, and its exponent between
    [ex] and [-p]. *)
Lemma binary_round_aux_interval (sx : bool) (mx ex : Z) (lx : location) (p lo hi : Z) :
  0 <= lo -> hi < 2 ^ prec -> emin prec emax <= - p -> - p <= emax - prec -> ex <= - p ->
  lo * 2 ^ (- p - ex) <= mx < hi * 2 ^ (- p - ex) ->
  match binary_round_aux prec emax sx mx ex lx with
  | S754_zero s => s = sx /\ lo = 0
  | S754_finite s m e =>
      s = sx /\ ex <= e <= - p /\ lo * 2 ^ (- p - e) <= Zpos m <= hi * 2 ^ (- p - e)
  | _ => False
  end.
Proof using prec_pos.
  intros Hlo Hhi Hp1 Hp2 Hex Hmx. unfold binary_round_aux, shr_fexp.
  assert (Hmx0 : 0 <= mx).
  { assert (0 < 2 ^ (- p - ex)) by (apply Z.pow_pos_nonneg; lia). nia. }
  set (n1 := fexp prec emax (Zdigits2 mx + ex) - ex).
  pose proof (shr_spec (shr_record_of_loc mx lx) ex n1) as [Hm1 He1];
    [by rewrite shr_record_of_loc_m|].
  destruct (shr (shr_record_of_loc mx lx) ex n1) as [mrs1 e1]. cbn [fst snd] in Hm1, He1.
  rewrite shr_record_of_loc_m in Hm1.
  set (m2 := round_nearest_even (shr_m mrs1) (loc_of_shr_record mrs1)).
  pose proof (round_nearest_even_bounds (shr_m mrs1) (loc_of_shr_record mrs1)) as Hm2.
  fold m2 in Hm2.
  (* the first shift *)
  assert (Hpow : forall e, e <= - p -> hi * 2 ^ (- p - e) < 2 ^ (prec - p - e)).
  { intros e He. replace (prec - p - e) with (prec + (- p - e)) by lia.
    rewrite pow2_split by lia.
    assert (0 < 2 ^ (- p - e)) by (apply Z.pow_pos_nonneg; lia). nia. }
  assert (Hd1 : Zdigits2 mx + ex <= prec - p).
  { pose proof (Hpow ex Hex).
    pose proof (Zdigits2_bound mx (prec - p - ex) Hmx0 ltac:(lia) ltac:(lia)). lia. }
  assert (Hn1 : ex <= e1 <= - p) by (subst n1; unfold fexp, emin in *; lia).
  assert (Hsplit1 : 2 ^ (- p - ex) = 2 ^ Z.max 0 n1 * 2 ^ (- p - e1)).
  { rewrite <- pow2_split by lia. f_equal. lia. }
  assert (Hpos1 : 0 < 2 ^ Z.max 0 n1) by (apply Z.pow_pos_nonneg; lia).
  assert (Hm1lo : lo * 2 ^ (- p - e1) <= shr_m mrs1).
  { rewrite Hm1. apply Z.div_le_lower_bound; [lia|]. rewrite Hsplit1 in Hmx. lia. }
  assert (Hm1hi : shr_m mrs1 < hi * 2 ^ (- p - e1)).
  { rewrite Hm1. apply Z.div_lt_upper_bound; [lia|]. rewrite Hsplit1 in Hmx. lia. }
  assert (Hge1 : 0 <= lo * 2 ^ (- p - e1)).
  { assert (0 < 2 ^ (- p - e1)) by (apply Z.pow_pos_nonneg; lia). nia. }
  (* the second shift *)
  set (n2 := fexp prec emax (Zdigits2 m2 + e1) - e1).
  pose proof (shr_spec (shr_record_of_loc m2 loc_Exact) e1 n2) as [Hm3 He3];
    [cbn; lia|].
  destruct (shr (shr_record_of_loc m2 loc_Exact) e1 n2) as [mrs3 e3].
  cbn [fst snd shr_record_of_loc shr_m] in Hm3, He3.
  assert (Hd2 : Zdigits2 m2 + e1 <= prec - p).
  { pose proof (Hpow e1 ltac:(lia)).
    pose proof (Zdigits2_bound m2 (prec - p - e1) ltac:(lia) ltac:(lia) ltac:(lia)). lia. }
  assert (He3' : e1 <= e3 <= - p) by (subst n2; unfold fexp, emin in *; lia).
  assert (Hsplit2 : 2 ^ (- p - e1) = 2 ^ Z.max 0 n2 * 2 ^ (- p - e3)).
  { rewrite <- pow2_split by lia. f_equal. lia. }
  assert (Hpos2 : 0 < 2 ^ Z.max 0 n2) by (apply Z.pow_pos_nonneg; lia).
  assert (Hm3lo : lo * 2 ^ (- p - e3) <= shr_m mrs3).
  { rewrite Hm3. apply Z.div_le_lower_bound; [lia|]. rewrite Hsplit2 in Hm1lo. lia. }
  assert (Hm3hi : shr_m mrs3 <= hi * 2 ^ (- p - e3)).
  { rewrite Hm3. apply Z.div_le_upper_bound; [lia|]. rewrite Hsplit2 in Hm1hi. lia. }
  assert (Hge3 : 0 < 2 ^ (- p - e3)) by (apply Z.pow_pos_nonneg; lia).
  destruct (shr_m mrs3) as [|q|q].
  - split; [done|]. nia.
  - rewrite (proj2 (Z.leb_le e3 (emax - prec))) by lia. split; [done|]. split; lia.
  - nia.
Qed.

End RoundingInterval.

Section RoundingInterval32.

(** The same for binary32. *)
Lemma binary_round_aux_between (sx : bool) (mx ex : Z) (lx : location) (p lo hi : Z) :
  0 <= lo -> hi < 2 ^ 24 -> -149 <= - p -> - p <= 104 -> ex <= - p ->
  lo * 2 ^ (- p - ex) <= mx < hi * 2 ^ (- p - ex) ->
  match binary_round_aux 24 128 sx mx ex lx with
  | S754_zero s => s = sx /\ lo = 0
  | S754_finite s m e =>
      s = sx /\ e <= - p /\ lo * 2 ^ (- p - e) <= Zpos m <= hi * 2 ^ (- p - e)
  | _ => False
  end.
Proof.
  intros Hlo Hhi Hp1 Hp2 Hex Hmx.
  pose proof (binary_round_aux_interval 24 128 ltac:(lia) sx mx ex lx p lo hi
                Hlo Hhi Hp1 Hp2 Hex Hmx) as H.
  destruct (binary_round_aux 24 128 sx mx ex lx); try done.
  destruct H as (? & ? & ?). split; [done|]. split; [lia|done].
Qed.

End RoundingInterval32.

Section Quantiser.

(** A product of magnitude at most 32767 passes both range tests of
    [FloatToPcm16] and is cut towards zero. *)
Lemma quantise_small (s : bool) (m : positive) (e : Z) :
  e <= -9 -> Zpos m <= 16776704 * 2 ^ (-9 - e) ->
  f32_ltb (S754_finite s m e) f32_minus_32768 = false /\
  f32_ltb f32_32767 (S754_finite s m e) = false /\
  int16_of_f32 (S754_finite s m e) = cond_Zopp s (Zpos m / 2 ^ (- e)).
Proof.
  intros He Hm.
  assert (Hpe : 0 < 2 ^ (- e)) by (apply Z.pow_pos_nonneg; lia).
  assert (Hq : 0 <= Zpos m / 2 ^ (- e) <= 32767).
  { split; [apply Z.div_pos; lia|].
    apply Z.lt_succ_r. apply Z.div_lt_upper_bound; [lia|].
    replace (- e) with (9 + (-9 - e)) by lia. rewrite pow2_split by lia.
    assert (0 < 2 ^ (-9 - e)) by (apply Z.pow_pos_nonneg; lia). lia. }
  split; [|split].
  - unfold f32_ltb, SFltb, SFcompare, f32_minus_32768. destruct s; [|done].
    by rewrite (proj2 (Z.compare_lt_iff e (-8))) by lia.
  - unfold f32_ltb, SFltb, SFcompare, f32_32767. destruct s; [done|].
    destruct (Z.compare_spec (-9) e) as [<-| |]; [|lia|done].
    change (Pos.compare_cont Eq 16776704 m) with (Pos.compare 16776704 m).
    destruct (Pos.compare_spec 16776704 m) as [| |]; try done.
    exfalso. replace (-9 - -9) with 0 in Hm by lia. lia.
  - unfold int16_of_f32, int32_of_f32, truncZ. rewrite shiftl_neg_exponent by lia.
    destruct s; cbn [cond_Zopp].
    + rewrite (proj2 (Z.leb_le _ _)), (proj2 (Z.leb_le _ _)) by lia. cbn [andb].
      apply wrap16_small. lia.
    + rewrite (proj2 (Z.leb_le _ _)), (proj2 (Z.leb_le _ _)) by lia. cbn [andb].
      apply wrap16_small. lia.
Qed.

(** The sample [n / 32768], written with the mantissa [n * 2^p], is
    quantised to [n - 1]: the product with [32767.0f] rounds to a value
    between [n - 1] and the binary32 value before [n]. *)
Lemma FloatToPcm16_fraction (s : bool) (M : positive) (n p : Z) :
  9 <= p <= 149 -> Zpos M = n * 2 ^ p -> 2 ^ 15 < Zpos M < 2 ^ 24 ->
  FloatToPcm16 (S754_finite s M (-15 - p)) = cond_Zopp s (n - 1).
Proof.
  intros Hp HM Hrange.
  assert (Hpp : 2 ^ 9 <= 2 ^ p) by (apply Z.pow_le_mono_r; lia).
  assert (Hn : 1 <= n) by nia.
  unfold FloatToPcm16, ClampFloat.
  assert (Hlo : f32_ltb (S754_finite s M (-15 - p)) f32_minus_one = false).
  { unfold f32_ltb, SFltb, SFcompare, f32_minus_one. destruct s; [|done].
    by rewrite (proj2 (Z.compare_lt_iff (-15 - p) (-23))) by lia. }
  assert (Hhi : f32_ltb f32_one (S754_finite s M (-15 - p)) = false).
  { unfold f32_ltb, SFltb, SFcompare, f32_one. destruct s; [done|].
    by rewrite (proj2 (Z.compare_gt_iff (-23) (-15 - p))) by lia. }
  rewrite Hlo, Hhi, f32_mul_32767.
  pose proof (binary_round_aux_between (xorb s false) (Zpos (M * 16776704)) (-15 - p + -9)
                loc_Exact p (Zpos M - 2 ^ p) (Zpos M - 1)
                ltac:(nia) ltac:(lia) ltac:(lia) ltac:(lia) ltac:(lia)) as Hr.
  replace (- p - (-15 - p + -9)) with 24 in Hr by lia.
  rewrite Pos2Z.inj_mul in Hr |- *.
  change (2 ^ 9) with 512 in Hpp. change (2 ^ 15) with 32768 in Hrange.
  change (2 ^ 24) with 16777216 in Hrange, Hr.
  specialize (Hr ltac:(lia)).
  rewrite xorb_false_r in *.
  destruct (binary_round_aux 24 128 s (Zpos M * 16776704) (-15 - p + -9) loc_Exact)
    as [s'|s'| |s' m e] eqn:Hres; [|done|done|].
  { destruct Hr as [-> Hr]. assert (n = 1) as -> by nia. by destruct s. }
  destruct Hr as (-> & He & Hmlo & Hmhi).
  assert (Hpe : 0 < 2 ^ (- p - e)) by (apply Z.pow_pos_nonneg; lia).
  assert (Hsplit : 2 ^ (- e) = 2 ^ p * 2 ^ (- p - e)).
  { rewrite <- pow2_split by lia. f_equal. lia. }
  destruct (quantise_small s m e ltac:(lia)) as (-> & -> & ->).
  - replace (-9 - e) with ((p - 9) + (- p - e)) by lia. rewrite pow2_split by lia.
    assert (Hc : Zpos M - 1 <= 16776704 * 2 ^ (p - 9)).
    { destruct (Z.eq_dec p 9) as [->|Hne].
      - change (2 ^ (9 - 9)) with 1. change (2 ^ 9) with 512 in HM. lia.
      - assert (2 ^ 1 <= 2 ^ (p - 9)) by (apply Z.pow_le_mono_r; lia).
        change (2 ^ 1) with 2 in *. lia. }
    nia.
  - f_equal. symmetry. apply Z.div_unique with (Zpos m - (n - 1) * 2 ^ (- e)).
    + left. rewrite Hsplit. nia.
    + lia.
Qed.

End Quantiser.

Section InRangeSample.

(** The three cases of [ClampFloat]. *)
Lemma ClampFloat_cases (v : float) :
  (f32_ltb v f32_minus_one = true -> ClampFloat v = f32_minus_one) /\
  (f32_ltb v f32_minus_one = false -> f32_ltb f32_one v = true -> ClampFloat v = f32_one) /\
  (f32_ltb v f32_minus_one = false -> f32_ltb f32_one v = false -> ClampFloat v = v).
Proof.
  unfold ClampFloat. split; [|split].
  - by intros ->.
  - by intros -> ->.
  - by intros -> ->.
Qed.

(** A finite sample [m * 2^e] that the clamp leaves alone is encoded from
    its own value: the magnitude of its code is the exact product with
    32767 cut towards zero, or one more where the rounding of the product
    to binary32 reaches the next integer. *)
Lemma FloatToPcm16_in_range (s : bool) (m : positive) (e : Z) :
  bounded 24 128 m e = true ->
  f32_ltb (S754_finite s m e) f32_minus_one = false ->
  f32_ltb f32_one (S754_finite s m e) = false ->
  exists k,
    FloatToPcm16 (S754_finite s m e) = cond_Zopp s k /\
    Zpos m * 32767 / 2 ^ (- e) <= k <= Zpos m * 32767 / 2 ^ (- e) + 1 /\
    k <= 32767.
Proof.
  intros Hb Hlo Hhi.
  destruct (unclamped_exponent s m e Hb Hlo Hhi) as [[He Hm]|[-> ->]].
  2: { exists 32767. split; [by destruct s|]. by vm_compute. }
  unfold FloatToPcm16, ClampFloat. rewrite Hlo, Hhi, f32_mul_32767, xorb_false_r.
  set (q := Zpos m * 32767 / 2 ^ (- e)).
  assert (Hpe : 0 < 2 ^ (- e)) by (apply Z.pow_pos_nonneg; lia).
  assert (Hp24 : 2 ^ 24 <= 2 ^ (- e)) by (apply Z.pow_le_mono_r; lia).
  assert (Hq0 : 0 <= q) by (apply Z.div_pos; lia).
  assert (Hqlo : q * 2 ^ (- e) <= Zpos m * 32767).
  { subst q. rewrite Z.mul_comm. apply Z.mul_div_le. lia. }
  assert (Hqhi : Zpos m * 32767 < (q + 1) * 2 ^ (- e)).
  { subst q. pose proof (Z.mod_pos_bound (Zpos m * 32767) (2 ^ (- e)) Hpe) as Hmod.
    pose proof (Z.div_mod (Zpos m * 32767) (2 ^ (- e)) ltac:(lia)) as Hdm. nia. }
  assert (Hq : q <= 32766).
  { apply Z.lt_succ_r. subst q. apply Z.div_lt_upper_bound; [lia|]. nia. }
  pose proof (binary_round_aux_between s (Zpos (m * 16776704)) (e + -9) loc_Exact 9
                (q * 512) ((q + 1) * 512) ltac:(lia) ltac:(lia) ltac:(lia) ltac:(lia)
                ltac:(lia)) as Hr.
  replace (Z.opp 9 - (e + -9)) with (- e) in Hr by lia. rewrite Pos2Z.inj_mul in Hr |- *.
  specialize (Hr ltac:(nia)).
  destruct (binary_round_aux 24 128 s (Zpos m * 16776704) (e + -9) loc_Exact)
    as [s'|s'| |s' m' e'] eqn:Hres; [|done|done|].
  - destruct Hr as [-> Hr]. exists 0. split; [by destruct s|]. lia.
  - destruct Hr as (-> & He' & Hmlo & Hmhi).
    change (Z.opp 9) with (-9) in *.
    assert (Hpe' : 0 < 2 ^ (- 9 - e')) by (apply Z.pow_pos_nonneg; lia).
    assert (Hsplit : 2 ^ (- e') = 512 * 2 ^ (- 9 - e')).
    { change 512 with (2 ^ 9). rewrite <- pow2_split by lia. f_equal. lia. }
    destruct (quantise_small s m' e' He' ltac:(nia)) as (-> & -> & ->).
    exists (Zpos m' / 2 ^ (- e')). split; [done|].
    assert (Hklo : q <= Zpos m' / 2 ^ (- e')).
    { apply Z.div_le_lower_bound; [lia|]. rewrite Hsplit. nia. }
    assert (Hkhi : Zpos m' / 2 ^ (- e') <= q + 1).
    { apply Z.div_le_upper_bound; [lia|]. rewrite Hsplit. nia. }
    lia.
Qed.

End InRangeSample.

(** C7: the encoder writes exactly two bytes per sample, in the order of
    the samples, least significant byte first.  Each sample is clamped:
    a sample below -1.0 becomes -1.0, one above 1.0 becomes 1.0, any
    other sample is kept as it is, and the code of a sample is the code
    of its clamped value.  The clamped sample is multiplied by 32767.0f
    and cut towards zero: for a finite sample [m * 2^e] that the clamp
    leaves alone the code has the sign of the sample and the magnitude of
    the exact product with 32767 cut towards zero, or one more where the
    binary32 rounding of the product reaches the next integer; a zero
    has the code 0.  The code lies in the signed 16-bit range.  The
    sample 1.5 is clamped to 1.0, quantised to 32767 and stored as the
    bytes 0xFF, 0x7F; the in-range sample 0.5 is quantised to 16383. *)
Theorem MonoFloatToPcm16Bytes_encoding (inMono : list float) :
  length (MonoFloatToPcm16Bytes inMono) = (2 * length inMono)%nat /\
  MonoFloatToPcm16Bytes inMono
    = flat_map (fun v => pcm16_bytes (FloatToPcm16 v)) inMono /\
  (forall v : float,
     (f32_ltb v f32_minus_one = true -> ClampFloat v = f32_minus_one) /\
     (f32_ltb v f32_minus_one = false -> f32_ltb f32_one v = true ->
      ClampFloat v = f32_one) /\
     (f32_ltb v f32_minus_one = false -> f32_ltb f32_one v = false -> ClampFloat v = v) /\
     f32_ltb (ClampFloat v) f32_minus_one = false /\
     f32_ltb f32_one (ClampFloat v) = false /\
     FloatToPcm16 v = FloatToPcm16 (ClampFloat v) /\
     (valid_binary 24 128 v = true -> -32768 <= FloatToPcm16 v <= 32767) /\
     Z.land (FloatToPcm16 v) 0xFF + 256 * Z.land (Z.shiftr (FloatToPcm16 v) 8) 0xFF
       = FloatToPcm16 v mod 65536) /\
  (forall (s : bool) (m : positive) (e : Z),
     bounded 24 128 m e = true ->
     f32_ltb (S754_finite s m e) f32_minus_one = false ->
     f32_ltb f32_one (S754_finite s m e) = false ->
     exists k,
       FloatToPcm16 (S754_finite s m e) = cond_Zopp s k /\
       Zpos m * 32767 / 2 ^ (- e) <= k <= Zpos m * 32767 / 2 ^ (- e) + 1 /\
       k <= 32767) /\
  (forall s : bool, FloatToPcm16 (S754_zero s) = 0) /\
  ClampFloat f32_1_5 = f32_one /\
  FloatToPcm16 f32_1_5 = 32767 /\
  MonoFloatToPcm16Bytes [f32_1_5] = [0xFF; 0x7F] /\
  ClampFloat f32_half = f32_half /\
  FloatToPcm16 f32_half = 16383.
Proof.
  split; [|split; [|split; [|split; [|split]]]].
  - rewrite MonoFloatToPcm16Bytes_flat_map. by apply flat_map_pairs_length.
  - apply MonoFloatToPcm16Bytes_flat_map.
  - intros v. destruct (ClampFloat_range v) as [Hlo Hhi].
    destruct (ClampFloat_cases v) as (H1 & H2 & H3).
    split; [done|]. split; [done|]. split; [done|]. split; [done|]. split; [done|].
    split; [|split].
    + unfold FloatToPcm16. cbv zeta.
      assert (Hidem : ClampFloat (ClampFloat v) = ClampFloat v)
        by (unfold ClampFloat at 1; by rewrite Hlo, Hhi).
      by rewrite Hidem.
    + intros Hv. pose proof (FloatToPcm16_range v Hv). lia.
    + apply pcm16_bytes_little_endian.
  - apply FloatToPcm16_in_range.
  - by intros [].
  - repeat split; reflexivity.
Qed.

Lemma MonoFloatToPcm16Bytes_encoding_witness :
  length (MonoFloatToPcm16Bytes [f32_1_5; f32_minus_one; f32_zero]) = 6%nat /\
  MonoFloatToPcm16Bytes [f32_1_5] = [0xFF; 0x7F] /\
  (exists k, FloatToPcm16 f32_half = cond_Zopp false k /\ 16383 <= k <= 16384) /\
  ClampFloat f32_half = f32_half.
Proof.
  destruct (MonoFloatToPcm16Bytes_encoding [f32_1_5; f32_minus_one; f32_zero])
    as (H1 & _ & Hclamp & Hin & _ & _ & _ & H2 & _).
  split; [exact H1|]. split; [exact H2|]. split.
  - destruct (Hin false 8388608%positive (-24) eq_refl eq_refl eq_refl) as (k & Hk & Hq & _).
    exists k. split; [exact Hk|]. exact Hq.
  - apply (Hclamp f32_half); reflexivity.
Defined.

Section ExactSteps.

Variables prec emax : Z.
Hypothesis prec_pos : 0 < prec.
Hypothesis emax_large : 2 <= emax.

(** A canonical mantissa within the exponent range is kept as it is, in
    particular one of [prec] bits; one of [prec + 1] bits that is even
    loses its last bit. *)
Lemma binary_round_aux_canonical (s : bool) (M : positive) (e : Z) :
  fexp prec emax (Zpos (digits2_pos M) + e) = e -> e <= emax - prec ->
  binary_round_aux prec emax s (Zpos M) e loc_Exact = S754_finite s M e.
Proof using.
  intros Hcan He. unfold binary_round_aux, shr_fexp. cbn [Zdigits2]. rewrite Hcan, Z.sub_diag.
  cbn [shr shr_record_of_loc loc_of_shr_record round_nearest_even shr_m Zdigits2].
  rewrite Hcan, Z.sub_diag. cbn [shr shr_record_of_loc shr_m].
  by rewrite (proj2 (Z.leb_le e (emax - prec))) by lia.
Qed.

Lemma binary_round_aux_exact (s : bool) (M : positive) (e : Z) :
  Zpos (digits2_pos M) = prec -> emin prec emax <= e <= emax - prec ->
  binary_round_aux prec emax s (Zpos M) e loc_Exact = S754_finite s M e.
Proof using prec_pos emax_large.
  intros Hd He. apply binary_round_aux_canonical; [|lia].
  rewrite Hd. unfold fexp, emin in *. lia.
Qed.

Lemma binary_round_aux_exact_even (s : bool) (M : positive) (e : Z) :
  Zpos (digits2_pos M) = prec -> emin prec emax - 1 <= e <= emax - prec - 1 ->
  binary_round_aux prec emax s (Zpos M~0) e loc_Exact = S754_finite s M (e + 1).
Proof using prec_pos emax_large.
  intros Hd He. unfold binary_round_aux, shr_fexp. cbn [Zdigits2 digits2_pos].
  rewrite Pos2Z.inj_succ, Hd.
  replace (fexp prec emax (Z.succ prec + e) - e) with 1 by (unfold fexp, emin in *; lia).
  cbn [shr shr_record_of_loc SpecFloat.iter_pos shr_1 orb loc_of_shr_record
       round_nearest_even shr_m Zdigits2].
  rewrite Hd.
  replace (fexp prec emax (prec + (e + 1)) - (e + 1)) with 0 by (unfold fexp, emin in *; lia).
  cbn [shr shr_record_of_loc shr_m].
  by rewrite (proj2 (Z.leb_le (e + 1) (emax - prec))) by lia.
Qed.

Lemma iter_xO_value (m k : positive) : Zpos (Pos.iter xO m k) = Zpos m * 2 ^ Zpos k.
Proof.
  induction k as [|k IH] using Pos.peano_ind.
  - cbn [Pos.iter]. lia.
  - rewrite Pos.iter_succ, Pos2Z.inj_succ, Z.pow_succ_r by lia.
    rewrite Pos2Z.inj_xO, IH. lia.
Qed.

(** The conversion of an integer of at most [prec] bits is exact: the
    mantissa is the integer moved up to [prec] bits. *)
Lemma binary_round_exact (sg : bool) (q : positive) :
  Zpos q < 2 ^ prec -> prec <= emax ->
  exists M : positive,
    binary_round prec emax sg q 0 = S754_finite sg M (Zpos (digits2_pos q) - prec) /\
    Zpos (digits2_pos M) = prec /\
    Zpos M = Zpos q * 2 ^ (prec - Zpos (digits2_pos q)).
Proof using prec_pos emax_large.
  intros Hq Hpe. unfold binary_round, shl_align.
  pose proof (digits2_pos_bounds q) as [Hdlo Hdhi].
  assert (Hd : Zpos (digits2_pos q) <= prec).
  { pose proof (Zdigits2_bound (Zpos q) prec ltac:(lia) ltac:(lia) Hq). done. }
  replace (fexp prec emax (Zpos (digits2_pos q) + 0) - 0) with (Zpos (digits2_pos q) - prec)
    by (unfold fexp, emin; lia).
  replace (fexp prec emax (Zpos (digits2_pos q) + 0)) with (Zpos (digits2_pos q) - prec)
    by (unfold fexp, emin; lia).
  destruct (Zpos (digits2_pos q) - prec) as [|k|k] eqn:Hk; [|lia|].
  - exists q. rewrite binary_round_aux_exact by (unfold emin; lia).
    replace (prec - Zpos (digits2_pos q)) with 0 by lia.
    split; [done|]. split; lia.
  - exists (Pos.iter xO q k).
    assert (Hval : Zpos (Pos.iter xO q k) = Zpos q * 2 ^ (prec - Zpos (digits2_pos q))).
    { rewrite iter_xO_value. f_equal. f_equal. lia. }
    assert (Hdig : Zpos (digits2_pos (Pos.iter xO q k)) = prec).
    { apply digits2_pos_exact. rewrite Hval.
      set (d := Zpos (digits2_pos q)) in *.
      assert (Hs1 : 2 ^ (prec - 1) = 2 ^ (d - 1) * 2 ^ (prec - d)).
      { rewrite <- pow2_split by lia. f_equal. lia. }
      assert (Hs2 : 2 ^ prec = 2 ^ d * 2 ^ (prec - d)).
      { rewrite <- pow2_split by lia. f_equal. lia. }
      assert (0 < 2 ^ (prec - d)) by (apply Z.pow_pos_nonneg; lia).
      rewrite Hs1, Hs2. nia. }
    rewrite binary_round_aux_exact by (done || unfold emin; lia). done.
Qed.

End ExactSteps.

Section ExactSteps32.

(** Division of a normal binary32 value by a power of two is exact. *)
Lemma f32_div_pow2 (s : bool) (M : positive) (E e2 : Z) :
  Zpos (digits2_pos M) = 24 -> -148 <= E - e2 - 23 <= 104 ->
  f32_div (S754_finite s M E) (S754_finite false 8388608 e2) = S754_finite s M (E - e2 - 23).
Proof.
  intros Hd He. unfold f32_div, SFdiv, SFdiv_core_binary. cbn [Zdigits2]. rewrite Hd.
  change (Zpos (digits2_pos 8388608)) with 24.
  replace (Z.min (fexp 24 128 (24 + E - (24 + e2))) (E - e2)) with (E - e2 - 24)
    by (unfold fexp, emin; lia).
  replace (E - e2 - (E - e2 - 24)) with 24 by lia.
  rewrite Z.shiftl_mul_pow2 by lia. change (2 ^ 24) with 16777216.
  assert (Hdiv : Z.div_eucl (Zpos M * 16777216) 8388608 = (Zpos M~0, 0)).
  { pose proof (Z_div_mod (Zpos M * 16777216) 8388608 ltac:(lia)) as H.
    destruct (Z.div_eucl (Zpos M * 16777216) 8388608) as [q r]. destruct H as [Heq Hr].
    f_equal; lia. }
  rewrite Hdiv. change (new_location 8388608 0) with loc_Exact.
  rewrite xorb_false_r, (binary_round_aux_exact_even 24 128) by (done || unfold emin; lia).
  f_equal. lia.
Qed.

(** [static_cast<float>(n)] of an integer below [2^24] in magnitude is
    exact. *)
Lemma f32_of_Z_exact (n : Z) :
  n <> 0 -> Z.abs n < 2 ^ 24 ->
  exists M : positive,
    f32_of_Z n = S754_finite (n <? 0) M (Zdigits2 (Z.abs n) - 24) /\
    Zpos (digits2_pos M) = 24 /\
    Zpos M = Z.abs n * 2 ^ (24 - Zdigits2 (Z.abs n)).
Proof.
  intros Hn Hlt. unfold f32_of_Z, binary_normalize. destruct n as [|q|q]; [done| |].
  - destruct (binary_round_exact 24 128 ltac:(lia) ltac:(lia) false q Hlt ltac:(lia)) as (M & HM).
    by exists M.
  - destruct (binary_round_exact 24 128 ltac:(lia) ltac:(lia) true q Hlt ltac:(lia)) as (M & HM).
    by exists M.
Qed.

(** [static_cast<double>(n)] of a positive integer below [2^53]: a
    value of at least 1 with an exponent between -52 and 0. *)
Lemma f64_of_Z_positive (n : Z) :
  1 <= n < 2 ^ 53 ->
  exists (m : positive) (e : Z),
    f64_of_Z n = S754_finite false m e /\ -52 <= e <= 0 /\ 2 ^ (- e) <= Zpos m.
Proof.
  intros Hn. unfold f64_of_Z, binary_normalize. destruct n as [|q|q]; [lia| |lia].
  destruct (binary_round_exact 53 1024 ltac:(lia) ltac:(lia) false q ltac:(lia) ltac:(lia))
    as (M & -> & Hd & HM).
  pose proof (digits2_pos_bounds q) as [Hdlo Hdhi].
  assert (Hd53 : Zpos (digits2_pos q) <= 53).
  { pose proof (Zdigits2_bound (Zpos q) 53 ltac:(lia) ltac:(lia) ltac:(lia)). done. }
  exists M, (Zpos (digits2_pos q) - 53). split; [done|]. split; [lia|].
  rewrite HM. replace (- (Zpos (digits2_pos q) - 53)) with (53 - Zpos (digits2_pos q)) by lia.
  assert (0 < 2 ^ (53 - Zpos (digits2_pos q))) by (apply Z.pow_pos_nonneg; lia). nia.
Qed.

End ExactSteps32.

Section MonoPcm16.

(** A 16-bit sample read from a mono packet, normalised by [ToMonoFloat]
    and quantised again by [FloatToPcm16]. *)
Lemma mono_sample_code (s : Z) :
  -32768 <= s <= 32767 ->
  FloatToPcm16 (f32_div (f32_div (f32_of_Z s) (f32_of_Z 1)) f32_32768) = s - Z.sgn s.
Proof.
  intros Hs.
  destruct (Z.eq_dec s 0) as [->|Hs0]; [reflexivity|].
  destruct (Z.eq_dec s (-32768)) as [->|Hmin]; [reflexivity|].
  destruct (f32_of_Z_exact s Hs0 ltac:(lia)) as (M & -> & Hd & HM).
  set (d := Zdigits2 (Z.abs s)) in *.
  assert (Hdr : 1 <= d <= 15).
  { split; [apply Zdigits2_pos; lia|].
    apply Zdigits2_bound; lia. }
  change (f32_of_Z 1) with (S754_finite false 8388608 (-23)). unfold f32_32768.
  rewrite !f32_div_pow2 by (done || lia).
  replace (d - 24 - -23 - 23 - -8 - 23) with (-15 - (24 - d)) by lia.
  rewrite (FloatToPcm16_fraction (s <? 0) M (Z.abs s) (24 - d)); [|lia|done|].
  - destruct (Z.ltb_spec s 0); cbn [cond_Zopp]; lia.
  - pose proof (digits2_pos_bounds M) as HMb. rewrite Hd in HMb.
    change (2 ^ (24 - 1)) with 8388608 in HMb. change (2 ^ 15) with 32768. lia.
Qed.

End MonoPcm16.

Section MonoPacket.

Lemma byte_at_resize (n : nat) (l : list Z) (k : Z) :
  (Z.to_nat k < n)%nat -> byte_at (resize n 0 l) k = byte_at l k.
Proof.
  intros Hk. unfold byte_at.
  destruct (Nat.lt_ge_cases (Z.to_nat k) (length l)) as [Hlt|Hge].
  - by rewrite lookup_resize by lia.
  - rewrite lookup_resize_new by lia. by rewrite (lookup_ge_None_2 l) by lia.
Qed.

Lemma int16_at_resize (n : nat) (l : list Z) (k : Z) :
  0 <= k -> (Z.to_nat (2 * k + 1) < n)%nat ->
  int16_at (resize n 0 l) k = int16_at l k.
Proof.
  intros Hk Hn. unfold int16_at. by rewrite !byte_at_resize by lia.
Qed.

Lemma flat_map_seq_ext {A} (f g : nat -> list A) (start n : nat) :
  (forall i, (start <= i < start + n)%nat -> f i = g i) ->
  flat_map f (seq start n) = flat_map g (seq start n).
Proof.
  revert start. induction n as [|n IH]; intros start Hfg; [done|].
  cbn [seq flat_map]. rewrite Hfg by lia. f_equal. apply IH. intros i Hi. apply Hfg. lia.
Qed.

Lemma flat_map_fmap {A B C} (f : A -> B) (g : B -> list C) (l : list A) :
  flat_map g (f <$> l) = flat_map (fun x => g (f x)) l.
Proof. induction l as [|x l IH]; [done|]. cbn. by rewrite IH. Qed.

End MonoPacket.

(** X25: a packet from a mono 16-bit PCM endpoint that runs at 16000 Hz is
    not stored as it came: normalising by 32768 and quantising by 32767
    with the cut towards zero takes one unit off the magnitude of every
    sample that is not 0 (1 and -1 become 0, 32767 becomes 32766, -32768
    becomes -32767); the stored bytes are those of [s - sgn s] for each
    sample [s] of the packet, in order, least significant byte first. *)
Theorem pcm16_mono_16k_loses_one_unit (f : WAVEFORMATEX) (buffer : list Z) (frames_read flags : Z) :
  IsPcm16Format (Some f) = true -> nChannels f = 1 -> nSamplesPerSec f = 16000 ->
  nBlockAlign f = 2 -> 1 <= frames_read < 2 ^ 32 ->
  Z.land flags AUDCLNT_BUFFERFLAGS_SILENT = 0 ->
  packet_pcm16 (Some f) buffer frames_read flags =
    flat_map (fun i => pcm16_bytes (int16_at buffer (Z.of_nat i)
                                    - Z.sgn (int16_at buffer (Z.of_nat i))))
      (seq 0 (Z.to_nat frames_read)).
Proof.
  intros Hpcm Hch Hrate Hblock Hfr Hflags.
  assert (Hfl : IsFloatFormat (Some f) = false).
  { pose proof (format_tests_exclusive f) as H. rewrite Hpcm, andb_true_r in H. done. }
  unfold packet_pcm16. rewrite Hblock, Hrate, Hflags.
  rewrite (proj2 (Z.ltb_lt 0 (frames_read * 2))) by lia. cbn [Z.eqb].
  unfold ToMonoFloat. rewrite Hch, Hfl, Hpcm.
  rewrite (proj2 (Z.eqb_neq frames_read 0)) by lia. cbn [Z.eqb].
  rewrite foldl_insert_all.
  unfold ResampleLinear. rewrite bool_decide_eq_false_2.
  2: { destruct (Z.to_nat frames_read) eqn:Hn; [lia|done]. }
  cbn [orb Z.eqb Pos.eqb]. rewrite MonoFloatToPcm16Bytes_flat_map, flat_map_fmap.
  apply flat_map_seq_ext. intros i Hi. f_equal.
  unfold sum_int16. change (Z.to_nat 1) with 1%nat. cbn [seq foldl].
  change (Z.of_nat 0) with 0.
  unfold sample_index. rewrite Z.mul_1_r, Z.add_0_r, Z.add_0_l, Z.mod_small by lia.
  rewrite int16_at_resize by lia.
  apply mono_sample_code, wrap16_range.
Qed.

Lemma pcm16_mono_16k_loses_one_unit_witness :
  packet_pcm16 (Some mono_pcm16_16k) [0xFF; 0x7F; 0x01; 0x00; 0x00; 0x80] 3 0
  = [0xFE; 0x7F; 0x00; 0x00; 0x01; 0x80].
Proof.
  etransitivity.
  - apply pcm16_mono_16k_loses_one_unit; [reflexivity..|lia|reflexivity].
  - reflexivity.
Defined.

Section MonoFloat.

(** Dividing a binary32 value by [1.0f] gives the value. *)
Lemma f32_div_one (s : bool) (m : positive) (e : Z) :
  bounded 24 128 m e = true ->
  f32_div (S754_finite s m e) (S754_finite false 8388608 (-23)) = S754_finite s m e.
Proof.
  unfold bounded, canonical_mantissa. intros [Hcan He]%andb_prop.
  apply Z.eqb_eq in Hcan. apply Z.leb_le in He.
  pose proof (digits2_pos_bounds m) as Hd.
  destruct (Z.eq_dec e (-149)) as [->|Hne].
  - unfold f32_div, SFdiv, SFdiv_core_binary. cbn [Zdigits2].
    change (Zpos (digits2_pos 8388608)) with 24.
    assert (Hd24 : Zpos (digits2_pos m) <= 24) by (unfold fexp, emin in Hcan; lia).
    replace (Z.min (fexp 24 128 (Zpos (digits2_pos m) + -149 - (24 + -23))) (-149 - -23))
      with (-149) by (unfold fexp, emin; lia).
    change (-149 - -23 - -149) with 23.
    rewrite Z.shiftl_mul_pow2 by lia. change (2 ^ 23) with 8388608.
    assert (Hdiv : Z.div_eucl (Zpos m * 8388608) 8388608 = (Zpos m, 0)).
    { pose proof (Z_div_mod (Zpos m * 8388608) 8388608 ltac:(lia)) as H.
      destruct (Z.div_eucl (Zpos m * 8388608) 8388608) as [q r]. destruct H as [Heq Hr].
      f_equal; lia. }
    rewrite Hdiv. change (new_location 8388608 0) with loc_Exact.
    rewrite xorb_false_r. by apply binary_round_aux_canonical.
  - assert (Hd24 : Zpos (digits2_pos m) = 24) by (unfold fexp, emin in Hcan; lia).
    rewrite f32_div_pow2 by (done || unfold fexp, emin in Hcan; lia). f_equal. lia.
Qed.

(** One sample of a mono float packet: the sum over the single channel
    and the division by the channel count do not change its code. *)
Lemma mono_float_code (x : float) :
  valid_binary 24 128 x = true ->
  FloatToPcm16 (f32_div (f32_add f32_zero x) (f32_of_Z 1)) = FloatToPcm16 x.
Proof.
  intros Hx. change (f32_of_Z 1) with (S754_finite false 8388608 (-23)).
  destruct x as [[]|[]| |s m e]; try reflexivity.
  unfold f32_add, f32_zero. cbn [SFadd]. by rewrite f32_div_one.
Qed.

Lemma float_at_resize (n : nat) (l : list Z) (k : Z) :
  0 <= k -> (Z.to_nat (4 * k + 3) < n)%nat ->
  float_at (resize n 0 l) k = float_at l k.
Proof.
  intros Hk Hn. unfold float_at. by rewrite !byte_at_resize by lia.
Qed.

End MonoFloat.

(** X26: a packet from a mono 32-bit float endpoint that runs at 16000 Hz
    passes the normaliser and the resampler unchanged: the stored bytes
    are the codes [FloatToPcm16] gives the samples of the packet, in
    order, least significant byte first. *)
Theorem float_mono_16k_is_transparent (f : WAVEFORMATEX) (buffer : list Z)
    (frames_read flags : Z) :
  IsFloatFormat (Some f) = true -> nChannels f = 1 -> nSamplesPerSec f = 16000 ->
  nBlockAlign f = 4 -> 1 <= frames_read < 2 ^ 32 ->
  Z.land flags AUDCLNT_BUFFERFLAGS_SILENT = 0 ->
  packet_pcm16 (Some f) buffer frames_read flags =
    flat_map (fun i => pcm16_bytes (FloatToPcm16 (float_at buffer (Z.of_nat i))))
      (seq 0 (Z.to_nat frames_read)).
Proof.
  intros Hfl Hch Hrate Hblock Hfr Hflags.
  unfold packet_pcm16. rewrite Hblock, Hrate, Hflags.
  rewrite (proj2 (Z.ltb_lt 0 (frames_read * 4))) by lia. cbn [Z.eqb].
  unfold ToMonoFloat. rewrite Hch, Hfl.
  rewrite (proj2 (Z.eqb_neq frames_read 0)) by lia. cbn [Z.eqb].
  rewrite foldl_insert_all.
  unfold ResampleLinear. rewrite bool_decide_eq_false_2.
  2: { destruct (Z.to_nat frames_read) eqn:Hn; [lia|done]. }
  cbn [orb Z.eqb Pos.eqb]. rewrite MonoFloatToPcm16Bytes_flat_map, flat_map_fmap.
  apply flat_map_seq_ext. intros i Hi. f_equal.
  unfold sum_float. change (Z.to_nat 1) with 1%nat. cbn [seq foldl].
  change (Z.of_nat 0) with 0.
  unfold sample_index. rewrite Z.mul_1_r, Z.add_0_r, Z.mod_small by lia.
  rewrite float_at_resize by lia.
  apply mono_float_code. unfold float_at. apply f32_of_bits_valid.
Qed.

Lemma float_mono_16k_is_transparent_witness :
  packet_pcm16 (Some mono_float_16k) [0x00; 0x00; 0x80; 0x3F; 0x00; 0x00; 0x00; 0xBF] 2 0
  = [0xFF; 0x7F; 0x01; 0xC0].
Proof.
  etransitivity.
  - apply float_mono_16k_is_transparent; [reflexivity..|lia|reflexivity].
  - reflexivity.
Defined.

Section Symmetry.

Lemma SFltb_opp (x y : spec_float) : SFltb (SFopp x) (SFopp y) = SFltb y x.
Proof.
  unfold SFltb.
  destruct x as [[]|[]| |[] mx ex], y as [[]|[]| |[] my ey]; try done;
    cbn [SFopp SFcompare negb]; rewrite (Z.compare_antisym ex ey);
    destruct (ex ?= ey) eqn:He; cbn [CompOpp]; try done;
    change (Pos.compare_cont Eq mx my) with (mx ?= my)%positive;
    change (Pos.compare_cont Eq my mx) with (my ?= mx)%positive;
    rewrite (Pos.compare_antisym my mx);
    by destruct (my ?= mx)%positive.
Qed.

Lemma ClampFloat_opp (v : float) : ClampFloat (SFopp v) = SFopp (ClampFloat v).
Proof.
  unfold ClampFloat, f32_ltb.
  change f32_minus_one with (SFopp f32_one) at 1.
  change f32_one with (SFopp f32_minus_one) at 2.
  rewrite !SFltb_opp.
  destruct (SFltb v f32_minus_one) eqn:Hlo, (SFltb f32_one v) eqn:Hhi; try done.
  exfalso. by destruct v as [[]|[]| |[] m e].
Qed.

Lemma binary_round_aux_opp (prec emax : Z) (s : bool) (m e : Z) (l : location) :
  binary_round_aux prec emax (negb s) m e l = SFopp (binary_round_aux prec emax s m e l).
Proof.
  unfold binary_round_aux.
  destruct (shr_fexp prec emax m e l) as [mrs1 e1].
  destruct (shr_fexp prec emax _ e1 loc_Exact) as [mrs2 e2].
  destruct (shr_m mrs2); [done| |done].
  by destruct (e2 <=? emax - prec).
Qed.

Lemma f32_mul_opp (c : float) :
  f32_mul (SFopp c) f32_32767 = SFopp (f32_mul c f32_32767).
Proof.
  destruct c as [[]|[]| |s m e]; try done.
  cbn [SFopp]. rewrite !f32_mul_32767, !xorb_false_r. apply binary_round_aux_opp.
Qed.

(** The product of a clamped sample with [32767.0f]: a zero, or a finite
    value of magnitude at most 32767. *)
Lemma scaled_clamped (v : float) :
  valid_binary 24 128 v = true ->
  match f32_mul (ClampFloat v) f32_32767 with
  | S754_zero _ => True
  | S754_finite s m e => e <= -9 /\ Zpos m <= 16776704 * 2 ^ (-9 - e)
  | S754_infinity _ => False
  | S754_nan => True
  end.
Proof.
  intros Hv. destruct v as [[]|[]| |s m e]; [by vm_compute..|].
  cbn [valid_binary] in Hv. unfold ClampFloat.
  destruct (f32_ltb (S754_finite s m e) f32_minus_one) eqn:Hlo; [by vm_compute|].
  destruct (f32_ltb f32_one (S754_finite s m e)) eqn:Hhi; [by vm_compute|].
  destruct (unclamped_exponent s m e Hv Hlo Hhi) as [[He Hm]|[-> ->]];
    [|destruct s; by vm_compute].
  rewrite f32_mul_32767.
  pose proof (binary_round_aux_below_32767 (xorb s false) (Zpos (m * 16776704)) (e + -9)
                loc_Exact ltac:(lia) ltac:(lia)) as Hr.
  assert (Hlt : Zpos (m * 16776704) < 32767 * 2 ^ (- (e + -9))).
  { rewrite Pos2Z.inj_mul. replace (- (e + -9)) with (9 + 24 + (- e - 24)) by lia.
    rewrite !Z.pow_add_r by lia.
    assert (1 <= 2 ^ (- e - 24)) by (apply Z.lt_pred_le, Z.pow_pos_nonneg; lia). nia. }
  specialize (Hr Hlt).
  destruct (binary_round_aux 24 128 (xorb s false) (Zpos (m * 16776704)) (e + -9) loc_Exact)
    as [s'|s'| |s' m' e'] eqn:Hres; [done|done|done|].
  destruct Hr as (_ & He' & Hm'). split; [done|].
  replace (2 ^ (- e')) with (2 ^ 9 * 2 ^ (-9 - e')) in Hm'
    by (rewrite <- pow2_split by lia; f_equal; lia).
  change (2 ^ 9) with 512 in Hm'. lia.
Qed.

Lemma quantise_opp (x : float) :
  match x with
  | S754_zero _ => True
  | S754_finite s m e => e <= -9 /\ Zpos m <= 16776704 * 2 ^ (-9 - e)
  | S754_infinity _ => False
  | S754_nan => True
  end ->
  (if f32_ltb (SFopp x) f32_minus_32768 then -32768
   else if f32_ltb f32_32767 (SFopp x) then 32767 else int16_of_f32 (SFopp x)) =
  - (if f32_ltb x f32_minus_32768 then -32768
     else if f32_ltb f32_32767 x then 32767 else int16_of_f32 x).
Proof.
  destruct x as [[]|[]| |s m e]; try done.
  intros [He Hm]. cbn [SFopp].
  destruct (quantise_small s m e He Hm) as (-> & -> & ->).
  destruct (quantise_small (negb s) m e He Hm) as (-> & -> & ->).
  destruct s; cbn [negb cond_Zopp]; lia.
Qed.

End Symmetry.

(** X27: the quantiser is odd: for every binary32 value (zeros, infinities
    and NaN included) the negated sample gets the negated code, so the
    codes of a signal and of its inverted copy cancel exactly. *)
Theorem FloatToPcm16_odd (v : float) :
  valid_binary 24 128 v = true ->
  FloatToPcm16 (SFopp v) = - FloatToPcm16 v.
Proof.
  intros Hv. unfold FloatToPcm16. rewrite ClampFloat_opp, f32_mul_opp.
  apply quantise_opp. by apply scaled_clamped.
Qed.

Lemma FloatToPcm16_odd_witness :
  FloatToPcm16 (SFopp f32_half) = - FloatToPcm16 f32_half.
Proof. apply FloatToPcm16_odd. reflexivity. Defined.

Section DoubleMagnitude.

Lemma f64_below_mono (T T' : Z) (x : double) : T <= T' -> f64_below T x -> f64_below T' x.
Proof.
  intros HT. destruct x as [s|s| |s m e]; try done. intros [He Hm]. split; [lia|].
  eapply Z.lt_le_trans; [exact Hm|]. apply Z.pow_le_mono_r; lia.
Qed.

(** Rounding to binary64 keeps a value below [2^(52 + T)] below
    [2^(53 + T)], and finite. *)
Lemma f64_round_below (sx : bool) (mx ex : Z) (lx : location) (T : Z) :
  0 <= mx -> ex <= T -> -1074 <= T <= 971 -> mx < 2 ^ (52 + T - ex) ->
  f64_below T (binary_round_aux 53 1024 sx mx ex lx).
Proof.
  intros Hmx Hex HT Hlt.
  assert (Hs : 2 ^ (52 + T - ex) = 2 ^ 52 * 2 ^ (T - ex)).
  { rewrite <- pow2_split by lia. f_equal. lia. }
  assert (Hpos : 0 < 2 ^ (T - ex)) by (apply Z.pow_pos_nonneg; lia).
  pose proof (binary_round_aux_interval 53 1024 ltac:(lia) sx mx ex lx (- T) 0 (2 ^ 53 - 1)
                ltac:(lia) ltac:(lia) ltac:(unfold emin; lia) ltac:(lia) ltac:(lia)) as H.
  replace (- - T - ex) with (T - ex) in H by lia.
  change (2 ^ 53) with 9007199254740992 in H. change (2 ^ 52) with 4503599627370496 in Hs.
  specialize (H ltac:(lia)).
  destruct (binary_round_aux 53 1024 sx mx ex lx) as [s|s| |s m e]; try done.
  destruct H as (_ & He & _ & Hm). cbn [f64_below]. split; [lia|].
  replace (- - T - e) with (T - e) in Hm by lia.
  replace (53 + T - e) with (53 + (T - e)) by lia. rewrite pow2_split by lia.
  change (2 ^ 53) with 9007199254740992.
  assert (0 < 2 ^ (T - e)) by (apply Z.pow_pos_nonneg; lia). lia.
Qed.

(** [shl_align] keeps the value and does not raise the exponent. *)
Lemma shl_align_spec (m : positive) (e e' : Z) :
  (shl_align m e e').2 <= e /\
  Zpos (shl_align m e e').1 = Zpos m * 2 ^ (e - (shl_align m e e').2).
Proof.
  unfold shl_align. destruct (e' - e) as [|k|k] eqn:Hk; cbn [fst snd].
  - rewrite Z.sub_diag. lia.
  - rewrite Z.sub_diag. lia.
  - split; [lia|]. rewrite iter_xO_value. f_equal. f_equal. lia.
Qed.

Lemma f64_normalize_below (D ez T : Z) (sz : bool) :
  ez <= T -> -1074 <= T <= 971 -> Z.abs D < 2 ^ (52 + T - ez) ->
  f64_below T (binary_normalize 53 1024 D ez sz).
Proof.
  intros Hez HT HD.
  assert (Hgen : forall (sg : bool) (q : positive), Zpos q < 2 ^ (52 + T - ez) ->
            f64_below T (binary_round 53 1024 sg q ez)).
  { intros sg q Hq. unfold binary_round.
    pose proof (shl_align_spec q ez (fexp 53 1024 (Zpos (digits2_pos q) + ez))) as [He Hm].
    destruct (shl_align q ez (fexp 53 1024 (Zpos (digits2_pos q) + ez))) as [mz ez'].
    cbn [fst snd] in He, Hm.
    apply f64_round_below; [lia|lia|done|].
    rewrite Hm. replace (52 + T - ez') with ((52 + T - ez) + (ez - ez')) by lia.
    rewrite pow2_split by lia.
    assert (0 < 2 ^ (ez - ez')) by (apply Z.pow_pos_nonneg; lia). nia. }
  unfold binary_normalize. destruct D as [|q|q]; [done| |]; apply Hgen; lia.
Qed.

Lemma f64_of_Z_below (n : Z) : 0 <= n < 2 ^ 64 -> f64_below 12 (f64_of_Z n).
Proof.
  intros Hn. unfold f64_of_Z. apply f64_normalize_below; [lia|lia|].
  change (2 ^ (52 + 12 - 0)) with (2 ^ 64). lia.
Qed.

Lemma f64_mul_below (x y : double) (T1 T2 : Z) :
  f64_below T1 x -> f64_below T2 y -> -1074 <= T1 + T2 + 54 <= 971 ->
  f64_below (T1 + T2 + 54) (f64_mul x y).
Proof.
  intros Hx Hy HT. destruct x as [s1|s1| |s1 m1 e1], y as [s2|s2| |s2 m2 e2]; try done.
  destruct Hx as [He1 Hm1], Hy as [He2 Hm2]. unfold f64_mul, SFmul.
  apply f64_round_below; [lia|lia|done|].
  rewrite Pos2Z.inj_mul.
  replace (52 + (T1 + T2 + 54) - (e1 + e2)) with ((53 + T1 - e1) + (53 + T2 - e2)) by lia.
  rewrite pow2_split by lia. nia.
Qed.

Lemma f64_sub_below (x y : double) (T1 T2 : Z) :
  f64_below T1 x -> f64_below T2 y -> -1074 <= Z.max T1 T2 + 2 <= 971 ->
  f64_below (Z.max T1 T2 + 2) (f64_sub x y).
Proof.
  intros Hx Hy HT. destruct x as [s1|s1| |s1 m1 e1], y as [s2|s2| |s2 m2 e2]; try done.
  - by destruct s1, s2.
  - unfold f64_sub. cbn [SFsub]. apply (f64_below_mono T2); [lia|exact Hy].
  - unfold f64_sub. cbn [SFsub]. apply (f64_below_mono T1); [lia|exact Hx].
  - destruct Hx as [He1 Hm1], Hy as [He2 Hm2]. unfold f64_sub, SFsub.
    set (ez := Z.min e1 e2).
    pose proof (shl_align_spec m1 e1 ez) as [Ha1 Hv1].
    pose proof (shl_align_spec m2 e2 ez) as [Ha2 Hv2].
    assert (Hz1 : (shl_align m1 e1 ez).2 = ez).
    { unfold shl_align. destruct (ez - e1) as [|k|k] eqn:Hk; cbn [snd]; lia. }
    assert (Hz2 : (shl_align m2 e2 ez).2 = ez).
    { unfold shl_align. destruct (ez - e2) as [|k|k] eqn:Hk; cbn [snd]; lia. }
    rewrite Hz1 in Hv1. rewrite Hz2 in Hv2.
    set (a1 := Zpos (shl_align m1 e1 ez).1) in *.
    set (a2 := Zpos (shl_align m2 e2 ez).1) in *.
    assert (Hb1 : a1 < 2 ^ (53 + Z.max T1 T2 - ez)).
    { rewrite Hv1. replace (53 + Z.max T1 T2 - ez) with ((53 + Z.max T1 T2 - e1) + (e1 - ez)) by lia.
      rewrite pow2_split by lia.
      assert (2 ^ (53 + T1 - e1) <= 2 ^ (53 + Z.max T1 T2 - e1)) by (apply Z.pow_le_mono_r; lia).
      assert (0 < 2 ^ (e1 - ez)) by (apply Z.pow_pos_nonneg; lia). nia. }
    assert (Hb2 : a2 < 2 ^ (53 + Z.max T1 T2 - ez)).
    { rewrite Hv2. replace (53 + Z.max T1 T2 - ez) with ((53 + Z.max T1 T2 - e2) + (e2 - ez)) by lia.
      rewrite pow2_split by lia.
      assert (2 ^ (53 + T2 - e2) <= 2 ^ (53 + Z.max T1 T2 - e2)) by (apply Z.pow_le_mono_r; lia).
      assert (0 < 2 ^ (e2 - ez)) by (apply Z.pow_pos_nonneg; lia). nia. }
    apply f64_normalize_below; [lia|done|].
    replace (52 + (Z.max T1 T2 + 2) - ez) with (1 + (53 + Z.max T1 T2 - ez)) by lia.
    rewrite pow2_split by lia. change (2 ^ 1) with 2.
    assert (0 < a1) by (subst a1; lia). assert (0 < a2) by (subst a2; lia).
    destruct s1, s2; cbn [cond_Zopp]; lia.
Qed.

End DoubleMagnitude.

Section ResamplerSilence.

(** The quotient by a double that is at least 1. *)
Lemma f64_div_below (x : double) (sy : bool) (m2 : positive) (e2 T1 : Z) :
  f64_below T1 x -> -52 <= e2 <= 0 -> 2 ^ (- e2) <= Zpos m2 ->
  -1074 <= T1 + 52 <= 971 ->
  f64_below (T1 + 52) (f64_div x (S754_finite sy m2 e2)).
Proof.
  intros Hx He2 Hm2 HT. destruct x as [s1|s1| |s1 m1 e1]; try done.
  destruct Hx as [He1 Hm1]. unfold f64_div, SFdiv, SFdiv_core_binary.
  set (e' := Z.min (fexp 53 1024 (Zdigits2 (Zpos m1) + e1 - (Zdigits2 (Zpos m2) + e2)))
               (e1 - e2)).
  assert (He' : e' <= e1 - e2) by (subst e'; lia).
  set (m' := match e1 - e2 - e' with
             | 0 => Zpos m1
             | Zpos _ => Z.shiftl (Zpos m1) (e1 - e2 - e')
             | Zneg _ => 0
             end).
  assert (Hm' : m' = Zpos m1 * 2 ^ (e1 - e2 - e')).
  { subst m'. destruct (e1 - e2 - e') as [|k|k] eqn:Hk; [cbn; lia| |lia].
    by rewrite Z.shiftl_mul_pow2 by lia. }
  pose proof (Z_div_mod m' (Zpos m2) ltac:(lia)) as Hdiv.
  destruct (Z.div_eucl m' (Zpos m2)) as [q r]. destruct Hdiv as [Heq Hr].
  assert (Hpe : 0 < 2 ^ (e1 - e2 - e')) by (apply Z.pow_pos_nonneg; lia).
  assert (Hq0 : 0 <= q) by nia.
  apply f64_round_below; [done|lia|done|].
  assert (Hpe2 : 0 < 2 ^ (- e2)) by (apply Z.pow_pos_nonneg; lia).
  assert (Hqm : q * 2 ^ (- e2) <= m') by nia.
  assert (Hbound : m' < 2 ^ (53 + T1 - e1) * 2 ^ (e1 - e2 - e')) by nia.
  rewrite <- pow2_split in Hbound by lia.
  assert (Hq : q * 2 ^ (- e2) < 2 ^ (53 + T1 - e') * 2 ^ (- e2)).
  { rewrite <- pow2_split by lia.
    replace (53 + T1 - e' + - e2) with (53 + T1 - e1 + (e1 - e2 - e')) by lia. lia. }
  assert (Hq' : q < 2 ^ (53 + T1 - e')) by nia.
  eapply Z.lt_le_trans; [exact Hq'|]. apply Z.pow_le_mono_r; lia.
Qed.

Lemma f64_mul_zero_r (a : double) (T : Z) :
  f64_below T a -> is_zero (f64_mul a (S754_zero false)).
Proof. by destruct a as [[]|[]| |[] m e]. Qed.

Lemma at_index_zeros (n : nat) (i : Z) : at_index (replicate n f32_zero) i = f32_zero.
Proof.
  unfold at_index. destruct (replicate n f32_zero !! Z.to_nat i) as [v|] eqn:Hv; [|done].
  by apply lookup_replicate in Hv as [-> _].
Qed.

(** Interpolating between zeros gives a zero: the position and the
    fraction are finite doubles for rates and indices within the ranges
    of their types. *)
Lemma interpolate_zeros (n : nat) (inRate outRate j : Z) :
  0 < inRate < 2 ^ 32 -> 0 < outRate < 2 ^ 32 -> 0 <= j < 2 ^ 64 ->
  is_zero (interpolate (replicate n f32_zero) inRate outRate j).
Proof.
  intros Hin Hout Hj. unfold interpolate. rewrite !at_index_zeros.
  change (f64_of_f32 f32_zero) with (S754_zero false).
  set (pos := f64_div (f64_mul (f64_of_Z j) (f64_of_Z inRate)) (f64_of_Z outRate)).
  set (i0 := size_t_of_f64 (f64_floor pos)).
  assert (Hi0 : 0 <= i0 < 2 ^ 64) by (apply Z.mod_pos_bound; lia).
  assert (Hpos : f64_below 130 pos).
  { subst pos.
    destruct (f64_of_Z_positive outRate ltac:(lia)) as (m2 & e2 & -> & He2 & Hm2).
    apply (f64_div_below _ false m2 e2 78); [|done|done|lia].
    apply (f64_mul_below _ _ 12 12); [|apply f64_of_Z_below; lia|lia].
    by apply f64_of_Z_below. }
  assert (Hfrac : f64_below 132 (f64_sub pos (f64_of_Z i0))).
  { apply (f64_sub_below _ _ 130 12); [done|by apply f64_of_Z_below|lia]. }
  assert (Hone : f64_below 134 (f64_sub f64_one (f64_sub pos (f64_of_Z i0)))).
  { apply (f64_sub_below _ _ 0 132); [|done|lia]. cbn. split; [lia|]. by vm_compute. }
  pose proof (f64_mul_zero_r _ _ Hfrac) as H1.
  pose proof (f64_mul_zero_r _ _ Hone) as H2.
  destruct (f64_mul (f64_sub pos (f64_of_Z i0)) (S754_zero false)) as [[]|[]| |[] ? ?];
    try done;
    destruct (f64_mul (f64_sub f64_one (f64_sub pos (f64_of_Z i0))) (S754_zero false))
      as [[]|[]| |[] ? ?]; done.
Qed.

Lemma ResampleLinear_zeros (n : nat) (inRate outRate : Z) :
  0 < inRate < 2 ^ 32 -> 0 < outRate < 2 ^ 32 ->
  Forall is_zero (ResampleLinear (replicate n f32_zero) inRate outRate).
Proof.
  intros Hin Hout. unfold ResampleLinear.
  destruct (bool_decide (replicate n f32_zero = []) || (inRate =? 0) || (outRate =? 0));
    [constructor|].
  destruct (inRate =? outRate).
  - apply Forall_forall. intros v Hv. by apply elem_of_replicate in Hv as [-> _].
  - rewrite foldl_insert_all. apply Forall_fmap, Forall_forall. intros j Hj.
    apply elem_of_seq in Hj. cbn [compose].
    apply interpolate_zeros; [done|done|].
    assert (outCount (size (replicate n f32_zero)) inRate outRate < 2 ^ 64)
      by (apply Z.mod_pos_bound; lia).
    lia.
Qed.

End ResamplerSilence.

Section SilentPacket.

Lemma encode_zeros (l : list float) :
  Forall is_zero l ->
  flat_map (fun v => pcm16_bytes (FloatToPcm16 v)) l = replicate (2 * length l) 0.
Proof.
  induction 1 as [|v l Hv _ IH]; [done|].
  cbn [flat_map length]. rewrite IH.
  destruct v as [s| | |]; try done.
  assert (Hcode : pcm16_bytes (FloatToPcm16 (S754_zero s)) = replicate 2 0) by (by destruct s).
  rewrite Hcode, <- replicate_add. f_equal. lia.
Qed.

Lemma resize_zeros (n : nat) (buffer : list Z) :
  Forall (fun b => b = 0) buffer -> resize n 0 buffer = replicate n 0.
Proof.
  intros Hb. revert n. induction Hb as [|b buffer -> _ IH]; intros n.
  - by rewrite resize_nil.
  - destruct n as [|n]; [done|]. cbn [resize replicate]. by rewrite IH.
Qed.

(** Reads that stay within the [n] bytes of the packet do not see what
    lies behind them. *)
Lemma byte_at_prefix (n : nat) (junk : list Z) (k : Z) :
  (Z.to_nat k < n)%nat -> byte_at (replicate n 0 ++ junk) k = 0.
Proof.
  intros Hk. unfold byte_at.
  rewrite lookup_app_l by (rewrite length_replicate; lia).
  by rewrite lookup_replicate_2 by lia.
Qed.

Lemma float_at_prefix (n : nat) (junk : list Z) (k : Z) :
  0 <= k -> (Z.to_nat (4 * k + 3) < n)%nat ->
  float_at (replicate n 0 ++ junk) k = f32_zero.
Proof. intros Hk Hn. unfold float_at. by rewrite !byte_at_prefix by lia. Qed.

Lemma int16_at_prefix (n : nat) (junk : list Z) (k : Z) :
  0 <= k -> (Z.to_nat (2 * k + 1) < n)%nat ->
  int16_at (replicate n 0 ++ junk) k = 0.
Proof. intros Hk Hn. unfold int16_at. by rewrite !byte_at_prefix by lia. Qed.

Lemma sample_index_bound (i channels ch frames : Z) :
  0 <= i < frames -> 0 <= ch < channels ->
  0 <= sample_index i channels ch < frames * channels.
Proof.
  intros Hi Hch. unfold sample_index.
  pose proof (Z.mod_pos_bound (i * channels + ch) (2 ^ 32) ltac:(lia)) as Hm.
  assert (Hle : (i * channels + ch) mod 2 ^ 32 <= i * channels + ch)
    by (apply Z.mod_le; nia).
  nia.
Qed.

Lemma sum_float_prefix (n : nat) (junk : list Z) (i channels frames : Z) :
  0 <= i < frames -> Z.of_nat n >= 4 * (frames * channels) ->
  sum_float (replicate n 0 ++ junk) i channels = f32_zero.
Proof.
  intros Hi Hn. unfold sum_float.
  assert (Hall : Forall (fun ch => (ch < Z.to_nat channels)%nat) (seq 0 (Z.to_nat channels))).
  { apply Forall_forall. intros ch Hch%elem_of_seq. lia. }
  revert Hall. generalize (seq 0 (Z.to_nat channels)) as chs.
  induction chs as [|ch chs IH]; intros Hall; [done|].
  apply Forall_cons in Hall as [Hch Hall]. cbn [foldl].
  pose proof (sample_index_bound i channels (Z.of_nat ch) frames Hi ltac:(lia)).
  rewrite float_at_prefix by lia. by apply IH.
Qed.

Lemma sum_int16_prefix (n : nat) (junk : list Z) (i channels frames : Z) :
  0 <= i < frames -> Z.of_nat n >= 2 * (frames * channels) ->
  sum_int16 (replicate n 0 ++ junk) i channels = 0.
Proof.
  intros Hi Hn. unfold sum_int16.
  assert (Hall : Forall (fun ch => (ch < Z.to_nat channels)%nat) (seq 0 (Z.to_nat channels))).
  { apply Forall_forall. intros ch Hch%elem_of_seq. lia. }
  revert Hall. generalize (seq 0 (Z.to_nat channels)) as chs.
  induction chs as [|ch chs IH]; intros Hall; [done|].
  apply Forall_cons in Hall as [Hch Hall]. cbn [foldl].
  pose proof (sample_index_bound i channels (Z.of_nat ch) frames Hi ltac:(lia)).
  rewrite int16_at_prefix by lia. by apply IH.
Qed.

Lemma fmap_seq_const {A} (g : nat -> A) (x : A) (start n : nat) :
  (forall i, (start <= i < start + n)%nat -> g i = x) -> g <$> seq start n = replicate n x.
Proof.
  revert start. induction n as [|n IH]; intros start Hg; [done|].
  cbn [seq fmap list_fmap replicate]. rewrite Hg by lia. f_equal. apply IH.
  intros i Hi. apply Hg. lia.
Qed.

(** For a descriptor whose block alignment covers its channels, a packet
    of zero bytes is normalised to zeros whatever lies behind the packet
    in memory: every read stays within the packet. *)
Lemma ToMonoFloat_zero_prefix (f : WAVEFORMATEX) (junk : list Z) (frames : Z) :
  1 <= nChannels f -> 1 <= frames ->
  (IsFloatFormat (Some f) = true -> 4 * nChannels f <= nBlockAlign f) ->
  (IsPcm16Format (Some f) = true -> 2 * nChannels f <= nBlockAlign f) ->
  ToMonoFloat (Some f) (Some (replicate (Z.to_nat (frames * nBlockAlign f)) 0 ++ junk)) frames
  = (true, replicate (Z.to_nat frames) f32_zero).
Proof.
  intros Hc Hf Hfloat Hpcm. unfold ToMonoFloat.
  rewrite (proj2 (Z.eqb_neq frames 0)), (proj2 (Z.eqb_neq (nChannels f) 0)) by lia.
  destruct (IsFloatFormat (Some f)) eqn:Hfl; [|destruct (IsPcm16Format (Some f)) eqn:Hp].
  - f_equal. rewrite foldl_insert_all. apply fmap_seq_const. intros i Hi.
    specialize (Hfloat eq_refl).
    rewrite (sum_float_prefix _ _ _ _ frames) by nia.
    by rewrite f32_div_zero_positive by lia.
  - f_equal. rewrite foldl_insert_all. apply fmap_seq_const. intros i Hi.
    specialize (Hpcm eq_refl).
    rewrite (sum_int16_prefix _ _ _ _ frames) by nia.
    change (f32_of_Z 0) with f32_zero. by rewrite f32_div_zero_positive by lia.
  - by rewrite length_replicate.
Qed.

End SilentPacket.

(** X28: silence stays silence through the whole chain, for a descriptor
    whose block alignment covers its channels (four bytes a channel for
    32-bit float, two for 16-bit PCM), so that every read of the
    normaliser stays within the packet.  The normaliser gives the same
    zeros whatever lies behind the packet in memory.  Resampling zeros to
    16000 Hz gives zeros, not NaN: the position and the fraction the
    resampler computes in [double] stay finite for every device rate
    below [2^32].  So a packet flagged silent, or whose buffer holds the
    packet and only zero bytes, is converted to zero bytes only. *)
Theorem silent_packet_stores_zeros (f : WAVEFORMATEX) (buffer : list Z)
    (frames_read flags : Z) :
  Z.land flags AUDCLNT_BUFFERFLAGS_SILENT <> 0 \/
  (Forall (fun b => b = 0) buffer /\
   (Z.to_nat (frames_read * nBlockAlign f) <= length buffer)%nat) ->
  0 <= frames_read < 2 ^ 32 -> 0 <= nChannels f < 2 ^ 16 ->
  0 <= nSamplesPerSec f < 2 ^ 32 ->
  (IsFloatFormat (Some f) = true -> 4 * nChannels f <= nBlockAlign f) ->
  (IsPcm16Format (Some f) = true -> 2 * nChannels f <= nBlockAlign f) ->
  (forall junk,
     ToMonoFloat (Some f)
       (Some (replicate (Z.to_nat (frames_read * nBlockAlign f)) 0 ++ junk)) frames_read
     = ToMonoFloat (Some f)
         (Some (replicate (Z.to_nat (frames_read * nBlockAlign f)) 0)) frames_read) /\
  (forall n, Forall is_zero (ResampleLinear (replicate n f32_zero) (nSamplesPerSec f) 16000)) /\
  packet_pcm16 (Some f) buffer frames_read flags
  = replicate (length (packet_pcm16 (Some f) buffer frames_read flags)) 0.
Proof.
  intros Hsilent Hfr Hch Hrate Hfloat Hpcm.
  assert (Hres : forall n,
            Forall is_zero (ResampleLinear (replicate n f32_zero) (nSamplesPerSec f) 16000)).
  { intros n. destruct (Z.eq_dec (nSamplesPerSec f) 0) as [Hr0|Hr0].
    - unfold ResampleLinear. rewrite Hr0. cbn [Z.eqb]. rewrite orb_true_r. constructor.
    - apply ResampleLinear_zeros; lia. }
  assert (Hmono : forall junk,
            1 <= nChannels f -> 1 <= frames_read ->
            ToMonoFloat (Some f)
              (Some (replicate (Z.to_nat (frames_read * nBlockAlign f)) 0 ++ junk)) frames_read
            = (true, replicate (Z.to_nat frames_read) f32_zero)).
  { intros junk Hc1 Hf1. by apply ToMonoFloat_zero_prefix. }
  split; [|split; [exact Hres|]].
  { intros junk.
    destruct (Z.eq_dec (nChannels f) 0) as [Hc0|Hc0].
    { unfold ToMonoFloat. rewrite Hc0. cbn [Z.eqb]. by destruct (frames_read =? 0). }
    destruct (Z.eq_dec frames_read 0) as [Hf0|Hf0].
    { unfold ToMonoFloat. by rewrite Hf0. }
    rewrite (Hmono junk) by lia.
    rewrite <- (app_nil_r (replicate (Z.to_nat (frames_read * nBlockAlign f)) 0)).
    by rewrite (Hmono []) by lia. }
  assert (Hall : exists k, packet_pcm16 (Some f) buffer frames_read flags = replicate k 0).
  { unfold packet_pcm16.
    destruct (Z.ltb_spec 0 (frames_read * nBlockAlign f)) as [Hbytes|]; [|by exists 0%nat].
    set (raw := if Z.land flags AUDCLNT_BUFFERFLAGS_SILENT =? 0
                then resize (Z.to_nat (frames_read * nBlockAlign f)) 0 buffer
                else replicate (Z.to_nat (frames_read * nBlockAlign f)) 0).
    assert (Hraw : raw = replicate (Z.to_nat (frames_read * nBlockAlign f)) 0).
    { subst raw. destruct (Z.eqb_spec (Z.land flags AUDCLNT_BUFFERFLAGS_SILENT) 0) as [H0|];
        [|done].
      destruct Hsilent as [|[Hb _]]; [done|]. by apply resize_zeros. }
    rewrite Hraw.
    destruct (Z.eq_dec (nChannels f) 0) as [Hc0|Hc0].
    { unfold ToMonoFloat. rewrite Hc0. cbn [Z.eqb].
      destruct (frames_read =? 0); by exists 0%nat. }
    assert (Hf1 : 1 <= frames_read).
    { destruct (Z.eq_dec frames_read 0) as [->|]; lia. }
    rewrite <- (app_nil_r (replicate (Z.to_nat (frames_read * nBlockAlign f)) 0)).
    rewrite (Hmono []) by lia.
    rewrite MonoFloatToPcm16Bytes_flat_map, encode_zeros by apply Hres.
    by eexists. }
  destruct Hall as [k Hk]. by rewrite Hk, length_replicate.
Qed.

Lemma silent_packet_stores_zeros_witness :
  packet_pcm16 (Some stereo_float_48k) [1; 2; 3; 4; 5; 6; 7; 8; 9; 10; 11; 12; 13; 14; 15; 16;
                                         17; 18; 19; 20; 21; 22; 23; 24] 3
    AUDCLNT_BUFFERFLAGS_SILENT
  = replicate (length (packet_pcm16 (Some stereo_float_48k)
                         [1; 2; 3; 4; 5; 6; 7; 8; 9; 10; 11; 12; 13; 14; 15; 16;
                          17; 18; 19; 20; 21; 22; 23; 24] 3 AUDCLNT_BUFFERFLAGS_SILENT)) 0.
Proof.
  apply (silent_packet_stores_zeros stereo_float_48k); [by left|lia|by cbn|by cbn|..].
  - intros _. cbn. lia.
  - intros H. discriminate H.
Defined.
